(** * archi-pdf: document-boundary detection, rectification and the editor

    A shallow embedding of [src/services/cvService.ts] and of the event
    handlers of [src/components/EditorModal.tsx].

    Numbers.  A JavaScript [number] is embedded as an exact rational ([Q]);
    comparisons, [Math.max], [Math.min] and [Math.round] are the exact ones.
    [Math.hypot], [Math.sin], [Math.cos] and [Math.PI] leave the rationals and
    are taken in the reals ([R]).  NaN, infinities and rounding of doubles are
    outside the model.

    The vision engine (OpenCV.js), the image decoder and the 2D canvas are
    collaborators of the code, not part of it: what they answer is data of
    the environment ([Env], [Contour]), what the code asks of them is recorded
    in the value it returns ([ImageUrl], [Canvas]). *)

From Stdlib Require Import List Bool Arith ZArith QArith Qround Qminmax Qabs.
From Stdlib Require Import Reals Qreals Lia String Psatz.
From Stdlib Require Import Permutation Sorted.
From Stdlib Require Import DecimalString.
Import ListNotations.

Set Implicit Arguments.

(* ================================================================== *)
(** ** Geometry kernel *)

Module Geometry.

Record Point : Type := mkPoint { px : Q; py : Q }.

(** [Array.prototype.sort(cmp)]: a stable sort driven by the sign of the
    number the comparator returns.  [insert x l] puts [x] in front of the
    first element that does not compare strictly below it, so that elements
    the comparator cannot tell apart keep the order of the input. *)
Section Sort.
Variable A : Type.
Variable cmp : A -> A -> Q.

Fixpoint insert (x : A) (l : list A) : list A :=
  match l with
  | [] => [x]
  | h :: t => if Qlt_le_dec (cmp h x) 0 then h :: insert x t else x :: h :: t
  end.

Fixpoint sort (l : list A) : list A :=
  match l with
  | [] => []
  | x :: t => insert x (sort t)
  end.
End Sort.

(** [l.slice(s, e)] for [0 <= s <= e]. *)
Definition slice (A : Type) (s e : nat) (l : list A) : list A :=
  firstn (e - s) (skipn s l).

(** [l[i]] as a list of at most one element: empty where JavaScript reads
    [undefined]. *)
Definition at_index (A : Type) (l : list A) (i : nat) : list A :=
  match nth_error l i with
  | Some a => [a]
  | None => []
  end.

Definition by_y : Point -> Point -> Q := fun a b => py a - py b.
Definition by_x : Point -> Point -> Q := fun a b => px a - px b.
Definition by_x_desc : Point -> Point -> Q := fun a b => px b - px a.

(** [sortPoints] (cvService.ts, lines 34-39).  The array it returns always
    has four slots; with fewer than four input points the trailing ones are
    [undefined], which the model leaves out (a shorter list). *)
Definition sortPoints (pts : list Point) : list Point :=
  let sorted := sort by_y pts in
  let top := sort by_x (slice 0 2 sorted) in
  let bottom := sort by_x_desc (slice 2 4 sorted) in
  at_index top 0 ++ at_index top 1 ++ at_index bottom 0 ++ at_index bottom 1.

(** [Math.hypot(a, b)]. *)
Definition hypot (a b : Q) : R := sqrt (Q2R (a * a + b * b)).

(** Euclidean distance between two points. *)
Definition dist (p q : Point) : R := hypot (px p - px q) (py p - py q).

(** [Math.round(x)]: the nearest integer, halves going up. *)
Definition round (x : Q) : Q := inject_Z (Qfloor (x + (1 # 2))).

(** Twice the signed area of a polygon (shoelace formula). *)
Fixpoint shoelace (first prev : Point) (l : list Point) : Q :=
  match l with
  | [] => px prev * py first - px first * py prev
  | p :: t => (px prev * py p - px p * py prev) + shoelace first p t
  end.

Definition area (pts : list Point) : Q :=
  match pts with
  | [] => 0
  | p :: t => Qabs (shoelace p p t) / 2
  end.

End Geometry.
Import Geometry.

(* ================================================================== *)
(** ** Collaborators: promises, the window, the engine's answers *)

Module Platform.

(** What a promise has come to: resolved with a value, rejected, or never
    settled. *)
Inductive Promise (A : Type) : Type :=
| Resolved (a : A)
| Rejected
| Pending.
Arguments Rejected {A}.
Arguments Pending {A}.

Definition bind (A B : Type) (p : Promise A) (k : A -> Promise B) : Promise B :=
  match p with
  | Resolved a => k a
  | Rejected => Rejected
  | Pending => Pending
  end.

(** [window.cv] once the script has loaded, and [window.cvReady]. *)
Record CvObject : Type := { has_imread : bool; has_Mat : bool }.
Record Window : Type := { cv : option CvObject; cvReady : option bool }.

(** A decoded image: [img.width], [img.height] ([src.cols], [src.rows]). *)
Record Image : Type := { width : Q; height : Q }.

(** One contour as the engine reports it: [cv.contourArea], the vertices of
    [cv.approxPolyDP] (32-bit integers) and the four vertices of
    [cv.RotatedRect.points(cv.minAreaRect(cnt))]. *)
Record Contour : Type := {
  contourArea : Q;
  approxPolyDP : list (Z * Z);
  minAreaRect : Point * Point * Point * Point
}.

(** The result of a run of engine calls: a value, or a thrown exception. *)
Inductive CvResult (A : Type) : Type :=
| CvOk (a : A)
| CvThrow.
Arguments CvThrow {A}.

(** 3x2 matrix of a 2D affine map: [(x, y)] goes to
    [(a x + c y + e, b x + d y + f)]. *)
Record Affine : Type := { ma : R; mb : R; mc : R; md : R; me : R; mf : R }.

(** An image drawn on a canvas: the transform in force, the offset given to
    [drawImage], the size of the image and the filter in force. *)
Record Layer : Type := {
  l_ctm : Affine;
  l_dx : R; l_dy : R;
  l_w : R; l_h : R;
  l_filter : Z * Z
}.

(** A canvas with its 2D context.  [c_width] and [c_height] hold the values
    the code assigns.  A canvas starts out transparent; only what [c_layers]
    and [c_fill] record is painted on it. *)
Record Canvas : Type := {
  c_width : R; c_height : R;
  c_filter : Z * Z;
  c_ctm : Affine;
  c_fill : option string;
  c_layers : list Layer
}.

(** The request handed to [cv.getPerspectiveTransform] and
    [cv.warpPerspective]: source corners, destination corners and the
    [cv.Size] of the output. *)
Record WarpRequest : Type := {
  w_srcCoords : list Point;
  w_dstCoords : list (R * R);
  w_size : R * R
}.

(** Image URLs: one given to the application, or the data URL the code gets
    back from a canvas, named by what produced it. *)
Inductive ImageUrl : Type :=
| Source (name : string)
| WarpPng (src : ImageUrl) (req : WarpRequest)
| CanvasPng (src : ImageUrl) (canvas : Canvas).

(** The environment of a call.  [window_at t] is the window [t] milliseconds
    after the call started; [decode] is the image loader ([None]: [onerror]);
    [edgeContours] and [threshContours] are the contours the engine finds on
    the Canny and on the adaptive-threshold pipeline ([CvThrow]: one of the
    engine calls on the way threw); [warpThrows] tells whether the engine
    throws on a warp request; [context2d] whether [getContext('2d')] gives a
    context. *)
Record Env : Type := {
  window_at : Z -> Window;
  decode : ImageUrl -> option Image;
  edgeContours : Image -> CvResult (list Contour);
  threshContours : Image -> CvResult (list Contour);
  warpThrows : ImageUrl -> WarpRequest -> bool;
  context2d : bool
}.

End Platform.
Import Platform.

(* ================================================================== *)
(** ** services/cvService.ts *)

Module CvService.

(** The readiness test of [waitForCV]:
    [window.cv && window.cv.imread && window.cv.Mat && window.cvReady !== false]. *)
Definition cvLoaded (w : Window) : bool :=
  match cv w with
  | None => false
  | Some o =>
      has_imread o && has_Mat o &&
      match cvReady w with
      | Some false => false
      | _ => true
      end
  end.

(** [waitForCV(retries)], started [now] milliseconds into the call.  Gives
    [true] when the engine is there, [false] when it throws, and the time at
    which it does so; every retry comes after a [setTimeout] of 100 ms. *)
Fixpoint waitForCV (win : Z -> Window) (now : Z) (retries : nat) : bool * Z :=
  if cvLoaded (win now) then (true, now)
  else
    match retries with
    | O => (false, now)
    | S r => waitForCV win (now + 100)%Z r
    end.

(** The default argument of [waitForCV]. *)
Definition defaultRetries : nat := 300.

(** [a > b] on numbers. *)
Definition greater (a b : Q) : bool := negb (Qle_bool a b).

(** [{ x: Math.round(x / scale), y: Math.round(y / scale) }]. *)
Definition unscale (scale : Q) (x y : Q) : Point :=
  mkPoint (round (x / scale)) (round (y / scale)).

Definition approxPoints (scale : Q) (cnt : Contour) : list Point :=
  map (fun v => unscale scale (inject_Z (fst v)) (inject_Z (snd v))) (approxPolyDP cnt).

Definition rectPoints (scale : Q) (cnt : Contour) : list Point :=
  let '(v0, v1, v2, v3) := minAreaRect cnt in
  map (fun v => unscale scale (px v) (py v)) [v0; v1; v2; v3].

(** The variables of the loop of [findContourPoints]. *)
Record Search : Type := { bestPoints : option (list Point); maxArea : Q }.

(** One turn of the loop (cvService.ts, lines 114-146). *)
Definition visit (scale minAreaThreshold : Q) (st : Search) (cnt : Contour) : Search :=
  let area := contourArea cnt in
  if Qlt_le_dec area minAreaThreshold then st
  else if (List.length (approxPolyDP cnt) =? 4)%nat && greater area (maxArea st) then
    {| bestPoints := Some (approxPoints scale cnt); maxArea := area |}
  else if greater area (maxArea st) then
    {| bestPoints := Some (rectPoints scale cnt); maxArea := area |}
  else st.

(** [findContourPoints] (lines 104-154), on the contours that
    [cv.findContours] reports for [mat]. *)
Definition findContourPoints (contours : list Contour) (scale totalArea : Q)
  : option (list Point) :=
  let minAreaThreshold := totalArea * (1 # 100) in
  let final :=
    fold_left (visit scale minAreaThreshold) contours
              {| bestPoints := None; maxArea := 0 |} in
  match bestPoints final with
  | Some pts => Some (sortPoints pts)
  | None => None
  end.

(** The body of [img.onload] in [detectDocumentCorners] (lines 58-93), inside
    its [try]. *)
Definition detectPipeline (env : Env) (img : Image) : CvResult (option (list Point)) :=
  let rows := height img in
  let cols := width img in
  let maxDim := 800 in
  let scale := Qmin (maxDim / rows) (maxDim / cols) in
  let resized_cols := round (cols * scale) in
  let resized_rows := round (rows * scale) in
  match edgeContours env img with
  | CvThrow => CvThrow
  | CvOk contours =>
      match findContourPoints contours scale (resized_rows * resized_cols) with
      | Some pts => CvOk (Some pts)
      | None =>
          match threshContours env img with
          | CvThrow => CvThrow
          | CvOk contours2 =>
              CvOk (findContourPoints contours2 scale (resized_rows * resized_cols))
          end
      end
  end.

(** [detectDocumentCorners] (lines 44-102). *)
Definition detectDocumentCorners (env : Env) (imageUrl : ImageUrl)
  : Promise (option (list Point)) :=
  match fst (waitForCV (window_at env) 0%Z defaultRetries) with
  | false => Resolved None
  | true =>
      match decode env imageUrl with
      | None => Resolved None
      | Some img =>
          match detectPipeline env img with
          | CvOk r => Resolved r
          | CvThrow => Resolved None
          end
      end
  end.

(** The sizes computed in [applyPerspectiveCrop] (lines 174-180) from the
    sorted corners. *)
Definition targetW (s0 s1 s2 s3 : Point) : R :=
  let widthA := hypot (px s2 - px s3) (py s2 - py s3) in
  let widthB := hypot (px s1 - px s0) (py s1 - py s0) in
  Rmax widthA widthB.

Definition targetH (s0 s1 s2 s3 : Point) : R :=
  let heightA := hypot (px s1 - px s2) (py s1 - py s2) in
  let heightB := hypot (px s0 - px s3) (py s0 - py s3) in
  Rmax heightA heightB.

(** What [applyPerspectiveCrop] asks of the engine for the points it is
    given (lines 171-197); [None] where reading [sorted[i].x] throws. *)
Definition cropRequest (points : list Point) : option WarpRequest :=
  match sortPoints points with
  | [s0; s1; s2; s3] =>
      let tw := targetW s0 s1 s2 s3 in
      let th := targetH s0 s1 s2 s3 in
      Some {| w_srcCoords := [s0; s1; s2; s3];
              w_dstCoords := [(0, 0); (tw, 0); (tw, th); (0, th)]%R;
              w_size := (tw, th) |}
  | _ => None
  end.

(** [applyPerspectiveCrop] (lines 159-210). *)
Definition applyPerspectiveCrop (env : Env) (imageUrl : ImageUrl) (points : list Point)
  : Promise ImageUrl :=
  match fst (waitForCV (window_at env) 0%Z defaultRetries) with
  | false => Rejected
  | true =>
      match decode env imageUrl with
      | None => Rejected
      | Some _ =>
          match cropRequest points with
          | None => Rejected
          | Some req =>
              if warpThrows env imageUrl req then Rejected
              else Resolved (WarpPng imageUrl req)
          end
      end
  end.

(** [autoCropImage] (lines 212-216). *)
Definition autoCropImage (env : Env) (imageUrl : ImageUrl) : Promise ImageUrl :=
  bind (detectDocumentCorners env imageUrl) (fun corners =>
    match corners with
    | None => Resolved imageUrl
    | Some pts => applyPerspectiveCrop env imageUrl pts
    end).

(** *** The 2D canvas, as far as [applyImageAdjustments] drives it *)

Definition identity : Affine :=
  {| ma := 1; mb := 0; mc := 0; md := 1; me := 0; mf := 0 |}.

(** [compose m n] applies [n] first, then [m]. *)
Definition compose (m n : Affine) : Affine :=
  {| ma := ma m * ma n + mc m * mb n;
     mb := mb m * ma n + md m * mb n;
     mc := ma m * mc n + mc m * md n;
     md := mb m * mc n + md m * md n;
     me := ma m * me n + mc m * mf n + me m;
     mf := mb m * me n + md m * mf n + mf m |}%R.

Definition apply (m : Affine) (p : R * R) : R * R :=
  (ma m * fst p + mc m * snd p + me m, mb m * fst p + md m * snd p + mf m)%R.

(** [document.createElement('canvas')] with its context. *)
Definition createCanvas : Canvas :=
  {| c_width := 300; c_height := 150; c_filter := (100, 100)%Z;
     c_ctm := identity; c_fill := None; c_layers := [] |}.

Definition setSize (w h : R) (c : Canvas) : Canvas :=
  {| c_width := w; c_height := h; c_filter := c_filter c;
     c_ctm := c_ctm c; c_fill := c_fill c; c_layers := c_layers c |}.

Definition setFilter (brightness contrast : Z) (c : Canvas) : Canvas :=
  {| c_width := c_width c; c_height := c_height c; c_filter := (brightness, contrast);
     c_ctm := c_ctm c; c_fill := c_fill c; c_layers := c_layers c |}.

(** [ctx.translate] and [ctx.rotate] multiply the current transform on the
    right. *)
Definition translate (tx ty : R) (c : Canvas) : Canvas :=
  {| c_width := c_width c; c_height := c_height c; c_filter := c_filter c;
     c_ctm := compose (c_ctm c) {| ma := 1; mb := 0; mc := 0; md := 1; me := tx; mf := ty |};
     c_fill := c_fill c; c_layers := c_layers c |}.

Definition rotate (a : R) (c : Canvas) : Canvas :=
  {| c_width := c_width c; c_height := c_height c; c_filter := c_filter c;
     c_ctm := compose (c_ctm c)
                {| ma := cos a; mb := sin a; mc := - sin a; md := cos a; me := 0; mf := 0 |}%R;
     c_fill := c_fill c; c_layers := c_layers c |}.

Definition drawImage (img : Image) (dx dy : R) (c : Canvas) : Canvas :=
  {| c_width := c_width c; c_height := c_height c; c_filter := c_filter c;
     c_ctm := c_ctm c; c_fill := c_fill c;
     c_layers := c_layers c ++
       [{| l_ctm := c_ctm c; l_dx := dx; l_dy := dy;
           l_w := Q2R (width img); l_h := Q2R (height img);
           l_filter := c_filter c |}] |}.

(** Where the layer puts the point [(i, j)] of its image. *)
Definition place (l : Layer) (i j : R) : R * R :=
  apply (l_ctm l) (l_dx l + i, l_dy l + j)%R.

(** The canvas point [p] shows the image of layer [l]. *)
Definition covers (l : Layer) (p : R * R) : Prop :=
  exists i j : R, (0 <= i <= l_w l)%R /\ (0 <= j <= l_h l)%R /\ place l i j = p.

(** What a point of the canvas shows. *)
Inductive Paint : Type :=
| Transparent
| Fill (colour : string)
| Drawn.

Definition shows (c : Canvas) (p : R * R) (k : Paint) : Prop :=
  (Exists (fun l => covers l p) (c_layers c) /\ k = Drawn) \/
  (~ Exists (fun l => covers l p) (c_layers c) /\
   k = match c_fill c with Some colour => Fill colour | None => Transparent end).

(** [(rotation % 360) * Math.PI / 180]. *)
Definition rads (rotation : Z) : R := (IZR (Z.rem rotation 360) * PI / 180)%R.

Definition newWidth (img : Image) (rotation : Z) : R :=
  (Q2R (width img) * Rabs (cos (rads rotation)) +
   Q2R (height img) * Rabs (sin (rads rotation)))%R.

Definition newHeight (img : Image) (rotation : Z) : R :=
  (Q2R (width img) * Rabs (sin (rads rotation)) +
   Q2R (height img) * Rabs (cos (rads rotation)))%R.

(** The canvas at the end of [img.onload] in [applyImageAdjustments]
    (lines 225-237). *)
Definition adjustCanvas (img : Image) (brightness contrast rotation : Z) : Canvas :=
  let c := createCanvas in
  let c := setSize (newWidth img rotation) (newHeight img rotation) c in
  let c := setFilter brightness contrast c in
  let c := translate (newWidth img rotation / 2) (newHeight img rotation / 2) c in
  let c := rotate (rads rotation) c in
  drawImage img (- Q2R (width img) / 2) (- Q2R (height img) / 2) c.

(** [applyImageAdjustments] (lines 218-242).  Without a 2D context the
    handler returns and the promise is never settled. *)
Definition applyImageAdjustments (env : Env) (imageUrl : ImageUrl)
    (brightness contrast rotation : Z) : Promise ImageUrl :=
  match decode env imageUrl with
  | None => Rejected
  | Some img =>
      if context2d env
      then Resolved (CanvasPng imageUrl (adjustCanvas img brightness contrast rotation))
      else Pending
  end.

End CvService.
Import CvService.

(* ================================================================== *)
(** ** The other copy of the service: src/unnamed/part_002 *)

Module Part002.

(** What [applyPerspectiveCrop] asks of the engine in that copy (lines
    178-200): it reads [points[0]] to [points[3]] in the order given, without
    sorting them.  The rest of the function is as in [CvService]. *)
Definition cropRequest (points : list Point) : option WarpRequest :=
  match points with
  | p0 :: p1 :: p2 :: p3 :: _ =>
      let wTop := hypot (px p1 - px p0) (py p1 - py p0) in
      let wBottom := hypot (px p2 - px p3) (py p2 - py p3) in
      let hLeft := hypot (px p3 - px p0) (py p3 - py p0) in
      let hRight := hypot (px p2 - px p1) (py p2 - py p1) in
      let tw := Rmax wTop wBottom in
      let th := Rmax hLeft hRight in
      Some {| w_srcCoords := [p0; p1; p2; p3];
              w_dstCoords := [(0, 0); (tw, 0); (tw, th); (0, th)]%R;
              w_size := (tw, th) |}
  | _ => None
  end.

End Part002.

(* ================================================================== *)
(** ** components/EditorModal.tsx *)

Module Editor.

Inductive Tool : Type := none | crop | adjust.

Definition is_crop (t : Tool) : bool :=
  match t with crop => true | _ => false end.

(** The [<img>] behind [imageRef]: the width of its bounding client rectangle
    and its natural size. *)
Record ImgElement : Type := {
  rectWidth : Q;
  naturalWidth : Q;
  naturalHeight : Q
}.

(** The scroll container behind [containerRef]. *)
Record Container : Type := { scrollLeft : Q; scrollTop : Q }.

(** A mouse event. *)
Record MouseEvent : Type := { clientX : Q; clientY : Q }.

(** The state and the refs of the component that the handlers below read
    or write. *)
Record State : Type := {
  item_url : ImageUrl;
  history : list ImageUrl;
  currentIndex : Z;
  isProcessing : bool;
  activeTool : Tool;
  points : option (list Point);
  isDragging : bool;
  dragInfo : option nat;
  brightness : Z;
  contrast : Z;
  rotation : Z;
  isPanning : bool;
  imageRef : option ImgElement;
  containerRef : option Container;
  panStartRef : Point;
  scrollStartRef : Container;
  dragStartPosRef : Point;
  initialPointsRef : option (list Point)
}.

(** [history[currentIndex] || item.url]. *)
Definition currentImage (s : State) : ImageUrl :=
  match (if (0 <=? currentIndex s)%Z
         then nth_error (history s) (Z.to_nat (currentIndex s))
         else None) with
  | Some u => u
  | None => item_url s
  end.

Definition setPoints (pts : list Point) (s : State) : State :=
  {| item_url := item_url s; history := history s; currentIndex := currentIndex s;
     isProcessing := isProcessing s; activeTool := activeTool s;
     points := Some pts;
     isDragging := isDragging s; dragInfo := dragInfo s;
     brightness := brightness s; contrast := contrast s; rotation := rotation s;
     isPanning := isPanning s; imageRef := imageRef s;
     containerRef := containerRef s;
     panStartRef := panStartRef s; scrollStartRef := scrollStartRef s;
     dragStartPosRef := dragStartPosRef s; initialPointsRef := initialPointsRef s |}.

Definition setIsProcessing (b : bool) (s : State) : State :=
  {| item_url := item_url s; history := history s; currentIndex := currentIndex s;
     isProcessing := b; activeTool := activeTool s;
     points := points s;
     isDragging := isDragging s; dragInfo := dragInfo s;
     brightness := brightness s; contrast := contrast s; rotation := rotation s;
     isPanning := isPanning s; imageRef := imageRef s;
     containerRef := containerRef s;
     panStartRef := panStartRef s; scrollStartRef := scrollStartRef s;
     dragStartPosRef := dragStartPosRef s; initialPointsRef := initialPointsRef s |}.

Definition setScroll (c : Container) (s : State) : State :=
  {| item_url := item_url s; history := history s; currentIndex := currentIndex s;
     isProcessing := isProcessing s; activeTool := activeTool s;
     points := points s;
     isDragging := isDragging s; dragInfo := dragInfo s;
     brightness := brightness s; contrast := contrast s; rotation := rotation s;
     isPanning := isPanning s; imageRef := imageRef s;
     containerRef := Some c;
     panStartRef := panStartRef s; scrollStartRef := scrollStartRef s;
     dragStartPosRef := dragStartPosRef s; initialPointsRef := initialPointsRef s |}.

(** The quadrilateral set when detection finds nothing (line 70). *)
Definition defaultPoints (w h : Q) : list Point :=
  [ mkPoint (w * (1 # 10)) (h * (1 # 10));
    mkPoint (w * (9 # 10)) (h * (1 # 10));
    mkPoint (w * (9 # 10)) (h * (9 # 10));
    mkPoint (w * (1 # 10)) (h * (9 # 10)) ].

(** [handlePerformAutoDetection] (lines 61-73).  Should the promise of the
    detector not resolve, the handler stops at its [await]. *)
Definition handlePerformAutoDetection (env : Env) (url : ImageUrl) (s : State) : State :=
  match imageRef s with
  | None => s
  | Some img =>
      let s := setIsProcessing true s in
      match detectDocumentCorners env url with
      | Resolved (Some detected) => setIsProcessing false (setPoints detected s)
      | Resolved None =>
          let w := naturalWidth img in
          let h := naturalHeight img in
          setIsProcessing false (setPoints (defaultPoints w h) s)
      | _ => s
      end
  end.

(** [a[i] = v] on an array that has an element at [i]. *)
Fixpoint set_nth (A : Type) (i : nat) (v : A) (l : list A) : list A :=
  match l, i with
  | [], _ => []
  | _ :: t, O => v :: t
  | h :: t, S i' => h :: set_nth i' v t
  end.

(** [Math.max(0, Math.min(hi, v))]. *)
Definition clamp (hi v : Q) : Q := Qmax 0 (Qmin hi v).

(** [handleWindowMouseMove] (lines 110-128).  Writing to a corner that the
    snapshot does not have throws and leaves the state as it was.  The
    quotient [natW / rectW] is that of the rationals: the function stands
    for the handler on an image shown with a positive width, which is what
    the statements about a drag assume. *)
Definition handleWindowMouseMove (e : MouseEvent) (s : State) : State :=
  match (if isPanning s then containerRef s else None) with
  | Some _ =>
      let dx := clientX e - px (panStartRef s) in
      let dy := clientY e - py (panStartRef s) in
      setScroll {| scrollLeft := scrollLeft (scrollStartRef s) - dx;
                   scrollTop := scrollTop (scrollStartRef s) - dy |} s
  | None =>
      match isDragging s, points s, initialPointsRef s, dragInfo s, imageRef s with
      | true, Some _, Some initial, Some index, Some img =>
          let rectW := rectWidth img in
          let natW := naturalWidth img in
          let scale := natW / rectW in
          let dx := (clientX e - px (dragStartPosRef s)) * scale in
          let dy := (clientY e - py (dragStartPosRef s)) * scale in
          match nth_error initial index with
          | None => s
          | Some p =>
              let x := clamp (naturalWidth img) (px p + dx) in
              let y := clamp (naturalHeight img) (py p + dy) in
              setPoints (set_nth index (mkPoint x y) initial) s
          end
      | _, _, _, _, _ => s
      end
  end.

(** What [handleSave] hands to [onUpdate]: the promise of [finalUrl]
    (lines 140-146). *)
Definition finalUrl (env : Env) (s : State) : Promise ImageUrl :=
  match (if is_crop (activeTool s) then points s else None) with
  | Some pts => applyPerspectiveCrop env (currentImage s) pts
  | None =>
      if negb (brightness s =? 100)%Z || negb (contrast s =? 100)%Z
         || negb (rotation s =? 0)%Z
      then applyImageAdjustments env (currentImage s)
             (brightness s) (contrast s) (rotation s)
      else Resolved (currentImage s)
  end.

(** What the user sees of a save. *)
Inductive Saved : Type :=
| Updated (url : ImageUrl)
| Alerted
| Waiting.

(** [handleSave] (lines 138-152): [onUpdate] with the new URL and [onClose],
    or the alert of the [catch]. *)
Definition handleSave (env : Env) (s : State) : Saved :=
  match finalUrl env s with
  | Resolved u => Updated u
  | Rejected => Alerted
  | Pending => Waiting
  end.

End Editor.
Import Editor.

(* ================================================================== *)
(** ** Vocabulary of the statements *)

Module Statements.

(** The keys tell the members of [l] apart. *)
Definition keyed (A : Type) (key : A -> Q) (l : list A) : Prop :=
  forall p q, In p l -> In q l -> key p == key q -> p = q.

(** No two entries of [l] have the same key. *)
Fixpoint distinct_by (A : Type) (key : A -> Q) (l : list A) : bool :=
  match l with
  | [] => true
  | p :: t => forallb (fun q => negb (Qeq_bool (key p) (key q))) t && distinct_by key t
  end.

(** The four points [findContourPoints] takes from a contour: the vertices
    of its approximation when there are exactly four, else those of its
    minimum-area rectangle. *)
Definition candidate (scale : Q) (cnt : Contour) : list Point :=
  if (List.length (approxPolyDP cnt) =? 4)%nat
  then approxPoints scale cnt
  else rectPoints scale cnt.

(** What the loop of [findContourPoints] knows after the contours [seen]. *)
Definition search_inv (scale thr : Q) (seen : list Contour) (st : Search) : Prop :=
  0 <= maxArea st /\
  (forall c, In c seen -> thr <= contourArea c -> contourArea c <= maxArea st) /\
  match bestPoints st with
  | None => maxArea st = 0
  | Some pts =>
      exists c, In c seen /\ thr <= contourArea c /\ 0 < contourArea c /\
                maxArea st = contourArea c /\ pts = candidate scale c
  end.

(** No two of the points share an x or share a y. *)
Definition no_ties (l : list Point) : bool :=
  distinct_by px l && distinct_by py l.


(** The two points have the same coordinates. *)
Definition samePoint (p q : Point) : Prop := px p == px q /\ py p == py q.

(** A point of [l] is told by its coordinates: two members with the same
    coordinates are the same record (there is one way to write a number). *)
Definition by_coordinates (l : list Point) : Prop :=
  forall p q, In p l -> In q l -> samePoint p q -> p = q.

End Statements.
Import Statements.

(* ================================================================== *)
(** ** Inputs of the examples *)

Module Inputs.

(** A window with the engine loaded, and one without. *)
Definition readyWindow : Window :=
  {| cv := Some {| has_imread := true; has_Mat := true |}; cvReady := None |}.

Definition emptyWindow : Window := {| cv := None; cvReady := None |}.

(** An environment in which everything works and the engine finds no
    contour: a 1000 x 800 image. *)
Definition studio : Env :=
  {| window_at := fun _ => readyWindow;
     decode := fun _ => Some {| width := 1000; height := 800 |};
     edgeContours := fun _ => CvOk [];
     threshContours := fun _ => CvOk [];
     warpThrows := fun _ _ => false;
     context2d := true |}.

Definition page : ImageUrl := Source "page.jpg".

(** A quadrilateral without ties. *)
Definition kite : list Point :=
  [mkPoint 0 1; mkPoint 10 0; mkPoint 11 12; mkPoint 1 11].

(** A parallelogram in canonical order; two of its corners share y = 3. *)
Definition skew : list Point :=
  [mkPoint 0 0; mkPoint 4 3; mkPoint 4 6; mkPoint 0 3].

(** The same four corners in another order. *)
Definition skew_permuted : list Point :=
  [mkPoint 0 0; mkPoint 0 3; mkPoint 4 3; mkPoint 4 6].

(** A square of side 2/5. *)
Definition tiny : list Point :=
  [mkPoint 0 0; mkPoint (2 # 5) 0; mkPoint (2 # 5) (2 # 5); mkPoint 0 (2 # 5)].

(** Four times the same point. *)
Definition collapsed : list Point :=
  [mkPoint 5 5; mkPoint 5 5; mkPoint 5 5; mkPoint 5 5].


(** A contour of area 100 whose approximation has four vertices, and a
    contour of area 200 whose approximation has five. *)
Definition quadContour : Contour :=
  {| contourArea := 100;
     approxPolyDP := [(10, 10); (20, 10); (20, 20); (10, 20)]%Z;
     minAreaRect := (mkPoint 10 10, mkPoint 20 10, mkPoint 20 20, mkPoint 10 20) |}.

Definition blobContour : Contour :=
  {| contourArea := 200;
     approxPolyDP := [(0, 0); (15, -2); (30, 0); (30, 30); (0, 30)]%Z;
     minAreaRect := (mkPoint 0 0, mkPoint 30 0, mkPoint 30 30, mkPoint 0 30) |}.


(** The engine never loads. *)
Definition offline : Env :=
  {| window_at := fun _ => emptyWindow;
     decode := decode studio;
     edgeContours := edgeContours studio;
     threshContours := threshContours studio;
     warpThrows := warpThrows studio;
     context2d := true |}.

(** The image does not decode. *)
Definition unreadable : Env :=
  {| window_at := window_at studio;
     decode := fun _ => None;
     edgeContours := edgeContours studio;
     threshContours := threshContours studio;
     warpThrows := warpThrows studio;
     context2d := true |}.

(** The engine throws in the second pipeline. *)
Definition crashing : Env :=
  {| window_at := window_at studio;
     decode := decode studio;
     edgeContours := fun _ => CvOk [];
     threshContours := fun _ => CvThrow;
     warpThrows := warpThrows studio;
     context2d := true |}.


(** The editor at the start of a drag of corner 2 of [kite], on a 1000 x 800
    image shown 500 wide, the pointer having gone down at (300, 300). *)
Definition dragging : State :=
  {| item_url := page; history := [page]; currentIndex := 0;
     isProcessing := false; activeTool := crop;
     points := Some kite;
     isDragging := true; dragInfo := Some 2%nat;
     brightness := 150; contrast := 100; rotation := 0;
     isPanning := false;
     imageRef := Some {| rectWidth := 500; naturalWidth := 1000; naturalHeight := 800 |};
     containerRef := Some {| scrollLeft := 0; scrollTop := 0 |};
     panStartRef := mkPoint 0 0;
     scrollStartRef := {| scrollLeft := 0; scrollTop := 0 |};
     dragStartPosRef := mkPoint 300 300;
     initialPointsRef := Some kite |}.

(** The same editor with the adjust tool active and the rotation at 90. *)
Definition adjusting : State :=
  {| item_url := page; history := [page]; currentIndex := 0;
     isProcessing := false; activeTool := adjust;
     points := Some kite;
     isDragging := false; dragInfo := None;
     brightness := 100; contrast := 100; rotation := 90;
     isPanning := false;
     imageRef := Some {| rectWidth := 500; naturalWidth := 1000; naturalHeight := 800 |};
     containerRef := Some {| scrollLeft := 0; scrollTop := 0 |};
     panStartRef := mkPoint 0 0;
     scrollStartRef := {| scrollLeft := 0; scrollTop := 0 |};
     dragStartPosRef := mkPoint 0 0;
     initialPointsRef := None |}.

(** The same editor with no tool active and nothing adjusted. *)
Definition idle : State :=
  {| item_url := page; history := [page]; currentIndex := 0;
     isProcessing := false; activeTool := none;
     points := Some kite;
     isDragging := false; dragInfo := None;
     brightness := 100; contrast := 100; rotation := 0;
     isPanning := false;
     imageRef := Some {| rectWidth := 500; naturalWidth := 1000; naturalHeight := 800 |};
     containerRef := Some {| scrollLeft := 0; scrollTop := 0 |};
     panStartRef := mkPoint 0 0;
     scrollStartRef := {| scrollLeft := 0; scrollTop := 0 |};
     dragStartPosRef := mkPoint 0 0;
     initialPointsRef := None |}.

End Inputs.
Import Inputs.

(* ================================================================== *)
(** ** components/EditorModal.tsx: the remaining handlers *)

Module EditorEvents.

(** [imageRef.current.getBoundingClientRect()]: its left and top edge (its
    width is [rectWidth]). *)
Record ImgRect : Type := { rectLeft : Q; rectTop : Q }.

(** The component with the two pieces of state that [State] leaves out. *)
Record Session : Type := {
  st : State;
  zoom : Q;
  isSpacePressed : bool
}.

Definition withState (f : State -> State) (x : Session) : Session :=
  {| st := f (st x); zoom := zoom x; isSpacePressed := isSpacePressed x |}.

Definition withZoom (f : Q -> Q) (x : Session) : Session :=
  {| st := st x; zoom := f (zoom x); isSpacePressed := isSpacePressed x |}.

(** The zoom buttons (lines 166 and 168). *)
Definition zoomOut (z : Q) : Q := Qmax (2 # 10) (z - (2 # 10)).
Definition zoomIn (z : Q) : Q := Qmin 5 (z + (2 # 10)).

(** [setIsPanning(true)] with the two refs written beside it (lines 85-87). *)
Definition startPanning (e : MouseEvent) (s : State) : State :=
  {| item_url := item_url s; history := history s; currentIndex := currentIndex s;
     isProcessing := isProcessing s; activeTool := activeTool s;
     points := points s;
     isDragging := isDragging s; dragInfo := dragInfo s;
     brightness := brightness s; contrast := contrast s; rotation := rotation s;
     isPanning := true; imageRef := imageRef s;
     containerRef := containerRef s;
     panStartRef := mkPoint (clientX e) (clientY e);
     scrollStartRef := match containerRef s with
                       | Some c => c
                       | None => scrollStartRef s
                       end;
     dragStartPosRef := dragStartPosRef s; initialPointsRef := initialPointsRef s |}.

(** The start of a corner drag (lines 101-103); the snapshot is a deep copy
    of the points. *)
Definition startDragging (index : nat) (e : MouseEvent) (pts : list Point) (s : State)
  : State :=
  {| item_url := item_url s; history := history s; currentIndex := currentIndex s;
     isProcessing := isProcessing s; activeTool := activeTool s;
     points := points s;
     isDragging := true; dragInfo := Some index;
     brightness := brightness s; contrast := contrast s; rotation := rotation s;
     isPanning := isPanning s; imageRef := imageRef s;
     containerRef := containerRef s;
     panStartRef := panStartRef s; scrollStartRef := scrollStartRef s;
     dragStartPosRef := mkPoint (clientX e) (clientY e);
     initialPointsRef := Some pts |}.

(** The screen position of a point of the image, as [handleMouseDown]
    computes it (lines 98-99). *)
Definition toScreen (rect : ImgRect) (scale : Q) (p : Point) : Point :=
  mkPoint (px p / scale + rectLeft rect) (py p / scale + rectTop rect).

(** What the loop over the four corners comes to. *)
Inductive Pick : Type :=
| Hit (index : nat)
| Miss
| Throws.

(** The loop of [handleMouseDown] (lines 97-106), from corner [i] on, with
    [n] corners to go.  Reading a corner the array does not have throws. *)
Fixpoint pick (rect : ImgRect) (scale handleRadius : Q) (e : MouseEvent)
    (pts : list Point) (i n : nat) : Pick :=
  match n with
  | O => Miss
  | S n' =>
      match nth_error pts i with
      | None => Throws
      | Some p =>
          let c := toScreen rect scale p in
          if Rlt_dec (hypot (clientX e - px c) (clientY e - py c)) (Q2R handleRadius)
          then Hit i
          else pick rect scale handleRadius e pts (S i) n'
      end
  end.

(** [handleMouseDown] (lines 81-108). *)
Definition handleMouseDown (rect : ImgRect) (e : MouseEvent) (x : Session) : Session :=
  let s := st x in
  match isProcessing s, imageRef s, points s with
  | false, Some img, Some pts =>
      if isSpacePressed x || match activeTool s with none => true | _ => false end
      then withState (startPanning e) x
      else if is_crop (activeTool s) then
        let scale := naturalWidth img / rectWidth img in
        let handleRadius := 25 / zoom x in
        match pick rect scale handleRadius e pts 0 4 with
        | Hit i => withState (startDragging i e pts) x
        | Miss => x
        | Throws => x
        end
      else x
  | _, _, _ => x
  end.

(** The [mouseup] listener (line 133). *)
Definition handleMouseUp (s : State) : State :=
  {| item_url := item_url s; history := history s; currentIndex := currentIndex s;
     isProcessing := isProcessing s; activeTool := activeTool s;
     points := points s;
     isDragging := false; dragInfo := dragInfo s;
     brightness := brightness s; contrast := contrast s; rotation := rotation s;
     isPanning := false; imageRef := imageRef s;
     containerRef := containerRef s;
     panStartRef := panStartRef s; scrollStartRef := scrollStartRef s;
     dragStartPosRef := dragStartPosRef s; initialPointsRef := initialPointsRef s |}.

(** [setRotation(r => f r)]: the two rotation buttons (lines 201-202). *)
Definition setRotation (f : Z -> Z) (s : State) : State :=
  {| item_url := item_url s; history := history s; currentIndex := currentIndex s;
     isProcessing := isProcessing s; activeTool := activeTool s;
     points := points s;
     isDragging := isDragging s; dragInfo := dragInfo s;
     brightness := brightness s; contrast := contrast s; rotation := f (rotation s);
     isPanning := isPanning s; imageRef := imageRef s;
     containerRef := containerRef s;
     panStartRef := panStartRef s; scrollStartRef := scrollStartRef s;
     dragStartPosRef := dragStartPosRef s; initialPointsRef := initialPointsRef s |}.

Definition rotateLeft : State -> State := setRotation (fun r => r - 90)%Z.
Definition rotateRight : State -> State := setRotation (fun r => r + 90)%Z.

(** A click on one of the two rotation buttons. *)
Inductive Turn : Type := TurnLeft | TurnRight.

Definition turn (t : Turn) : State -> State :=
  match t with
  | TurnLeft => rotateLeft
  | TurnRight => rotateRight
  end.

(** A click on one of the two zoom buttons. *)
Inductive ZoomClick : Type := ZoomOut | ZoomIn.

Definition zoomClick (c : ZoomClick) : Q -> Q :=
  match c with
  | ZoomOut => zoomOut
  | ZoomIn => zoomIn
  end.

(** The effect run when the modal opens on an item (lines 46-59). *)
Definition openEditor (url : ImageUrl) (x : Session) : Session :=
  let s := st x in
  {| st :=
       {| item_url := url; history := [url]; currentIndex := 0;
          isProcessing := isProcessing s; activeTool := crop;
          points := None;
          isDragging := false; dragInfo := dragInfo s;
          brightness := 100; contrast := 100; rotation := 0;
          isPanning := false; imageRef := imageRef s;
          containerRef := containerRef s;
          panStartRef := panStartRef s; scrollStartRef := scrollStartRef s;
          dragStartPosRef := dragStartPosRef s;
          initialPointsRef := initialPointsRef s |};
     zoom := 1;
     isSpacePressed := isSpacePressed x |}.

(** [handleImageLoad] (lines 75-77). *)
Definition handleImageLoad (env : Env) (s : State) : State :=
  match points s with
  | None => handlePerformAutoDetection env (currentImage s) s
  | Some _ => s
  end.

End EditorEvents.
Import EditorEvents.

(* ================================================================== *)
(** ** App.tsx: the document groups *)

(** The component [App] that calls [autoCropImage] and hosts the editor; its
    text follows the service in src/services/cvService.ts (from line 244 on),
    and the line numbers below are those of that file.  The types
    [ImageItem] and [DocumentGroup] are declared in a file that is not among
    the sources; the records hold the fields the code reads and writes. *)

Module App.

Inductive ItemType : Type := pdf | image.

Definition is_image (t : ItemType) : bool :=
  match t with image => true | pdf => false end.

(** [originalFile]: the [File] that was added, or the empty object that a
    [File] becomes in [JSON.parse(JSON.stringify(...))]. *)
Inductive FileRef : Type :=
| File (fileName : string)
| EmptyObject.

Record ImageItem : Type := {
  id : string;
  url : ImageUrl;
  originalUrl : ImageUrl;
  originalFile : option FileRef;
  name : string;
  type : ItemType;
  selected : bool;
  processing : option bool;
  backupUrl : option ImageUrl
}.

Record DocumentGroup : Type := {
  doc_id : string;
  title : string;
  items : list ImageItem;
  doc_selected : bool
}.

Inductive Language : Type := ptBR | enUS.

Record Toast : Type := { message : string; success : bool }.

Record AppState : Type := {
  documents : list DocumentGroup;
  batchHistory : option (list DocumentGroup);
  editingItem : option (string * ImageItem);
  isProcessing : bool;
  language : Language;
  toast : option Toast
}.

Definition setDocuments (docs : list DocumentGroup) (s : AppState) : AppState :=
  {| documents := docs; batchHistory := batchHistory s;
     editingItem := editingItem s; isProcessing := isProcessing s;
     language := language s; toast := toast s |}.

Definition setItems (its : list ImageItem) (d : DocumentGroup) : DocumentGroup :=
  {| doc_id := doc_id d; title := title d; items := its;
     doc_selected := doc_selected d |}.

(** [{ ...i, url: u, processing: p, backupUrl: b }]. *)
Definition setUrl (u : ImageUrl) (p : option bool) (b : option ImageUrl)
    (i : ImageItem) : ImageItem :=
  {| id := id i; url := u; originalUrl := originalUrl i;
     originalFile := originalFile i; name := name i; type := type i;
     selected := selected i; processing := p; backupUrl := b |}.

(** [docs.map(doc => doc.id === docId ? { ...doc, items: doc.items.map(f) } : doc)]. *)
Definition onItemsOf (docId : string) (f : ImageItem -> ImageItem)
    (docs : list DocumentGroup) : list DocumentGroup :=
  map (fun doc => if String.eqb (doc_id doc) docId
                  then setItems (map f (items doc)) doc
                  else doc) docs.

(** [i.id === itemId ? f(i) : i]. *)
Definition onItem (itemId : string) (f : ImageItem -> ImageItem) (i : ImageItem)
  : ImageItem :=
  if String.eqb (id i) itemId then f i else i.

(** [handleDeleteDocument] (lines 317-320). *)
Definition handleDeleteDocument (docId : string) (s : AppState) : AppState :=
  if (List.length (documents s) <=? 1)%nat then s
  else setDocuments
         (filter (fun d => negb (String.eqb (doc_id d) docId)) (documents s)) s.

(** [handleRemoveItem] (lines 360-364). *)
Definition handleRemoveItem (docId itemId : string) (s : AppState) : AppState :=
  setDocuments
    (map (fun doc => if String.eqb (doc_id doc) docId
                     then setItems
                            (filter (fun i => negb (String.eqb (id i) itemId)) (items doc))
                            doc
                     else doc) (documents s)) s.

(** [handleUpdateItem] (lines 370-381). *)
Definition handleUpdateItem (updatedItem : ImageItem) (s : AppState) : AppState :=
  match editingItem s with
  | None => s
  | Some (docId, _) =>
      setDocuments
        (onItemsOf docId (onItem (id updatedItem) (fun _ => updatedItem)) (documents s)) s
  end.

(** A string is truthy unless it is empty; a URL got from a canvas is not
    empty. *)
Definition truthy (u : option ImageUrl) : bool :=
  match u with
  | None => false
  | Some (Source EmptyString) => false
  | Some _ => true
  end.

(** [handleResetToOriginal] (lines 383-395). *)
Definition handleResetToOriginal (docId itemId : string) (s : AppState) : AppState :=
  {| documents :=
       onItemsOf docId
         (onItem itemId (fun item => setUrl (originalUrl item) (processing item) None item))
         (documents s);
     batchHistory := batchHistory s; editingItem := editingItem s;
     isProcessing := isProcessing s; language := language s;
     toast := Some {| message := match language s with
                                 | ptBR => "Imagem restaurada."
                                 | enUS => "Image restored."
                                 end;
                      success := true |} |}.

(** [handleRestoreItem] (lines 397-408). *)
Definition handleRestoreItem (docId itemId : string) (s : AppState) : AppState :=
  setDocuments
    (onItemsOf docId
       (fun item =>
          if negb (String.eqb (id item) itemId) || negb (truthy (backupUrl item))
          then item
          else match backupUrl item with
               | Some b => setUrl b (processing item) None item
               | None => item
               end)
       (documents s)) s.

(** [l.findIndex(p)]. *)
Fixpoint findIndex (A : Type) (p : A -> bool) (l : list A) : option nat :=
  match l with
  | [] => None
  | a :: t => if p a then Some 0%nat
              else match findIndex p t with
                   | Some n => Some (S n)
                   | None => None
                   end
  end.

(** [l.find(p)]. *)
Fixpoint find (A : Type) (p : A -> bool) (l : list A) : option A :=
  match l with
  | [] => None
  | a :: t => if p a then Some a else find p t
  end.

(** [l.splice(i, 1)] on a copy: the list without its element at [i]. *)
Fixpoint removeAt (A : Type) (i : nat) (l : list A) : list A :=
  match l, i with
  | [], _ => []
  | _ :: t, O => t
  | h :: t, S i' => h :: removeAt i' t
  end.

(** [l.splice(i, 0, x)] for [0 <= i]. *)
Definition insertAt (A : Type) (i : nat) (x : A) (l : list A) : list A :=
  firstn i l ++ x :: skipn i l.

(** The place where [targetItems.splice(targetIndex, 0, movedItem)] or
    [targetItems.push(movedItem)] puts the item (lines 441-442): at the end
    for [null] and for an index not below the length, counted from the end
    for a negative index. *)
Definition targetPlace (targetIndex : option Z) (len : nat) : nat :=
  match targetIndex with
  | None => len
  | Some t =>
      if (Z.of_nat len <=? t)%Z then len
      else if (t <? 0)%Z then Z.to_nat (Z.max (Z.of_nat len + t) 0)
      else Z.to_nat t
  end.

(** [handleMoveItem] (lines 429-446), the function given to
    [setDocuments]. *)
Definition moveItem (sourceDocId itemId targetDocId : string) (targetIndex : option Z)
    (prevDocs : list DocumentGroup) : list DocumentGroup :=
  match findIndex (fun d => String.eqb (doc_id d) sourceDocId) prevDocs,
        findIndex (fun d => String.eqb (doc_id d) targetDocId) prevDocs with
  | Some sourceDocIndex, Some targetDocIndex =>
      match nth_error prevDocs sourceDocIndex with
      | None => prevDocs
      | Some sourceDoc =>
          match findIndex (fun i => String.eqb (id i) itemId) (items sourceDoc) with
          | None => prevDocs
          | Some itemIndex =>
              match nth_error (items sourceDoc) itemIndex with
              | None => prevDocs
              | Some movedItem =>
                  let sourceItems := removeAt itemIndex (items sourceDoc) in
                  let newDocs :=
                    set_nth sourceDocIndex (setItems sourceItems sourceDoc) prevDocs in
                  match nth_error newDocs targetDocIndex with
                  | None => prevDocs
                  | Some targetDoc =>
                      let targetItems0 :=
                        if String.eqb sourceDocId targetDocId
                        then sourceItems else items targetDoc in
                      let targetItems :=
                        insertAt (targetPlace targetIndex (List.length targetItems0))
                                 movedItem targetItems0 in
                      set_nth targetDocIndex (setItems targetItems targetDoc) newDocs
                  end
              end
          end
      end
  | _, _ => prevDocs
  end.

Definition handleMoveItem (sourceDocId itemId targetDocId : string)
    (targetIndex : option Z) (s : AppState) : AppState :=
  setDocuments (moveItem sourceDocId itemId targetDocId targetIndex (documents s)) s.

(** [JSON.parse(JSON.stringify(documents))]: strings and booleans come back
    as they were, a key holding [undefined] is left out, a [File] comes back
    as an empty object. *)
Definition jsonItem (i : ImageItem) : ImageItem :=
  {| id := id i; url := url i; originalUrl := originalUrl i;
     originalFile := match originalFile i with
                     | Some _ => Some EmptyObject
                     | None => None
                     end;
     name := name i; type := type i; selected := selected i;
     processing := processing i; backupUrl := backupUrl i |}.

Definition jsonCopy (docs : list DocumentGroup) : list DocumentGroup :=
  map (fun d => setItems (map jsonItem (items d)) d) docs.

(** A task of the batch (line 453). *)
Record Task : Type := { t_docId : string; t_itemId : string; t_url : ImageUrl }.

Definition tasksOf (docsToProcess : list DocumentGroup) : list Task :=
  flat_map (fun doc =>
              map (fun item => {| t_docId := doc_id doc; t_itemId := id item;
                                  t_url := url item |})
                  (filter (fun item => is_image (type item)) (items doc)))
           docsToProcess.

(** The first [setDocuments] of the batch (line 459). *)
Definition markProcessing (docs : list DocumentGroup) : list DocumentGroup :=
  map (fun doc =>
         if doc_selected doc
         then setItems
                (map (fun i => if is_image (type i)
                               then setUrl (url i) (Some true) (Some (url i)) i
                               else i) (items doc)) doc
         else doc) docs.

(** Equality of URLs, for [newUrl !== task.url]. *)
Definition url_eq_dec : forall a b : ImageUrl, {a = b} + {a <> b}.
Proof.
  assert (Hq : forall a b : Q, {a = b} + {a <> b})
    by (decide equality; [apply Pos.eq_dec|apply Z.eq_dec]).
  assert (Hp : forall a b : Point, {a = b} + {a <> b}) by (decide equality).
  assert (Hr2 : forall a b : R * R, {a = b} + {a <> b})
    by (decide equality; apply Req_dec_T).
  assert (Hz2 : forall a b : Z * Z, {a = b} + {a <> b})
    by (decide equality; apply Z.eq_dec).
  assert (Ha : forall a b : Affine, {a = b} + {a <> b})
    by (decide equality; apply Req_dec_T).
  assert (Hl : forall a b : Layer, {a = b} + {a <> b})
    by (decide equality; apply Req_dec_T).
  assert (Hw : forall a b : WarpRequest, {a = b} + {a <> b})
    by (decide equality; apply list_eq_dec; assumption).
  assert (Hc : forall a b : Canvas, {a = b} + {a <> b}).
  { decide equality; try apply Req_dec_T.
    - apply list_eq_dec; assumption.
    - decide equality. apply string_dec. }
  decide equality. apply string_dec.
Defined.

(** The loop over the tasks (lines 462-470): the documents, the count of
    successes, and whether the loop got to its end. *)
Fixpoint runTasks (env : Env) (tasks : list Task) (docs : list DocumentGroup)
    (successCount : nat) : list DocumentGroup * nat * bool :=
  match tasks with
  | [] => (docs, successCount, true)
  | task :: rest =>
      match autoCropImage env (t_url task) with
      | Resolved newUrl =>
          runTasks env rest
            (onItemsOf (t_docId task)
               (onItem (t_itemId task)
                  (fun i => setUrl newUrl (Some false) (backupUrl i) i)) docs)
            (if url_eq_dec newUrl (t_url task) then successCount else S successCount)
      | Rejected =>
          runTasks env rest
            (onItemsOf (t_docId task)
               (onItem (t_itemId task)
                  (fun i => setUrl (url i) (Some false) (backupUrl i) i)) docs)
            successCount
      | Pending => (docs, successCount, false)
      end
  end.

(** [handleBatchAutoCrop] (lines 448-475).  Should a crop never settle, the
    handler stops at its [await], with [isProcessing] still set. *)
Definition handleBatchAutoCrop (env : Env) (s : AppState) : AppState :=
  let docsToProcess := filter doc_selected (documents s) in
  match docsToProcess with
  | [] => s
  | _ :: _ =>
      let tasks := tasksOf docsToProcess in
      let '(docs, successCount, finished) :=
        runTasks env tasks (markProcessing (documents s)) 0 in
      {| documents := docs;
         batchHistory := Some (jsonCopy (documents s));
         editingItem := editingItem s;
         isProcessing := negb finished;
         language := language s;
         toast := if finished
                  then Some (if (0 <? successCount)%nat
                             then {| message := "Recorte concluído!"; success := true |}
                             else {| message := "Nenhum documento identificado.";
                                     success := false |})
                  else toast s |}
  end.

(** [handleUndoBatch] (lines 477-479). *)
Definition handleUndoBatch (s : AppState) : AppState :=
  match batchHistory s with
  | Some saved =>
      {| documents := saved; batchHistory := None;
         editingItem := editingItem s; isProcessing := isProcessing s;
         language := language s; toast := toast s |}
  | None => s
  end.

(** The canvas at the end of [handleRotateItem] (lines 418-424). *)
Definition rotateCanvas (img : Image) : Canvas :=
  let c := createCanvas in
  let c := setSize (Q2R (height img)) (Q2R (width img)) c in
  let c := translate (c_width c / 2) (c_height c / 2) c in
  let c := rotate (90 * PI / 180) c in
  drawImage img (- Q2R (width img) / 2) (- Q2R (height img) / 2) c.

(** [handleRotateItem] (lines 410-427).  The image has no [onerror]: when it
    does not load, the handler waits for ever and nothing changes. *)
Definition handleRotateItem (env : Env) (docId itemId : string) (s : AppState)
  : AppState :=
  match find (fun d => String.eqb (doc_id d) docId) (documents s) with
  | None => s
  | Some doc =>
      match find (fun i => String.eqb (id i) itemId) (items doc) with
      | None => s
      | Some item =>
          if negb (is_image (type item)) then s
          else
            match decode env (url item) with
            | None => s
            | Some img =>
                if context2d env
                then
                  let newUrl := CanvasPng (url item) (rotateCanvas img) in
                  setDocuments
                    (onItemsOf docId
                       (onItem itemId
                          (fun _ => setUrl newUrl (processing item) (backupUrl item) item))
                       (documents s)) s
                else s
            end
      end
  end.

(** What the editor hands to [onUpdate] (EditorModal.tsx, line 147):
    [{ ...item, url: finalUrl }]. *)
Definition editedItem (item : ImageItem) (finalUrl : ImageUrl) : ImageItem :=
  setUrl finalUrl (processing item) (backupUrl item) item.

(** A file of the [FileList] given to [handleAddItem]: the id drawn for it,
    the object URL made for it, its name and whether its type is
    [application/pdf]. *)
Record Upload : Type := {
  u_id : string;
  u_url : ImageUrl;
  u_name : string;
  u_pdf : bool
}.

(** The item made for a file (lines 345-353). *)
Definition newItem (f : Upload) : ImageItem :=
  {| id := u_id f; url := u_url f; originalUrl := u_url f;
     originalFile := Some (File (u_name f)); name := u_name f;
     type := if u_pdf f then pdf else image;
     selected := false; processing := None; backupUrl := None |}.

(** [handleAddItem] (lines 339-358). *)
Definition handleAddItem (docId : string) (files : list Upload) (s : AppState)
  : AppState :=
  setDocuments
    (map (fun doc => if String.eqb (doc_id doc) docId
                     then setItems (items doc ++ map newItem files) doc
                     else doc) (documents s)) s.

(** *** The other handlers of the documents, and runs of handlers *)

Definition setTitle (t : string) (d : DocumentGroup) : DocumentGroup :=
  {| doc_id := doc_id d; title := t; items := items d; doc_selected := doc_selected d |}.

Definition setSelected (b : bool) (d : DocumentGroup) : DocumentGroup :=
  {| doc_id := doc_id d; title := title d; items := items d; doc_selected := b |}.

Definition emptyDocument (docId t : string) : DocumentGroup :=
  {| doc_id := docId; title := t; items := []; doc_selected := false |}.

(** The state [App] starts in (lines 259-267). *)
Definition initial : AppState :=
  {| documents := [emptyDocument "1" "PDF 1"]; batchHistory := None;
     editingItem := None; isProcessing := false; language := ptBR; toast := None |}.

(** [handleAddDocument] (lines 312-315); [now] is [Date.now().toString()]. *)
Definition handleAddDocument (now : string) (s : AppState) : AppState :=
  let newId := NilZero.string_of_uint (Nat.to_uint (List.length (documents s) + 1)) in
  setDocuments (documents s ++ [emptyDocument now ("PDF " ++ newId)]) s.

(** [handleRenameDocument], [handleToggleColumnSelection] and
    [handleToggleSelectAll] (lines 322-332). *)
Definition handleRenameDocument (docId newName : string) (s : AppState) : AppState :=
  setDocuments
    (map (fun d => if String.eqb docId (doc_id d) then setTitle newName d else d)
         (documents s)) s.

Definition handleToggleColumnSelection (docId : string) (b : bool) (s : AppState)
  : AppState :=
  setDocuments
    (map (fun d => if String.eqb docId (doc_id d) then setSelected b d else d)
         (documents s)) s.

Definition handleToggleSelectAll (b : bool) (s : AppState) : AppState :=
  setDocuments (map (setSelected b) (documents s)) s.

(** [handleClearAll] (lines 334-337). *)
Definition handleClearAll (now : string) (s : AppState) : AppState :=
  {| documents := [emptyDocument now "PDF 1"]; batchHistory := None;
     editingItem := editingItem s; isProcessing := isProcessing s;
     language := language s; toast := toast s |}.

Definition setEditingItem (e : option (string * ImageItem)) (s : AppState) : AppState :=
  {| documents := documents s; batchHistory := batchHistory s;
     editingItem := e; isProcessing := isProcessing s;
     language := language s; toast := toast s |}.

(** [handleEditItem] (lines 366-368). *)
Definition handleEditItem (docId : string) (item : ImageItem) (s : AppState) : AppState :=
  setEditingItem (Some (docId, item)) s.

(** What a successful save of the image editor does to [App]: the editor is
    mounted on [editingItem.item] when that is an image (line 577) and calls
    [onUpdate({ ...item, url: finalUrl })], then [onClose]
    (EditorModal.tsx, lines 147-148). *)
Definition saveEditor (finalUrl : ImageUrl) (s : AppState) : AppState :=
  match editingItem s with
  | Some (_, item) =>
      if is_image (type item)
      then setEditingItem None (handleUpdateItem (editedItem item finalUrl) s)
      else s
  | None => s
  end.

Definition setToast (t : option Toast) (s : AppState) : AppState :=
  {| documents := documents s; batchHistory := batchHistory s;
     editingItem := editingItem s; isProcessing := isProcessing s;
     language := language s; toast := t |}.

Definition setLanguage (l : Language) (s : AppState) : AppState :=
  {| documents := documents s; batchHistory := batchHistory s;
     editingItem := editingItem s; isProcessing := isProcessing s;
     language := l; toast := toast s |}.

(** The two texts of [TRANSLATIONS[language]] that [handleSave] shows; the
    file of the constants is not among the sources. *)
Record Translations : Type := { docSaved : string; docSaveError : string }.

(** [handleSave] of [App] (lines 481-494), [generated] being what the promise
    of [generatePDF] comes to.  On success the toast is followed, 500 ms
    later, by [handleClearAll], which reads no state; [now] is the
    [Date.now().toString()] of that moment.  [isSaving] is not part of the
    state kept here. *)
Definition handleSave (generated : Promise unit) (now : string) (t : Translations)
    (s : AppState) : AppState :=
  match filter doc_selected (documents s) with
  | [] => s
  | _ :: _ =>
      match generated with
      | Resolved _ =>
          handleClearAll now
            (setToast (Some {| message := docSaved t; success := true |}) s)
      | Rejected => setToast (Some {| message := docSaveError t; success := false |}) s
      | Pending => s
      end
  end.

(** What the user can set off.  [handleUpdateSetting] and the toggles of the
    theme and of the two information panels write state that is not kept
    here. *)
Inductive Action : Type :=
| AddDocument (now : string)
| DeleteDocument (docId : string)
| RenameDocument (docId newName : string)
| ToggleColumnSelection (docId : string) (b : bool)
| ToggleSelectAll (b : bool)
| ClearAll (now : string)
| AddItem (docId : string) (files : list Upload)
| RemoveItem (docId itemId : string)
| EditItem (docId : string) (item : ImageItem)
| CloseEditor
| SaveEditor (finalUrl : ImageUrl)
| ResetToOriginal (docId itemId : string)
| RestoreItem (docId itemId : string)
| RotateItem (docId itemId : string)
| MoveItem (sourceDocId itemId targetDocId : string) (targetIndex : option Z)
| BatchAutoCrop
| UndoBatch
| SavePdf (generated : Promise unit) (now : string) (t : Translations)
| UpdateApp
| SetLanguage (l : Language)
| CloseToast.

Definition act (env : Env) (a : Action) (s : AppState) : AppState :=
  match a with
  | AddDocument now => handleAddDocument now s
  | DeleteDocument docId => handleDeleteDocument docId s
  | RenameDocument docId newName => handleRenameDocument docId newName s
  | ToggleColumnSelection docId b => handleToggleColumnSelection docId b s
  | ToggleSelectAll b => handleToggleSelectAll b s
  | ClearAll now => handleClearAll now s
  | AddItem docId files => handleAddItem docId files s
  | RemoveItem docId itemId => handleRemoveItem docId itemId s
  | EditItem docId item => handleEditItem docId item s
  | CloseEditor => setEditingItem None s
  | SaveEditor finalUrl => saveEditor finalUrl s
  | ResetToOriginal docId itemId => handleResetToOriginal docId itemId s
  | RestoreItem docId itemId => handleRestoreItem docId itemId s
  | RotateItem docId itemId => handleRotateItem env docId itemId s
  | MoveItem sourceDocId itemId targetDocId targetIndex =>
      handleMoveItem sourceDocId itemId targetDocId targetIndex s
  | BatchAutoCrop => handleBatchAutoCrop env s
  | UndoBatch => handleUndoBatch s
  | SavePdf generated now t => handleSave generated now t s
  | UpdateApp => initial
  | SetLanguage l => setLanguage l s
  | CloseToast => setToast None s
  end.

Definition run (env : Env) (actions : list Action) (s : AppState) : AppState :=
  fold_left (fun s a => act env a s) actions s.

(** The column of a document hands one of its items to [onEditItem]
    (line 533): an [EditItem] is in order when its item is in the document
    with its id. *)
Definition inOrder (a : Action) (s : AppState) : Prop :=
  match a with
  | EditItem docId item =>
      exists d, In d (documents s) /\ doc_id d = docId /\ In item (items d)
  | _ => True
  end.

Fixpoint allInOrder (env : Env) (actions : list Action) (s : AppState) : Prop :=
  match actions with
  | [] => True
  | a :: rest => inOrder a s /\ allInOrder env rest (act env a s)
  end.

(** Everything that calls a handler of [App]: the actions above, and
    [handleUpdateItem] as the PDF editor, which is not among the sources,
    may call it (line 578), with whatever item. *)
Inductive Event : Type :=
| Does (a : Action)
| UpdateItem (updatedItem : ImageItem).

Definition occur (env : Env) (e : Event) (s : AppState) : AppState :=
  match e with
  | Does a => act env a s
  | UpdateItem updatedItem => handleUpdateItem updatedItem s
  end.

Definition happen (env : Env) (events : list Event) (s : AppState) : AppState :=
  fold_left (fun s e => occur env e s) events s.

End App.

(* ================================================================== *)
(** ** services/pdfService.ts (src/unnamed/part_001) *)

Module PdfService.

(** Where the bytes of a PDF item are read from (part_001, lines 70-77 and
    299-304). *)
Inductive PdfBytes : Type :=
| FromFile (fileName : string)
| Fetched (url : ImageUrl).

(** [item.originalFile ? await item.originalFile.arrayBuffer()
                       : await fetch(item.url)...].  An empty object is
    truthy and has no [arrayBuffer]: the call throws ([None]), and the
    [catch] around the branch leaves the item out of the PDF. *)
Definition pdfBytes (item : App.ImageItem) : option PdfBytes :=
  match App.originalFile item with
  | Some (App.File n) => Some (FromFile n)
  | Some App.EmptyObject => None
  | None => Some (Fetched (App.url item))
  end.

(** The options given to [page.drawImage]. *)
Record Placement : Type := { p_x : Q; p_y : Q; p_width : Q; p_height : Q }.

(** The A4 page of the first version of [generatePDF] (line 118), in
    points, and its margin. *)
Definition pageWidth : Q := 59528 # 100.
Definition pageHeight : Q := 84189 # 100.
Definition margin : Q := 20.

(** Where an image of [width] x [height] is drawn on the page (lines
    119-142). *)
Definition placeOnPage (width height : Q) : Placement :=
  let availableWidth := pageWidth - margin * 2 in
  let availableHeight := pageHeight - margin * 2 in
  let scaleRatio := Qmin (availableWidth / width) (availableHeight / height) in
  let finalWidth := width * scaleRatio in
  let finalHeight := height * scaleRatio in
  {| p_x := (pageWidth - finalWidth) / 2;
     p_y := (pageHeight - finalHeight) / 2;
     p_width := finalWidth;
     p_height := finalHeight |}.

End PdfService.
Import PdfService.

(* ================================================================== *)
(** ** Vocabulary of the further statements *)

Module Terms.

(** Both coordinates of the point are integers. *)
Definition integral (p : Point) : Prop :=
  exists a b : Z, p = mkPoint (inject_Z a) (inject_Z b).

(** The scale and the area that [detectDocumentCorners] passes to
    [findContourPoints] (cvService.ts, lines 61-62 and 78). *)
Definition detectScale (img : Image) : Q :=
  Qmin (800 / height img) (800 / width img).

Definition resizedRows (img : Image) : Q := round (height img * detectScale img).
Definition resizedCols (img : Image) : Q := round (width img * detectScale img).

(** The engine is loaded at the start of the call. *)
Definition engineReady (env : Env) : Prop :=
  cvLoaded (window_at env 0%Z) = true.

(** Within the handle radius of the pointer, on the screen
    (EditorModal.tsx, lines 98-100). *)
Definition near (rect : ImgRect) (scale radius : Q) (e : MouseEvent) (p : Point) : Prop :=
  (hypot (clientX e - px (toScreen rect scale p))
         (clientY e - py (toScreen rect scale p)) < Q2R radius)%R.

(** [naturalWidth / rectWidth] of the image behind [imageRef]. *)
Definition shownScale (img : ImgElement) : Q := naturalWidth img / rectWidth img.

(** The clicks on the zoom buttons and on the rotation buttons, in turn. *)
Definition zoomClicks (clicks : list ZoomClick) (z : Q) : Q :=
  fold_left (fun z c => zoomClick c z) clicks z.

Definition turns (ts : list Turn) (s : State) : State :=
  fold_left (fun s t => turn t s) ts s.

(** Pointer moves, in turn. *)
Definition moves (es : list MouseEvent) (s : State) : State :=
  fold_left (fun s e => handleWindowMouseMove e s) es s.


(** *** The batch crop, item by item *)

(** The URL an image has after the batch: the crop, or its own URL when the
    crop was rejected. *)
Definition cropOutcome (env : Env) (u : ImageUrl) : ImageUrl :=
  match autoCropImage env u with
  | Resolved newUrl => newUrl
  | _ => u
  end.

(** The crop gave the image another URL ([newUrl !== task.url]). *)
Definition cropped (env : Env) (u : ImageUrl) : bool :=
  match autoCropImage env u with
  | Resolved newUrl => if App.url_eq_dec newUrl u then false else true
  | _ => false
  end.

Definition batchItem (env : Env) (i : App.ImageItem) : App.ImageItem :=
  if App.is_image (App.type i)
  then App.setUrl (cropOutcome env (App.url i)) (Some false) (Some (App.url i)) i
  else i.

Definition batchDocs (env : Env) (docs : list App.DocumentGroup)
  : list App.DocumentGroup :=
  map (fun doc => if App.doc_selected doc
                  then App.setItems (map (batchItem env) (App.items doc)) doc
                  else doc) docs.

(** The documents have distinct ids, and so have the items of each. *)
Definition distinctIds (docs : list App.DocumentGroup) : Prop :=
  NoDup (map App.doc_id docs) /\
  forall d, In d docs -> NoDup (map App.id (App.items d)).

(** What one task of the batch does to an item, to a document and to the
    documents (cvService.ts, lines 466 and 468). *)
Definition taskUpdate (env : Env) (t : App.Task) (i : App.ImageItem) : App.ImageItem :=
  match autoCropImage env (App.t_url t) with
  | Resolved newUrl => App.setUrl newUrl (Some false) (App.backupUrl i) i
  | _ => App.setUrl (App.url i) (Some false) (App.backupUrl i) i
  end.

Definition taskOnItem (env : Env) (docId : string) (i : App.ImageItem) (t : App.Task)
  : App.ImageItem :=
  if String.eqb docId (App.t_docId t)
  then App.onItem (App.t_itemId t) (taskUpdate env t) i
  else i.

Definition taskOnDoc (env : Env) (d : App.DocumentGroup) (t : App.Task)
  : App.DocumentGroup :=
  if String.eqb (App.doc_id d) (App.t_docId t)
  then App.setItems (map (App.onItem (App.t_itemId t) (taskUpdate env t)) (App.items d)) d
  else d.

Definition taskOnDocs (env : Env) (docs : list App.DocumentGroup) (t : App.Task)
  : list App.DocumentGroup :=
  App.onItemsOf (App.t_docId t) (App.onItem (App.t_itemId t) (taskUpdate env t)) docs.

(** The task made for an item of a document (line 456). *)
Definition taskOf (d : App.DocumentGroup) (i : App.ImageItem) : App.Task :=
  {| App.t_docId := App.doc_id d; App.t_itemId := App.id i; App.t_url := App.url i |}.


(** *** Where the items come from *)

(** The files given to [handleAddItem] in the course of the actions. *)
Definition uploadsOf (actions : list App.Action) : list App.Upload :=
  flat_map (fun a => match a with
                     | App.AddItem _ files => files
                     | _ => []
                     end) actions.

(** The item is that of the file [f], whatever has been done to it since. *)
Definition itemOf (f : App.Upload) (j : App.ImageItem) : Prop :=
  App.id j = App.u_id f /\ App.originalUrl j = App.u_url f /\
  App.name j = App.u_name f /\ App.type j = App.type (App.newItem f).

Definition uploaded (U : list App.Upload) (j : App.ImageItem) : Prop :=
  exists f, In f U /\ itemOf f j.

(** Every item the state holds: in the documents, in the history of the
    batch, in the editor. *)
Definition pool (s : App.AppState) : list App.ImageItem :=
  flat_map App.items (App.documents s) ++
  match App.batchHistory s with
  | Some h => flat_map App.items h
  | None => []
  end ++
  match App.editingItem s with
  | Some (_, item) => [item]
  | None => []
  end.

(** An action that neither starts nor undoes a batch, nor clears all (as a
    save that has generated its PDF does in the end), nor reloads the
    page. *)
Definition keepsHistory (a : App.Action) : bool :=
  match a with
  | App.BatchAutoCrop | App.UndoBatch | App.ClearAll _ => false
  | App.SavePdf (Resolved _) _ _ => false
  | App.UpdateApp => false
  | _ => true
  end.

Definition quiet (e : App.Event) : bool :=
  match e with
  | App.Does a => keepsHistory a
  | App.UpdateItem _ => true
  end.


(** Two items of the same upload. *)
Definition sameOrigin (j' j : App.ImageItem) : Prop :=
  App.id j' = App.id j /\ App.originalUrl j' = App.originalUrl j /\
  App.name j' = App.name j /\ App.type j' = App.type j.

End Terms.
Import Terms.

(* ================================================================== *)
(** ** Inputs of the further examples *)

Module MoreInputs.

(** The contour of a rectangle from (80, 64) to (720, 576) on the resized
    image. *)
Definition rectangleContour : Contour :=
  {| contourArea := 327680;
     approxPolyDP := [(80, 64); (720, 64); (720, 576); (80, 576)]%Z;
     minAreaRect := (mkPoint 80 64, mkPoint 720 64, mkPoint 720 576, mkPoint 80 576) |}.

(** The edge pipeline finds [rectangleContour]; the threshold pipeline would
    throw. *)
Definition edgy : Env :=
  {| window_at := fun _ => readyWindow;
     decode := fun _ => Some {| width := 1000; height := 800 |};
     edgeContours := fun _ => CvOk [rectangleContour];
     threshContours := fun _ => CvThrow;
     warpThrows := fun _ _ => false;
     context2d := true |}.


(** A second contour of area 100 with a four-vertex approximation. *)
Definition quadContour2 : Contour :=
  {| contourArea := 100;
     approxPolyDP := [(40, 40); (50, 40); (50, 50); (40, 50)]%Z;
     minAreaRect := (mkPoint 40 40, mkPoint 50 40, mkPoint 50 50, mkPoint 40 50) |}.

(** A quadrilateral well inside a 1000 x 800 image. *)
Definition frame : list Point :=
  [mkPoint 100 100; mkPoint 900 100; mkPoint 900 700; mkPoint 100 700].

(** The editor with the crop tool on [frame] and no button down; the image
    is shown 500 wide, its top-left corner at (100, 50) of the screen. *)
Definition cropping : Session :=
  {| st :=
       {| item_url := page; history := [page]; currentIndex := 0;
          Editor.isProcessing := false; activeTool := crop;
          points := Some frame;
          isDragging := false; dragInfo := None;
          brightness := 100; contrast := 100; rotation := 0;
          isPanning := false;
          imageRef := Some {| rectWidth := 500; naturalWidth := 1000;
                              naturalHeight := 800 |};
          containerRef := Some {| scrollLeft := 40; scrollTop := 30 |};
          panStartRef := mkPoint 0 0;
          scrollStartRef := {| scrollLeft := 0; scrollTop := 0 |};
          dragStartPosRef := mkPoint 0 0;
          initialPointsRef := None |};
     zoom := 1;
     isSpacePressed := false |}.

Definition shown : ImgRect := {| rectLeft := 100; rectTop := 50 |}.

(** The same editor with no tool active. *)
Definition browsing : Session :=
  {| st :=
       {| item_url := page; history := [page]; currentIndex := 0;
          Editor.isProcessing := false; activeTool := none;
          points := Some frame;
          isDragging := false; dragInfo := None;
          brightness := 100; contrast := 100; rotation := 0;
          isPanning := false;
          imageRef := Some {| rectWidth := 500; naturalWidth := 1000;
                              naturalHeight := 800 |};
          containerRef := Some {| scrollLeft := 40; scrollTop := 30 |};
          panStartRef := mkPoint 0 0;
          scrollStartRef := {| scrollLeft := 0; scrollTop := 0 |};
          dragStartPosRef := mkPoint 0 0;
          initialPointsRef := None |};
     zoom := 1;
     isSpacePressed := false |}.

(** Two documents with three items: a scan and a report in the first, which
    is selected, and a photo in the second. *)
Definition scan : App.ImageItem :=
  {| App.id := "a1"; App.url := Source "scan.jpg"; App.originalUrl := Source "scan.jpg";
     App.originalFile := Some (App.File "scan.jpg"); App.name := "scan.jpg";
     App.type := App.image; App.selected := false;
     App.processing := None; App.backupUrl := None |}.

Definition report : App.ImageItem :=
  {| App.id := "a2"; App.url := Source "report.pdf";
     App.originalUrl := Source "report.pdf";
     App.originalFile := Some (App.File "report.pdf"); App.name := "report.pdf";
     App.type := App.pdf; App.selected := false;
     App.processing := None; App.backupUrl := None |}.

Definition photo : App.ImageItem :=
  {| App.id := "b1"; App.url := Source "photo.png"; App.originalUrl := Source "photo.png";
     App.originalFile := Some (App.File "photo.png"); App.name := "photo.png";
     App.type := App.image; App.selected := false;
     App.processing := None; App.backupUrl := None |}.

Definition folder1 : App.DocumentGroup :=
  {| App.doc_id := "1"; App.title := "PDF 1"; App.items := [scan; report];
     App.doc_selected := true |}.

Definition folder2 : App.DocumentGroup :=
  {| App.doc_id := "2"; App.title := "PDF 2"; App.items := [photo];
     App.doc_selected := false |}.

Definition desk : App.AppState :=
  {| App.documents := [folder1; folder2];
     App.batchHistory := None; App.editingItem := None;
     App.isProcessing := false; App.language := App.ptBR; App.toast := None |}.

(** A file to upload. *)
Definition letter : App.Upload :=
  {| App.u_id := "c1"; App.u_url := Source "blob:letter"; App.u_name := "letter.png";
     App.u_pdf := false |}.

Definition letterItem : App.ImageItem := App.newItem letter.

(** A session: upload, select all, crop in batch, turn the item, undo. *)
Definition session : list App.Action :=
  [App.AddItem "1" [letter]; App.ToggleSelectAll true; App.BatchAutoCrop;
   App.RotateItem "1" "c1"; App.UndoBatch].

(** What may follow a batch before its undo. *)
Definition afterwards : list App.Event :=
  [App.Does (App.AddItem "2" [letter]); App.Does (App.MoveItem "1" "a1" "2" None);
   App.UpdateItem letterItem; App.Does (App.DeleteDocument "1");
   App.Does (App.SavePdf Rejected "0" {| App.docSaved := "ok"; App.docSaveError := "no" |})].

End MoreInputs.
Import MoreInputs.

(* ================================================================== *)
(** * Properties *)

(** ** The stable sort *)

Section SortFacts.
Variable A : Type.
Variable cmp : A -> A -> Q.

Lemma insert_perm (x : A) (l : list A) : Permutation (insert cmp x l) (x :: l).
Proof.
  induction l as [|h t IH]; simpl.
  - apply Permutation_refl.
  - destruct (Qlt_le_dec (cmp h x) 0).
    + apply Permutation_trans with (h :: x :: t).
      * now apply perm_skip.
      * apply perm_swap.
    + apply Permutation_refl.
Qed.

Lemma sort_perm (l : list A) : Permutation (sort cmp l) l.
Proof.
  induction l as [|x t IH]; simpl.
  - constructor.
  - apply Permutation_trans with (x :: sort cmp t).
    + apply insert_perm.
    + now apply perm_skip.
Qed.

Lemma sort_length (l : list A) : List.length (sort cmp l) = List.length l.
Proof. apply Permutation_length, sort_perm. Qed.

Lemma sort_pair (a b : A) :
  sort cmp [a; b] = if Qlt_le_dec (cmp b a) 0 then [b; a] else [a; b].
Proof. reflexivity. Qed.
End SortFacts.

(** Sorting on a numeric key: the comparator is a difference of keys. *)
Section KeySort.
Variable A : Type.
Variable key : A -> Q.

Let cmp : A -> A -> Q := fun a b => key a - key b.
Let le : A -> A -> Prop := fun a b => key a <= key b.

Lemma insert_sorted (x : A) (l : list A) :
  StronglySorted le l -> StronglySorted le (insert cmp x l).
Proof.
  induction 1 as [|h t Hs IH Hh]; simpl.
  - repeat constructor.
  - destruct (Qlt_le_dec (cmp h x) 0) as [Hlt|Hge].
    + constructor; [exact IH|].
      apply (Permutation_Forall (Permutation_sym (insert_perm cmp x t))).
      constructor; [|exact Hh].
      unfold le, cmp in *. lra.
    + assert (Hxh : le x h) by (unfold le, cmp in *; lra).
      constructor; [now constructor|].
      constructor; [exact Hxh|].
      eapply Forall_impl; [|exact Hh].
      intros y Hy. unfold le in *. lra.
Qed.

Lemma sort_sorted (l : list A) : StronglySorted le (sort cmp l).
Proof.
  induction l as [|x t IH]; simpl.
  - constructor.
  - now apply insert_sorted.
Qed.

Lemma sorted_unique (l1 : list A) :
  forall l2, StronglySorted le l1 -> StronglySorted le l2 ->
             Permutation l1 l2 -> keyed key l1 -> l1 = l2.
Proof.
  induction l1 as [|x t1 IH]; intros l2 S1 S2 P K.
  - now apply Permutation_nil in P.
  - destruct l2 as [|y t2].
    + apply Permutation_sym, Permutation_nil in P. discriminate.
    + inversion S1 as [|? ? S1t F1]; subst.
      inversion S2 as [|? ? S2t F2]; subst.
      assert (Hxy : x = y).
      { assert (Hx : In x (y :: t2)) by (apply (Permutation_in _ P); now left).
        assert (Hy : In y (x :: t1))
          by (apply (Permutation_in _ (Permutation_sym P)); now left).
        destruct Hx as [Hx|Hx]; [now symmetry|].
        destruct Hy as [Hy|Hy]; [exact Hy|].
        rewrite Forall_forall in F1, F2.
        specialize (F1 _ Hy). specialize (F2 _ Hx).
        apply K; [now left|now right|].
        unfold le in *. lra. }
      subst y. f_equal.
      apply IH; trivial.
      * now apply Permutation_cons_inv in P.
      * intros p q Hp Hq. apply K; now right.
Qed.

Lemma sort_perm_invariant (l l' : list A) :
  Permutation l l' -> keyed key l -> sort cmp l = sort cmp l'.
Proof.
  intros P K.
  apply sorted_unique; try apply sort_sorted.
  - apply Permutation_trans with l; [apply sort_perm|].
    apply Permutation_trans with l'; [exact P|].
    apply Permutation_sym, sort_perm.
  - intros p q Hp Hq. apply K.
    + apply (Permutation_in _ (sort_perm cmp l)); exact Hp.
    + apply (Permutation_in _ (sort_perm cmp l)); exact Hq.
Qed.
End KeySort.

Lemma distinct_by_keyed (A : Type) (key : A -> Q) (l : list A) :
  distinct_by key l = true -> keyed key l.
Proof.
  induction l as [|a t IH]; simpl; intros H p q Hp Hq E.
  - destruct Hp.
  - apply andb_true_iff in H. destruct H as [Hall Ht].
    rewrite forallb_forall in Hall.
    destruct Hp as [<-|Hp], Hq as [<-|Hq]; trivial.
    + specialize (Hall _ Hq). apply negb_true_iff in Hall.
      apply Qeq_bool_iff in E. congruence.
    + specialize (Hall _ Hp). apply negb_true_iff in Hall.
      symmetry in E. apply Qeq_bool_iff in E. congruence.
    + now apply IH.
Qed.

Lemma distinct_by_NoDup (A : Type) (key : A -> Q) (l : list A) :
  distinct_by key l = true -> NoDup l.
Proof.
  induction l as [|a t IH]; simpl; intros H.
  - constructor.
  - apply andb_true_iff in H. destruct H as [Hall Ht].
    constructor; [|now apply IH].
    intros Hin. rewrite forallb_forall in Hall.
    specialize (Hall _ Hin). apply negb_true_iff in Hall.
    assert (E : Qeq_bool (key a) (key a) = true) by (apply Qeq_bool_iff; reflexivity).
    congruence.
Qed.

(** ** [sortPoints] *)

Lemma sortPoints_perm_invariant (l l' : list Point) :
  Permutation l l' -> keyed py l -> sortPoints l = sortPoints l'.
Proof.
  intros P K. unfold sortPoints.
  change by_y with (fun a b : Point => py a - py b).
  now rewrite (sort_perm_invariant P K).
Qed.

(** The shape of the result on four points. *)
Lemma sortPoints_four (l : list Point) :
  List.length l = 4%nat ->
  exists s0 s1 s2 s3,
    sort by_y l = [s0; s1; s2; s3] /\
    sortPoints l =
      (if Qlt_le_dec (by_x s1 s0) 0 then [s1; s0] else [s0; s1]) ++
      (if Qlt_le_dec (by_x_desc s3 s2) 0 then [s3; s2] else [s2; s3]).
Proof.
  intros Hl. rewrite <- (sort_length by_y) in Hl.
  unfold sortPoints.
  destruct (sort by_y l) as [|s0 [|s1 [|s2 [|s3 [|? ?]]]]]; try discriminate.
  exists s0, s1, s2, s3. split; [reflexivity|].
  unfold slice; simpl firstn; simpl skipn.
  rewrite !sort_pair.
  destruct (Qlt_le_dec (by_x s1 s0) 0), (Qlt_le_dec (by_x_desc s3 s2) 0); reflexivity.
Qed.

Lemma sortPoints_perm (l : list Point) :
  List.length l = 4%nat -> Permutation (sortPoints l) l.
Proof.
  intros Hl. destruct (sortPoints_four l Hl) as (s0 & s1 & s2 & s3 & Hs & ->).
  apply Permutation_trans with (sort by_y l); [|apply sort_perm].
  rewrite Hs.
  destruct (Qlt_le_dec (by_x s1 s0) 0), (Qlt_le_dec (by_x_desc s3 s2) 0); simpl.
  - apply Permutation_trans with [s0; s1; s3; s2].
    + apply perm_swap.
    + do 2 apply perm_skip. apply perm_swap.
  - apply perm_swap.
  - do 2 apply perm_skip. apply perm_swap.
  - apply Permutation_refl.
Qed.

Lemma keyed_strict (A : Type) (key : A -> Q) (l : list A) (p q : A) :
  keyed key l -> In p l -> In q l -> p <> q -> key p <= key q -> key p < key q.
Proof.
  intros K Hp Hq Hne Hle.
  destruct (Qeq_dec (key p) (key q)) as [E|E].
  - now apply K in E.
  - apply Qle_lteq in Hle. destruct Hle as [Hlt|Heq]; [exact Hlt|contradiction].
Qed.

Lemma keyed_perm (A : Type) (key : A -> Q) (l l' : list A) :
  Permutation l l' -> keyed key l' -> keyed key l.
Proof.
  intros P K p q Hp Hq. apply K; now apply (Permutation_in _ P).
Qed.

Lemma NoDup_four (A : Type) (s0 s1 s2 s3 : A) :
  NoDup [s0; s1; s2; s3] ->
  s0 <> s1 /\ s0 <> s2 /\ s0 <> s3 /\ s1 <> s2 /\ s1 <> s3 /\ s2 <> s3.
Proof.
  intros N.
  inversion N as [|? ? N0 N']; subst.
  inversion N' as [|? ? N1 N'']; subst.
  inversion N'' as [|? ? N2 _]; subst.
  simpl in *. repeat split; intros ->; tauto.
Qed.

(** C6.  On four points of which no two share an x or a y, [sortPoints]
    sends every permutation of the points to one and the same list
    [tl; tr; br; bl]: the two points of smallest y come first, by ascending
    x, then the two of largest y, by descending x.  Sorting a list that is
    already sorted gives it back. *)
Theorem sortPoints_canonical (a b c d : Point) (l : list Point) :
  no_ties [a; b; c; d] = true ->
  Permutation l [a; b; c; d] ->
  sortPoints l = sortPoints [a; b; c; d] /\
  sortPoints (sortPoints l) = sortPoints l /\
  exists tl tr br bl,
    sortPoints l = [tl; tr; br; bl] /\
    Permutation [tl; tr; br; bl] [a; b; c; d] /\
    px tl < px tr /\ px bl < px br /\
    py tl < py br /\ py tl < py bl /\ py tr < py br /\ py tr < py bl.
Proof.
  intros T P.
  apply andb_true_iff in T. destruct T as [Tx Ty].
  assert (Kx : keyed px l) by (apply (keyed_perm P), distinct_by_keyed, Tx).
  assert (Ky : keyed py l) by (apply (keyed_perm P), distinct_by_keyed, Ty).
  assert (Hl : List.length l = 4%nat) by (now rewrite (Permutation_length P)).
  assert (Hinv : sortPoints l = sortPoints [a; b; c; d])
    by (now apply sortPoints_perm_invariant).
  split; [exact Hinv|]. split.
  { symmetry. apply sortPoints_perm_invariant; trivial.
    apply Permutation_sym, sortPoints_perm, Hl. }
  destruct (sortPoints_four l Hl) as (s0 & s1 & s2 & s3 & Hs & Hr).
  assert (Ps : Permutation [s0; s1; s2; s3] l) by (rewrite <- Hs; apply sort_perm).
  assert (N : NoDup [s0; s1; s2; s3]).
  { apply (Permutation_NoDup (Permutation_sym (Permutation_trans Ps P))).
    exact (distinct_by_NoDup _ _ Tx). }
  apply NoDup_four in N. destruct N as (n01 & n02 & n03 & n12 & n13 & n23).
  assert (Kx' : keyed px [s0; s1; s2; s3]) by exact (keyed_perm Ps Kx).
  assert (Ky' : keyed py [s0; s1; s2; s3]) by exact (keyed_perm Ps Ky).
  assert (S : StronglySorted (fun p q => py p <= py q) [s0; s1; s2; s3])
    by (rewrite <- Hs; apply (sort_sorted py)).
  inversion S as [|? ? S1 F0]; subst.
  inversion S1 as [|? ? S2 F1]; subst.
  inversion F0 as [|? ? _ F0']; subst.
  inversion F0' as [|? ? l02 F0'']; subst.
  inversion F0'' as [|? ? l03 _]; subst.
  inversion F1 as [|? ? l12 F1']; subst.
  inversion F1' as [|? ? l13 _]; subst.
  assert (y02 : py s0 < py s2) by (apply (keyed_strict Ky'); simpl; auto).
  assert (y03 : py s0 < py s3) by (apply (keyed_strict Ky'); simpl; auto).
  assert (y12 : py s1 < py s2) by (apply (keyed_strict Ky'); simpl; auto).
  assert (y13 : py s1 < py s3) by (apply (keyed_strict Ky'); simpl; auto).
  assert (Pr : Permutation (sortPoints l) [a; b; c; d])
    by (apply Permutation_trans with l; [now apply sortPoints_perm|exact P]).
  rewrite Hr in Pr. rewrite Hr.
  unfold by_x, by_x_desc in *.
  destruct (Qlt_le_dec (px s1 - px s0) 0) as [t|t],
           (Qlt_le_dec (px s2 - px s3) 0) as [u|u]; simpl in *.
  - exists s1, s0, s3, s2. repeat split; trivial; lra.
  - exists s1, s0, s2, s3. repeat split; trivial; try lra.
    apply (keyed_strict Kx'); simpl; auto. lra.
  - exists s0, s1, s3, s2. repeat split; trivial; try lra.
    apply (keyed_strict Kx'); simpl; auto. lra.
  - exists s0, s1, s2, s3. repeat split; trivial.
    + apply (keyed_strict Kx'); simpl; auto. lra.
    + apply (keyed_strict Kx'); simpl; auto. lra.
Qed.

Lemma sortPoints_canonical_witness :
  no_ties kite = true /\
  Permutation [mkPoint 11 12; mkPoint 0 1; mkPoint 1 11; mkPoint 10 0] kite /\
  sortPoints [mkPoint 11 12; mkPoint 0 1; mkPoint 1 11; mkPoint 10 0] = sortPoints kite.
Proof.
  assert (P : Permutation [mkPoint 11 12; mkPoint 0 1; mkPoint 1 11; mkPoint 10 0] kite).
  { unfold kite.
    apply perm_trans with [mkPoint 0 1; mkPoint 11 12; mkPoint 1 11; mkPoint 10 0];
      [apply perm_swap|].
    apply perm_skip.
    apply perm_trans with [mkPoint 11 12; mkPoint 10 0; mkPoint 1 11];
      [apply perm_skip; apply perm_swap|apply perm_swap]. }
  split; [reflexivity|]. split; [exact P|].
  exact (proj1 (@sortPoints_canonical (mkPoint 0 1) (mkPoint 10 0) (mkPoint 11 12)
                  (mkPoint 1 11) _ eq_refl P)).
Defined.

(** ** Distances *)

Lemma hypot_of_square (a b : Q) (r : R) :
  (0 <= r)%R -> Q2R (a * a + b * b) = (r * r)%R -> hypot a b = r.
Proof.
  intros Hr E. unfold hypot. rewrite E. now apply sqrt_square.
Qed.

Lemma hypot_nonneg (a b : Q) : (0 <= hypot a b)%R.
Proof. apply sqrt_pos. Qed.

Lemma hypot_opp (a b c d : Q) : hypot (a - b) (c - d) = hypot (b - a) (d - c).
Proof.
  unfold hypot. f_equal. apply Qeq_eqR. ring.
Qed.

Lemma dist_sym (p q : Point) : dist p q = dist q p.
Proof. apply hypot_opp. Qed.

(** The sizes of [applyPerspectiveCrop] in terms of the sides of the sorted
    quadrilateral [tl; tr; br; bl]. *)
Lemma targetW_sides (tl tr br bl : Point) :
  targetW tl tr br bl = Rmax (dist tl tr) (dist bl br).
Proof.
  unfold targetW, dist. rewrite Rmax_comm. f_equal; apply hypot_opp.
Qed.

Lemma targetH_sides (tl tr br bl : Point) :
  targetH tl tr br bl = Rmax (dist tl bl) (dist tr br).
Proof.
  unfold targetH, dist. rewrite Rmax_comm. reflexivity.
Qed.

(** ** [applyPerspectiveCrop] *)

Lemma cropRequest_four (l : list Point) :
  List.length l = 4%nat ->
  exists tl tr br bl,
    sortPoints l = [tl; tr; br; bl] /\
    cropRequest l =
      Some {| w_srcCoords := [tl; tr; br; bl];
              w_dstCoords :=
                [(0, 0); (targetW tl tr br bl, 0);
                 (targetW tl tr br bl, targetH tl tr br bl);
                 (0, targetH tl tr br bl)]%R;
              w_size := (targetW tl tr br bl, targetH tl tr br bl) |}.
Proof.
  intros Hl.
  pose proof (Permutation_length (sortPoints_perm l Hl)) as Hs.
  rewrite Hl in Hs. unfold cropRequest.
  destruct (sortPoints l) as [|tl [|tr [|br [|bl [|? ?]]]]]; try discriminate.
  now exists tl, tr, br, bl.
Qed.

Lemma applyPerspectiveCrop_sorted (env : Env) (url : ImageUrl) (l l' : list Point) :
  sortPoints l = sortPoints l' ->
  applyPerspectiveCrop env url l = applyPerspectiveCrop env url l'.
Proof.
  intros E. unfold applyPerspectiveCrop, cropRequest. now rewrite E.
Qed.

Lemma waitForCV_ready (win : Z -> Window) (now : Z) (retries : nat) :
  cvLoaded (win now) = true -> waitForCV win now retries = (true, now).
Proof.
  intros H. destruct retries; simpl; now rewrite H.
Qed.

Lemma WarpPng_fresh (u : ImageUrl) : forall r, WarpPng u r <> u.
Proof.
  induction u as [name|u IH r'|u IH c]; intros r H; try discriminate.
  injection H as H _. now apply IH in H.
Qed.

Ltac hypot_is r :=
  rewrite (@hypot_of_square _ _ r) by (try lra; unfold Q2R; simpl; lra).

Lemma Rmax_same (x : R) : Rmax x x = x.
Proof. apply Rmax_left. lra. Qed.

(** Sorting four points that are sorted already. *)
Ltac split_cmp :=
  repeat match goal with
         | |- context [Qlt_le_dec ?a ?b] => destruct (Qlt_le_dec a b)
         end.

Lemma sortPoints_of_sorted (s0 s1 s2 s3 : Point) :
  py s0 <= py s1 -> py s1 <= py s2 -> py s2 <= py s3 ->
  forall r0 r1 r2 r3,
    (if Qlt_le_dec (by_x s1 s0) 0 then [s1; s0] else [s0; s1]) ++
    (if Qlt_le_dec (by_x_desc s3 s2) 0 then [s3; s2] else [s2; s3]) =
    [r0; r1; r2; r3] ->
    sortPoints [r0; r1; r2; r3] = [r0; r1; r2; r3] /\
    px r0 <= px r1 /\ px r3 <= px r2 /\
    py r0 <= py r2 /\ py r0 <= py r3 /\ py r1 <= py r2 /\ py r1 <= py r3.
Proof.
  intros H01 H12 H23 r0 r1 r2 r3.
  unfold by_x, by_x_desc.
  destruct (Qlt_le_dec (px s1 - px s0) 0), (Qlt_le_dec (px s2 - px s3) 0);
    simpl; intros E; injection E as <- <- <- <-;
    (split; [|repeat split; lra]);
    unfold sortPoints, slice, at_index, by_y, by_x, by_x_desc; simpl;
    repeat (progress (split_cmp; simpl)); try reflexivity; exfalso; lra.
Qed.

Lemma sortPoints_four_points_aux (l : list Point) :
  List.length l = 4%nat ->
  Permutation (sortPoints l) l /\ sortPoints (sortPoints l) = sortPoints l.
Proof.
  intros Hl. split; [now apply sortPoints_perm|].
  destruct (sortPoints_four l Hl) as (s0 & s1 & s2 & s3 & Hs & Hr).
  assert (S : StronglySorted (fun p q => py p <= py q) [s0; s1; s2; s3])
    by (rewrite <- Hs; apply (sort_sorted py)).
  inversion S as [|? ? S1 F0]; subst.
  inversion S1 as [|? ? S2 F1]; subst.
  inversion S2 as [|? ? _ F2]; subst.
  inversion F0 as [|? ? l01 _]; subst.
  inversion F1 as [|? ? l12 _]; subst.
  inversion F2 as [|? ? l23 _]; subst.
  pose proof (Permutation_length (sortPoints_perm l Hl)) as Hlen. rewrite Hl in Hlen.
  destruct (sortPoints l) as [|tl [|tr [|br [|bl [|? ?]]]]] eqn:E; try discriminate.
  symmetry in Hr.
  now destruct (@sortPoints_of_sorted s0 s1 s2 s3 l01 l12 l23 _ _ _ _ Hr).
Qed.

(** C5, as stated, fails: [skew] is in canonical order, [skew_permuted] holds
    the same four corners, and the two crops differ in size (5 wide against
    3 wide).  The second and the third point of [skew] in y order share
    y = 3. *)
Lemma applyPerspectiveCrop_order_matters :
  Permutation skew_permuted skew /\
  sortPoints skew = skew /\
  exists r r',
    applyPerspectiveCrop studio page skew = Resolved (WarpPng page r) /\
    applyPerspectiveCrop studio page skew_permuted = Resolved (WarpPng page r') /\
    fst (w_size r) = 5%R /\ fst (w_size r') = 3%R /\
    applyPerspectiveCrop studio page skew_permuted <>
    applyPerspectiveCrop studio page skew.
Proof.
  split.
  { unfold skew_permuted, skew. apply perm_skip.
    apply perm_trans with [mkPoint 4 3; mkPoint 0 3; mkPoint 4 6];
      [apply perm_swap|apply perm_skip; apply perm_swap]. }
  split; [reflexivity|].
  assert (E : forall l, applyPerspectiveCrop studio page l =
                        match cropRequest l with
                        | Some req => Resolved (WarpPng page req)
                        | None => Rejected
                        end).
  { intros l. unfold applyPerspectiveCrop.
    rewrite waitForCV_ready by reflexivity. simpl.
    now destruct (cropRequest l). }
  assert (W : targetW (mkPoint 0 0) (mkPoint 4 3) (mkPoint 4 6) (mkPoint 0 3) = 5%R).
  { unfold targetW; simpl. do 2 hypot_is 5%R. apply Rmax_same. }
  assert (W' : targetW (mkPoint 0 0) (mkPoint 0 3) (mkPoint 4 3) (mkPoint 4 6) = 3%R).
  { unfold targetW; simpl. do 2 hypot_is 3%R. apply Rmax_same. }
  eexists. eexists. rewrite !E.
  unfold cropRequest.
  change (sortPoints skew) with skew.
  change (sortPoints skew_permuted) with skew_permuted.
  unfold skew, skew_permuted.
  split; [reflexivity|]. split; [reflexivity|]. simpl.
  split; [exact W|]. split; [exact W'|].
  intros H. injection H as _ _ _ _ H _. rewrite W, W' in H. lra.
Qed.

(** In the copy [part_002] the corners handed to the engine are the points
    in the order given, so that there a permutation without any tie already
    changes the request. *)
Lemma part002_crop_keeps_given_order :
  (forall p0 p1 p2 p3 rest,
     exists req, Part002.cropRequest (p0 :: p1 :: p2 :: p3 :: rest) = Some req /\
                 w_srcCoords req = [p0; p1; p2; p3]) /\
  no_ties kite = true /\
  Part002.cropRequest [mkPoint 11 12; mkPoint 0 1; mkPoint 1 11; mkPoint 10 0] <>
  Part002.cropRequest kite.
Proof.
  split; [|split].
  - intros p0 p1 p2 p3 rest. eexists. split; reflexivity.
  - reflexivity.
  - unfold kite. simpl. intros E. injection E as E _. discriminate.
Qed.

Lemma filter_perm (A : Type) (f : A -> bool) (l l' : list A) :
  Permutation l l' -> Permutation (filter f l) (filter f l').
Proof.
  induction 1 as [|x l l' P IH|x y l|l l' l'' P1 IH1 P2 IH2]; simpl.
  - constructor.
  - destruct (f x); [now constructor|exact IH].
  - destruct (f x), (f y); try apply Permutation_refl. apply perm_swap.
  - now apply Permutation_trans with (filter f l').
Qed.

Lemma hypot_comp (a a' b b' : Q) :
  a == a' -> b == b' -> hypot a b = hypot a' b'.
Proof.
  intros Ha Hb. unfold hypot. f_equal. apply Qeq_eqR. now rewrite Ha, Hb.
Qed.

(** With the second point in y order strictly above the third, the two
    points on top and the two at the bottom are the same for every order of
    the input. *)
Lemma sort_by_y_pairs (l l' : list Point) (s0 s1 s2 s3 : Point) :
  sort by_y l = [s0; s1; s2; s3] -> py s1 < py s2 -> Permutation l' l ->
  exists t0 t1 t2 t3,
    sort by_y l' = [t0; t1; t2; t3] /\
    (py s0 <= py s1 /\ py s2 <= py s3) /\ (py t0 <= py t1 /\ py t2 <= py t3) /\
    ([t0; t1] = [s0; s1] \/ [t0; t1] = [s1; s0]) /\
    ([t2; t3] = [s2; s3] \/ [t2; t3] = [s3; s2]).
Proof.
  intros Hs Hlt P.
  assert (PS : Permutation (sort by_y l') [s0; s1; s2; s3]).
  { rewrite <- Hs. apply Permutation_trans with l'; [apply sort_perm|].
    apply Permutation_trans with l; [exact P|apply Permutation_sym, sort_perm]. }
  assert (S : StronglySorted (fun p q => py p <= py q) [s0; s1; s2; s3])
    by (rewrite <- Hs; apply (sort_sorted py)).
  assert (S' : StronglySorted (fun p q => py p <= py q) (sort by_y l'))
    by apply (sort_sorted py).
  pose proof (Permutation_length PS) as L. simpl in L.
  destruct (sort by_y l') as [|t0 [|t1 [|t2 [|t3 [|? ?]]]]]; try discriminate.
  exists t0, t1, t2, t3. split; [reflexivity|].
  inversion S as [|? ? S1 F0]; subst. inversion S1 as [|? ? S2 F1]; subst.
  inversion S2 as [|? ? _ F2]; subst.
  inversion F0 as [|? ? a01 F0']; subst. inversion F0' as [|? ? a02 F0'']; subst.
  inversion F0'' as [|? ? a03 _]; subst.
  inversion F1 as [|? ? a12 F1']; subst. inversion F1' as [|? ? a13 _]; subst.
  inversion F2 as [|? ? a23 _]; subst.
  inversion S' as [|? ? T1 G0]; subst. inversion T1 as [|? ? T2 G1]; subst.
  inversion T2 as [|? ? _ G2]; subst.
  inversion G0 as [|? ? b01 G0']; subst. inversion G0' as [|? ? b02 G0'']; subst.
  inversion G0'' as [|? ? b03 _]; subst.
  inversion G1 as [|? ? b12 G1']; subst. inversion G1' as [|? ? b13 _]; subst.
  inversion G2 as [|? ? b23 _]; subst.
  split; [split; assumption|]. split; [split; assumption|].
  set (low := fun p : Point => if Qlt_le_dec (py s1) (py p) then false else true).
  assert (Lo : filter low [s0; s1; s2; s3] = [s0; s1]).
  { unfold low. simpl. repeat (progress (split_cmp; simpl)); try reflexivity;
      exfalso; lra. }
  assert (Hi : filter (fun p => negb (low p)) [s0; s1; s2; s3] = [s2; s3]).
  { unfold low. simpl. repeat (progress (split_cmp; simpl)); try reflexivity;
      exfalso; lra. }
  pose proof (filter_perm low PS) as P1. rewrite Lo in P1.
  pose proof (filter_perm (fun p => negb (low p)) PS) as P2. rewrite Hi in P2.
  pose proof (Permutation_length P1) as L1.
  pose proof (Permutation_length P2) as L2.
  assert (E1 : filter low [t0; t1; t2; t3] = [t0; t1] /\
               filter (fun p => negb (low p)) [t0; t1; t2; t3] = [t2; t3]).
  { revert L1 L2. unfold low. simpl.
    repeat (progress (split_cmp; simpl)); intros L1 L2;
      try discriminate; try (split; reflexivity); exfalso; lra. }
  destruct E1 as [E1 E2]. rewrite E1 in P1. rewrite E2 in P2.
  split.
  - destruct (Permutation_length_2_inv (Permutation_sym P1)) as [E|E];
      inversion E; subst; [left|right]; reflexivity.
  - destruct (Permutation_length_2_inv (Permutation_sym P2)) as [E|E];
      inversion E; subst; [left|right]; reflexivity.
Qed.

(** Hence [sortPoints] gives the same corners for every order of the
    input; where two points have the same coordinates, it may give them in
    either order. *)
Lemma sortPoints_same_corners (l l' : list Point) (s0 s1 s2 s3 : Point) :
  sort by_y l = [s0; s1; s2; s3] -> py s1 < py s2 -> Permutation l' l ->
  exists r0 r1 r2 r3 r0' r1' r2' r3',
    sortPoints l = [r0; r1; r2; r3] /\ sortPoints l' = [r0'; r1'; r2'; r3'] /\
    samePoint r0' r0 /\ samePoint r1' r1 /\ samePoint r2' r2 /\ samePoint r3' r3 /\
    In r0 l /\ In r1 l /\ In r2 l /\ In r3 l /\
    In r0' l /\ In r1' l /\ In r2' l /\ In r3' l.
Proof.
  intros Hs Hlt P.
  destruct (sort_by_y_pairs Hs Hlt P)
    as (t0 & t1 & t2 & t3 & Ht & [A1 A2] & [B1 B2] & Top & Bot).
  assert (L : List.length l = 4%nat)
    by (rewrite <- (sort_length by_y l), Hs; reflexivity).
  assert (L' : List.length l' = 4%nat)
    by (rewrite (Permutation_length P); exact L).
  destruct (sortPoints_four l L) as (u0 & u1 & u2 & u3 & Hu & E).
  destruct (sortPoints_four l' L') as (v0 & v1 & v2 & v3 & Hv & E').
  rewrite Hs in Hu. inversion Hu; subst u0 u1 u2 u3.
  rewrite Ht in Hv. inversion Hv; subst v0 v1 v2 v3.
  assert (M : forall p, In p [s0; s1; s2; s3] -> In p l).
  { intros p I. apply (Permutation_in p (sort_perm by_y l)). rewrite Hs. exact I. }
  assert (M0 : In s0 l) by (apply M; simpl; tauto).
  assert (M1 : In s1 l) by (apply M; simpl; tauto).
  assert (M2 : In s2 l) by (apply M; simpl; tauto).
  assert (M3 : In s3 l) by (apply M; simpl; tauto).
  rewrite E, E'. clear E E' Hs Ht Hu Hv M.
  unfold by_x, by_x_desc, samePoint.
  destruct Top as [T|T], Bot as [B|B]; inversion T; inversion B; subst;
    repeat (progress (split_cmp; simpl));
    try (exfalso; lra);
    do 8 eexists; (split; [reflexivity|]); (split; [reflexivity|]);
    repeat split; try assumption; lra.
Qed.

(** C5 (amended).  When the second and the third of the four points in y
    order do not share a y, every permutation of the points asks the engine
    for the same warp as the points themselves, and as the canonically
    ordered points: the same source corners, the same destination, the same
    size, hence the same pixels.  Ties inside the top pair or inside the
    bottom pair (as in a rectangle with sides along the axes) do no harm.
    Two points with the same coordinates may reach the engine in either
    order, which the engine cannot tell; where each point is told by its
    coordinates the promises are equal outright. *)
Theorem applyPerspectiveCrop_order_invariant
    (env : Env) (url : ImageUrl) (l l' : list Point) (s0 s1 s2 s3 : Point) :
  sort by_y l = [s0; s1; s2; s3] -> py s1 < py s2 ->
  Permutation l' l ->
  applyPerspectiveCrop env url (sortPoints l) = applyPerspectiveCrop env url l /\
  (exists r r',
     cropRequest l = Some r /\ cropRequest l' = Some r' /\
     Forall2 samePoint (w_srcCoords r') (w_srcCoords r) /\
     w_dstCoords r' = w_dstCoords r /\ w_size r' = w_size r) /\
  (by_coordinates l ->
     cropRequest l' = cropRequest l /\
     applyPerspectiveCrop env url l' = applyPerspectiveCrop env url l).
Proof.
  intros Hs Hlt P.
  assert (L : List.length l = 4%nat)
    by (rewrite <- (sort_length by_y l), Hs; reflexivity).
  split.
  { apply applyPerspectiveCrop_sorted.
    apply (proj2 (sortPoints_four_points_aux l L)). }
  destruct (sortPoints_same_corners Hs Hlt P)
    as (r0 & r1 & r2 & r3 & r0' & r1' & r2' & r3' & E & E' &
        [X0 Y0] & [X1 Y1] & [X2 Y2] & [X3 Y3] & I0 & I1 & I2 & I3 & I0' & I1' & I2' & I3').
  assert (W : targetW r0' r1' r2' r3' = targetW r0 r1 r2 r3).
  { unfold targetW. f_equal; apply hypot_comp; lra. }
  assert (H : targetH r0' r1' r2' r3' = targetH r0 r1 r2 r3).
  { unfold targetH. f_equal; apply hypot_comp; lra. }
  split.
  { unfold cropRequest. rewrite E, E'. eexists. eexists.
    split; [reflexivity|]. split; [reflexivity|]. cbn [w_srcCoords w_dstCoords w_size].
    rewrite W, H. split; [|split; reflexivity].
    repeat constructor; assumption. }
  intros C.
  assert (S : sortPoints l' = sortPoints l).
  { rewrite E, E'. f_equal; [|f_equal; [|f_equal; [|f_equal]]].
    - apply C; [assumption|assumption|split; assumption].
    - apply C; [assumption|assumption|split; assumption].
    - apply C; [assumption|assumption|split; assumption].
    - apply C; [assumption|assumption|split; assumption]. }
  split.
  - unfold cropRequest. rewrite S. reflexivity.
  - apply applyPerspectiveCrop_sorted. exact S.
Qed.

Lemma applyPerspectiveCrop_order_invariant_witness :
  let rect := [mkPoint 100 100; mkPoint 900 100; mkPoint 900 700; mkPoint 100 700] in
  let shuffled := [mkPoint 900 700; mkPoint 100 100; mkPoint 100 700; mkPoint 900 100] in
  sort by_y rect = rect /\ (100 : Q) < 700 /\ Permutation shuffled rect /\
  by_coordinates rect /\
  cropRequest shuffled = cropRequest rect /\
  applyPerspectiveCrop studio page shuffled = applyPerspectiveCrop studio page rect /\
  applyPerspectiveCrop studio page (sortPoints rect) =
  applyPerspectiveCrop studio page rect.
Proof.
  intros rect shuffled.
  assert (P : Permutation shuffled rect).
  { unfold shuffled, rect.
    apply perm_trans
      with [mkPoint 100 100; mkPoint 900 700; mkPoint 100 700; mkPoint 900 100];
      [apply perm_swap|]. apply perm_skip.
    apply perm_trans
      with [mkPoint 900 700; mkPoint 900 100; mkPoint 100 700];
      [apply perm_skip; apply perm_swap|].
    apply perm_swap. }
  assert (C : by_coordinates rect).
  { intros p q Hp Hq [Hx Hy]. unfold rect in Hp, Hq. simpl in Hp, Hq.
    destruct Hp as [<-|[<-|[<-|[<-|[]]]]], Hq as [<-|[<-|[<-|[<-|[]]]]];
      try reflexivity; exfalso; simpl in Hx, Hy;
      first [discriminate Hx|discriminate Hy]. }
  pose proof (@applyPerspectiveCrop_order_invariant studio page rect shuffled
                (mkPoint 100 100) (mkPoint 900 100) (mkPoint 900 700) (mkPoint 100 700)
                eq_refl eq_refl P) as (K & _ & F).
  split; [reflexivity|]. split; [reflexivity|]. split; [exact P|]. split; [exact C|].
  split; [exact (proj1 (F C))|]. split; [exact (proj2 (F C))|exact K].
Defined.

Lemma Rmax_ge_iff (x y z : R) : (z <= Rmax x y <-> z <= x \/ z <= y)%R.
Proof.
  unfold Rmax. destruct (Rle_dec x y); split; intros H; try lra.
Qed.

(** C1, as stated, fails: [tiny] has positive area, yet the size asked of the
    warp is 2/5 by 2/5, which is below 1 and is no integer; rounding 2/5
    would not give a size of at least 1 either. *)
Lemma applyPerspectiveCrop_size_below_one :
  0 < area tiny /\
  round (2 # 5) == 0 /\
  exists r,
    applyPerspectiveCrop studio page tiny = Resolved (WarpPng page r) /\
    w_size r = (2 / 5, 2 / 5)%R /\
    ~ (1 <= fst (w_size r))%R /\ ~ (1 <= snd (w_size r))%R /\
    (forall n : Z, fst (w_size r) <> IZR n) /\
    (forall n : Z, snd (w_size r) <> IZR n).
Proof.
  split; [reflexivity|]. split; [reflexivity|].
  assert (W : targetW (mkPoint 0 0) (mkPoint (2 # 5) 0)
                      (mkPoint (2 # 5) (2 # 5)) (mkPoint 0 (2 # 5)) = (2 / 5)%R).
  { unfold targetW; simpl. do 2 hypot_is (2 / 5)%R. apply Rmax_same. }
  assert (H : targetH (mkPoint 0 0) (mkPoint (2 # 5) 0)
                      (mkPoint (2 # 5) (2 # 5)) (mkPoint 0 (2 # 5)) = (2 / 5)%R).
  { unfold targetH; simpl. do 2 hypot_is (2 / 5)%R. apply Rmax_same. }
  assert (Z5 : forall n : Z, (2 / 5)%R <> IZR n).
  { intros n E.
    assert (E' : IZR (5 * n) = IZR 2) by (rewrite mult_IZR; lra).
    apply eq_IZR in E'. lia. }
  eexists. split.
  { unfold applyPerspectiveCrop.
    rewrite waitForCV_ready by reflexivity. simpl.
    unfold cropRequest. change (sortPoints tiny) with tiny. unfold tiny.
    reflexivity. }
  simpl. rewrite W, H. simpl.
  repeat split; trivial; lra.
Qed.

(** C1 (amended).  For four points, the size that [applyPerspectiveCrop]
    asks of the warp is [targetW = max(dist(TL,TR), dist(BL,BR))] by
    [targetH = max(dist(TL,BL), dist(TR,BR))] over the sorted corners, as
    computed and not rounded; a promise that resolves carries that request.
    Both sizes are non-negative, and each is at least 1 exactly when one of
    its two sides is at least 1 long. *)
Theorem applyPerspectiveCrop_size (env : Env) (url : ImageUrl) (l : list Point) :
  List.length l = 4%nat ->
  exists tl tr br bl req,
    sortPoints l = [tl; tr; br; bl] /\
    cropRequest l = Some req /\
    w_size req = (Rmax (dist tl tr) (dist bl br), Rmax (dist tl bl) (dist tr br)) /\
    (forall u, applyPerspectiveCrop env url l = Resolved u -> u = WarpPng url req) /\
    (0 <= fst (w_size req))%R /\ (0 <= snd (w_size req))%R /\
    ((1 <= fst (w_size req))%R <-> (1 <= dist tl tr)%R \/ (1 <= dist bl br)%R) /\
    ((1 <= snd (w_size req))%R <-> (1 <= dist tl bl)%R \/ (1 <= dist tr br)%R).
Proof.
  intros Hl.
  destruct (cropRequest_four l Hl) as (tl & tr & br & bl & Hs & Hr).
  exists tl, tr, br, bl. eexists.
  split; [exact Hs|]. split; [exact Hr|].
  simpl. rewrite targetW_sides, targetH_sides.
  split; [reflexivity|]. split.
  { intros u. unfold applyPerspectiveCrop. rewrite Hr.
    destruct (fst (waitForCV (window_at env) 0%Z defaultRetries)); try discriminate.
    destruct (decode env url); try discriminate.
    match goal with |- context [warpThrows ?e ?u ?r] => destruct (warpThrows e u r) end;
      try discriminate.
    intros E. injection E as <-. f_equal.
    now rewrite targetW_sides, targetH_sides. }
  split.
  { apply Rle_trans with (dist tl tr); [apply hypot_nonneg|apply Rmax_l]. }
  split.
  { apply Rle_trans with (dist tl bl); [apply hypot_nonneg|apply Rmax_l]. }
  split; apply Rmax_ge_iff.
Qed.

Lemma applyPerspectiveCrop_size_witness :
  List.length kite = 4%nat /\
  exists tl tr br bl req,
    sortPoints kite = [tl; tr; br; bl] /\
    cropRequest kite = Some req /\
    w_size req = (Rmax (dist tl tr) (dist bl br), Rmax (dist tl bl) (dist tr br)).
Proof.
  split; [reflexivity|].
  destruct (@applyPerspectiveCrop_size studio page kite eq_refl)
    as (tl & tr & br & bl & req & Hs & Hr & Hw & _).
  exists tl, tr, br, bl, req. auto.
Defined.

(** The ways [applyPerspectiveCrop] can end. *)
Lemma applyPerspectiveCrop_cases (env : Env) (url : ImageUrl) (l : list Point) :
  applyPerspectiveCrop env url l = Rejected \/
  exists req,
    cropRequest l = Some req /\
    warpThrows env url req = false /\
    applyPerspectiveCrop env url l = Resolved (WarpPng url req).
Proof.
  unfold applyPerspectiveCrop.
  destruct (fst (waitForCV (window_at env) 0%Z defaultRetries)); [|now left].
  destruct (decode env url); [|now left].
  destruct (cropRequest l) as [req|]; [|now left].
  destruct (warpThrows env url req) eqn:Hw; [now left|].
  right. now exists req.
Qed.

(** C2, as stated, fails: on four equal points (area 0) the code still asks
    the engine for a warp, of size 0 by 0.  Where the engine answers, the
    promise resolves to the PNG of that warp; in no environment does it
    resolve to the input. *)
Lemma applyPerspectiveCrop_warps_collapsed :
  area collapsed == 0 /\
  (exists r,
     cropRequest collapsed = Some r /\ w_size r = (0, 0)%R /\
     applyPerspectiveCrop studio page collapsed = Resolved (WarpPng page r)) /\
  (forall env, applyPerspectiveCrop env page collapsed <> Resolved page).
Proof.
  split; [reflexivity|].
  split.
  2:{ intros env.
      destruct (applyPerspectiveCrop_cases env page collapsed)
        as [E|(req & _ & _ & E)]; rewrite E; discriminate. }
  assert (W : targetW (mkPoint 5 5) (mkPoint 5 5) (mkPoint 5 5) (mkPoint 5 5) = 0%R).
  { unfold targetW; simpl. hypot_is 0%R. apply Rmax_same. }
  assert (H : targetH (mkPoint 5 5) (mkPoint 5 5) (mkPoint 5 5) (mkPoint 5 5) = 0%R).
  { unfold targetH; simpl. hypot_is 0%R. apply Rmax_same. }
  assert (C : cropRequest collapsed =
              Some {| w_srcCoords := collapsed;
                      w_dstCoords := [(0, 0); (0, 0); (0, 0); (0, 0)]%R;
                      w_size := (0, 0)%R |}).
  { unfold cropRequest. change (sortPoints collapsed) with collapsed.
    unfold collapsed. now rewrite W, H. }
  eexists. split; [exact C|]. split; [reflexivity|].
  unfold applyPerspectiveCrop.
  rewrite waitForCV_ready by reflexivity. rewrite C. reflexivity.
Qed.

(** C2 (amended).  [applyPerspectiveCrop] has no test for degenerate
    quadrilaterals: whatever the points, it either rejects or resolves to the
    PNG of the warp it asked the engine for, never to the URL it was given. *)
Theorem applyPerspectiveCrop_never_passes_through
    (env : Env) (url : ImageUrl) (l : list Point) :
  applyPerspectiveCrop env url l <> Resolved url /\
  (applyPerspectiveCrop env url l = Rejected \/
   exists req,
     cropRequest l = Some req /\
     warpThrows env url req = false /\
     applyPerspectiveCrop env url l = Resolved (WarpPng url req)).
Proof.
  pose proof (applyPerspectiveCrop_cases env url l) as C.
  split; [|exact C].
  destruct C as [E|(req & _ & _ & E)]; rewrite E; [discriminate|].
  intros N. injection N as N. now apply WarpPng_fresh in N.
Qed.

(** ** [findContourPoints] *)

Lemma greater_spec (a b : Q) : greater a b = true <-> b < a.
Proof.
  unfold greater. rewrite negb_true_iff.
  split; intros H.
  - apply Qnot_le_lt. intros N. apply Qle_bool_iff in N. congruence.
  - destruct (Qle_bool a b) eqn:E; trivial.
    apply Qle_bool_iff in E. lra.
Qed.

Lemma greater_false (a b : Q) : greater a b = false <-> a <= b.
Proof.
  unfold greater. rewrite negb_false_iff. apply Qle_bool_iff.
Qed.

Section Search.
Variables scale thr : Q.

Lemma visit_inv (seen : list Contour) (st : Search) (cnt : Contour) :
  search_inv scale thr seen st ->
  search_inv scale thr (seen ++ [cnt]) (visit scale thr st cnt).
Proof.
  intros (H0 & Hmax & Hbest). unfold visit.
  assert (Hkeep : contourArea cnt < thr \/ contourArea cnt <= maxArea st ->
                  search_inv scale thr (seen ++ [cnt]) st).
  { intros Hc. split; [exact H0|]. split.
    - intros c Hin Hthr. apply in_app_or in Hin.
      destruct Hin as [Hin|[<-|[]]]; [now apply Hmax|].
      destruct Hc; [lra|trivial].
    - destruct (bestPoints st) as [pts|]; trivial.
      destruct Hbest as (c & Hin & Hc').
      exists c. split; [apply in_or_app; now left|exact Hc']. }
  assert (Htake : forall pts, thr <= contourArea cnt -> maxArea st < contourArea cnt ->
                              pts = candidate scale cnt ->
                              search_inv scale thr (seen ++ [cnt])
                                {| bestPoints := Some pts; maxArea := contourArea cnt |}).
  { intros pts Hthr Hgt Hpts. split; simpl; [lra|]. split.
    - intros c Hin Hc. apply in_app_or in Hin.
      destruct Hin as [Hin|[<-|[]]]; [|lra].
      specialize (Hmax _ Hin Hc). lra.
    - exists cnt. repeat split; trivial; try lra.
      apply in_or_app. right. now left. }
  destruct (Qlt_le_dec (contourArea cnt) thr) as [Hlt|Hge]; [now apply Hkeep; left|].
  destruct (greater (contourArea cnt) (maxArea st)) eqn:Hg.
  - apply greater_spec in Hg.
    destruct (List.length (approxPolyDP cnt) =? 4)%nat eqn:Hn; simpl;
      apply Htake; trivial; unfold candidate; now rewrite Hn.
  - rewrite andb_false_r. apply greater_false in Hg. apply Hkeep. now right.
Qed.

Lemma fold_visit_inv (contours : list Contour) :
  forall seen st,
    search_inv scale thr seen st ->
    search_inv scale thr (seen ++ contours)
      (fold_left (visit scale thr) contours st).
Proof.
  induction contours as [|cnt rest IH]; intros seen st H; simpl.
  - now rewrite app_nil_r.
  - replace (seen ++ cnt :: rest) with ((seen ++ [cnt]) ++ rest)
      by (now rewrite <- app_assoc).
    apply IH. now apply visit_inv.
Qed.
End Search.

(** C3, as stated, fails: [quadContour] is above the area threshold and has
    a four-vertex approximation, yet with the larger [blobContour] in the
    list, in either order, the result is the rectangle of [blobContour]. *)
Lemma findContourPoints_prefers_larger_blob :
  List.length (approxPolyDP quadContour) = 4%nat /\
  1000 * (1 # 100) <= contourArea quadContour /\
  List.length (approxPolyDP blobContour) <> 4%nat /\
  findContourPoints [quadContour; blobContour] 1 1000 =
    Some (sortPoints (rectPoints 1 blobContour)) /\
  findContourPoints [blobContour; quadContour] 1 1000 =
    Some (sortPoints (rectPoints 1 blobContour)) /\
  findContourPoints [quadContour; blobContour] 1 1000 <>
    Some (sortPoints (approxPoints 1 quadContour)).
Proof.
  split; [reflexivity|]. split; [discriminate|]. split; [discriminate|].
  split; [reflexivity|]. split; [reflexivity|].
  vm_compute. discriminate.
Qed.

(** C3 (amended).  [findContourPoints] keeps one maximum over all contours:
    it answers [null] exactly when no contour has an area that is positive
    and at least 1% of the image, and otherwise answers, sorted, the
    candidate of a contour of largest area among those of at least 1%: its
    approximation when it has exactly four vertices, else its minimum-area
    rectangle. *)
Theorem findContourPoints_largest (contours : list Contour) (scale totalArea : Q) :
  (findContourPoints contours scale totalArea = None <->
   forall c, In c contours ->
             ~ (totalArea * (1 # 100) <= contourArea c /\ 0 < contourArea c)) /\
  (forall pts,
     findContourPoints contours scale totalArea = Some pts ->
     exists c,
       In c contours /\
       totalArea * (1 # 100) <= contourArea c /\ 0 < contourArea c /\
       (forall c', In c' contours -> totalArea * (1 # 100) <= contourArea c' ->
                   contourArea c' <= contourArea c) /\
       pts = sortPoints (candidate scale c)).
Proof.
  pose proof (@fold_visit_inv scale (totalArea * (1 # 100)) contours []
                {| bestPoints := None; maxArea := 0 |}) as H.
  simpl app in H.
  assert (H0 : search_inv scale (totalArea * (1 # 100)) []
                 {| bestPoints := None; maxArea := 0 |}).
  { split; simpl; [lra|]. split; [intros c []|reflexivity]. }
  specialize (H H0). clear H0.
  destruct H as (Hpos & Hmax & Hbest).
  unfold findContourPoints.
  destruct (bestPoints (fold_left _ contours _)) as [best|].
  - destruct Hbest as (c & Hin & Hthr & Hc & Hm & ->).
    split.
    + split; [discriminate|].
      intros N. exfalso. apply (N c Hin). now split.
    + intros pts E. injection E as <-.
      exists c. repeat split; trivial.
      intros c' Hin' Hthr'. rewrite <- Hm. now apply Hmax.
  - split.
    + split; [|reflexivity].
      intros _ c Hin [Hthr Hc]. specialize (Hmax c Hin Hthr).
      rewrite Hbest in Hmax. lra.
    + discriminate.
Qed.

Lemma findContourPoints_largest_witness :
  findContourPoints [quadContour; blobContour] 1 1000 =
    Some [mkPoint 0 0; mkPoint 30 0; mkPoint 30 30; mkPoint 0 30] /\
  exists c,
    In c [quadContour; blobContour] /\
    1000 * (1 # 100) <= contourArea c /\ 0 < contourArea c /\
    (forall c', In c' [quadContour; blobContour] ->
                1000 * (1 # 100) <= contourArea c' ->
                contourArea c' <= contourArea c) /\
    [mkPoint 0 0; mkPoint 30 0; mkPoint 30 30; mkPoint 0 30] =
      sortPoints (candidate 1 c).
Proof.
  assert (E : findContourPoints [quadContour; blobContour] 1 1000 =
              Some [mkPoint 0 0; mkPoint 30 0; mkPoint 30 30; mkPoint 0 30])
    by reflexivity.
  split; [exact E|].
  exact (proj2 (findContourPoints_largest [quadContour; blobContour] 1 1000) _ E).
Defined.

(** ** [waitForCV] and [detectDocumentCorners] *)

Lemma waitForCV_never (win : Z -> Window) :
  forall (retries : nat) (now : Z),
    (forall k : nat, (k <= retries)%nat ->
                     cvLoaded (win (now + 100 * Z.of_nat k)%Z) = false) ->
    waitForCV win now retries = (false, (now + 100 * Z.of_nat retries)%Z).
Proof.
  induction retries as [|r IH]; intros now H; simpl.
  - pose proof (H 0%nat (Nat.le_refl _)) as H0. simpl in H0.
    rewrite Z.add_0_r in H0. rewrite H0. f_equal. lia.
  - pose proof (H 0%nat (Nat.le_0_l _)) as H0. simpl in H0.
    rewrite Z.add_0_r in H0. rewrite H0.
    rewrite IH.
    + f_equal. lia.
    + intros k Hk. specialize (H (S k)).
      replace (now + 100 + 100 * Z.of_nat k)%Z with (now + 100 * Z.of_nat (S k))%Z by lia.
      apply H. lia.
Qed.

(** C7.  [detectDocumentCorners] always resolves.  It resolves to [null]
    when the engine is not loaded at any of the checks made every 100 ms up
    to the 300th retry (30 s after the call, where [waitForCV] throws), when
    the image does not decode, and when the pipeline throws. *)
Theorem detectDocumentCorners_absorbs_failures (env : Env) (url : ImageUrl) :
  (exists r, detectDocumentCorners env url = Resolved r) /\
  ((forall k : nat, (k <= 300)%nat ->
                    cvLoaded (window_at env (100 * Z.of_nat k)%Z) = false) ->
   waitForCV (window_at env) 0%Z defaultRetries = (false, 30000%Z) /\
   detectDocumentCorners env url = Resolved None) /\
  (decode env url = None -> detectDocumentCorners env url = Resolved None) /\
  (forall img, decode env url = Some img -> detectPipeline env img = CvThrow ->
               detectDocumentCorners env url = Resolved None) /\
  (forall img, edgeContours env img = CvThrow -> detectPipeline env img = CvThrow) /\
  (forall img cs, edgeContours env img = CvOk cs ->
                  findContourPoints cs
                    (Qmin (800 / height img) (800 / width img))
                    (round (height img * Qmin (800 / height img) (800 / width img)) *
                     round (width img * Qmin (800 / height img) (800 / width img)))
                  = None ->
                  threshContours env img = CvThrow ->
                  detectPipeline env img = CvThrow).
Proof.
  split.
  { unfold detectDocumentCorners.
    destruct (fst (waitForCV (window_at env) 0%Z defaultRetries)); [|now eexists].
    destruct (decode env url) as [img|]; [|now eexists].
    destruct (detectPipeline env img); now eexists. }
  split.
  { intros H.
    assert (E : waitForCV (window_at env) 0%Z defaultRetries = (false, 30000%Z)).
    { rewrite waitForCV_never; [reflexivity|].
      intros k Hk. apply H. exact Hk. }
    split; [exact E|].
    unfold detectDocumentCorners. now rewrite E. }
  split.
  { intros H. unfold detectDocumentCorners.
    destruct (fst (waitForCV (window_at env) 0%Z defaultRetries)); [|reflexivity].
    now rewrite H. }
  split.
  { intros img Hd Hp. unfold detectDocumentCorners.
    destruct (fst (waitForCV (window_at env) 0%Z defaultRetries)); [|reflexivity].
    now rewrite Hd, Hp. }
  split.
  { intros img H. unfold detectPipeline. now rewrite H. }
  { intros img cs H1 H2 H3. unfold detectPipeline. now rewrite H1, H2, H3. }
Qed.

Lemma detectDocumentCorners_absorbs_failures_witness :
  (forall k : nat, (k <= 300)%nat ->
                   cvLoaded (window_at offline (100 * Z.of_nat k)%Z) = false) /\
  detectDocumentCorners offline page = Resolved None /\
  decode unreadable page = None /\
  detectDocumentCorners unreadable page = Resolved None /\
  detectPipeline crashing {| width := 1000; height := 800 |} = CvThrow /\
  detectDocumentCorners crashing page = Resolved None.
Proof.
  assert (H : forall k : nat, (k <= 300)%nat ->
                cvLoaded (window_at offline (100 * Z.of_nat k)%Z) = false)
    by (intros k _; reflexivity).
  assert (P : detectPipeline crashing {| width := 1000; height := 800 |} = CvThrow).
  { exact (proj2 (proj2 (proj2 (proj2 (proj2
             (detectDocumentCorners_absorbs_failures crashing page)))))
             {| width := 1000; height := 800 |} [] eq_refl eq_refl eq_refl). }
  split; [exact H|].
  split; [exact (proj2 (proj1 (proj2
                   (detectDocumentCorners_absorbs_failures offline page)) H))|].
  split; [reflexivity|].
  split; [exact (proj1 (proj2 (proj2
                   (detectDocumentCorners_absorbs_failures unreadable page))) eq_refl)|].
  split; [exact P|].
  exact (proj1 (proj2 (proj2 (proj2
           (detectDocumentCorners_absorbs_failures crashing page))))
           {| width := 1000; height := 800 |} eq_refl P).
Defined.

(** ** Callers of the detector *)

(** C8, as stated, fails: [autoCropImage] is a caller of the detector, and
    when detection answers [null] it hands back the URL it was given; it
    crops nothing, and in particular not the default quadrilateral. *)
Lemma autoCropImage_no_default_quadrilateral :
  detectDocumentCorners studio page = Resolved None /\
  autoCropImage studio page = Resolved page /\
  autoCropImage studio page <>
  applyPerspectiveCrop studio page (defaultPoints 1000 800).
Proof.
  assert (D : detectDocumentCorners studio page = Resolved None) by reflexivity.
  split; [exact D|].
  assert (A : autoCropImage studio page = Resolved page)
    by (unfold autoCropImage; now rewrite D).
  split; [exact A|].
  rewrite A. unfold applyPerspectiveCrop.
  rewrite waitForCV_ready by reflexivity. simpl.
  destruct (cropRequest (defaultPoints 1000 800)) as [req|]; [|discriminate].
  intros E. injection E as E. symmetry in E. now apply WarpPng_fresh in E.
Qed.

(** C8 (amended).  When detection answers [null], the editor's
    [handlePerformAutoDetection] sets the quadrilateral with corners at
    (10%, 10%), (90%, 10%), (90%, 90%) and (10%, 90%) of the natural width and
    height, while [autoCropImage] resolves to the URL it was given. *)
Theorem detection_null_callers
    (env : Env) (url : ImageUrl) (s : State) (img : ImgElement) :
  detectDocumentCorners env url = Resolved None ->
  imageRef s = Some img ->
  points (handlePerformAutoDetection env url s) =
    Some [ mkPoint (naturalWidth img * (1 # 10)) (naturalHeight img * (1 # 10));
           mkPoint (naturalWidth img * (9 # 10)) (naturalHeight img * (1 # 10));
           mkPoint (naturalWidth img * (9 # 10)) (naturalHeight img * (9 # 10));
           mkPoint (naturalWidth img * (1 # 10)) (naturalHeight img * (9 # 10)) ] /\
  isProcessing (handlePerformAutoDetection env url s) = false /\
  autoCropImage env url = Resolved url.
Proof.
  intros D I. unfold handlePerformAutoDetection, autoCropImage.
  rewrite I, D. simpl. repeat split.
Qed.

Lemma detection_null_callers_witness :
  detectDocumentCorners studio page = Resolved None /\
  imageRef idle =
    Some {| rectWidth := 500; naturalWidth := 1000; naturalHeight := 800 |} /\
  points (handlePerformAutoDetection studio page idle) =
    Some [ mkPoint (1000 * (1 # 10)) (800 * (1 # 10));
           mkPoint (1000 * (9 # 10)) (800 * (1 # 10));
           mkPoint (1000 * (9 # 10)) (800 * (9 # 10));
           mkPoint (1000 * (1 # 10)) (800 * (9 # 10)) ] /\
  autoCropImage studio page = Resolved page.
Proof.
  split; [reflexivity|]. split; [reflexivity|].
  pose proof (@detection_null_callers studio page idle _ eq_refl eq_refl)
    as (Hp & _ & Ha).
  split; [exact Hp|exact Ha].
Defined.

(** ** [handleSave] *)

(** C4.  [handleSave] applies one transform to the current image: with the
    crop tool active and a quadrilateral present, the perspective crop,
    whatever brightness, contrast and rotation are; otherwise, when
    brightness is not 100 or contrast is not 100 or rotation is not 0, the
    image adjustments; otherwise none, and the current image is passed on.
    The URL handed to [onUpdate] is the current image or the result of one
    transform of the current image, and it is the one the chosen transform
    resolves to: [onUpdate] is called with [u] exactly when that transform
    resolves to [u], and the alert is shown exactly when it is rejected. *)
Theorem handleSave_one_transform (env : Env) (s : State) :
  (forall pts, activeTool s = crop -> points s = Some pts ->
               finalUrl env s = applyPerspectiveCrop env (currentImage s) pts) /\
  (activeTool s <> crop \/ points s = None ->
   brightness s <> 100%Z \/ contrast s <> 100%Z \/ rotation s <> 0%Z ->
   finalUrl env s =
   applyImageAdjustments env (currentImage s) (brightness s) (contrast s) (rotation s)) /\
  (activeTool s <> crop \/ points s = None ->
   brightness s = 100%Z -> contrast s = 100%Z -> rotation s = 0%Z ->
   finalUrl env s = Resolved (currentImage s) /\
   handleSave env s = Updated (currentImage s)) /\
  (forall u, handleSave env s = Updated u ->
             u = currentImage s \/
             (exists req, u = WarpPng (currentImage s) req) \/
             (exists canvas, u = CanvasPng (currentImage s) canvas)) /\
  (forall u, handleSave env s = Updated u <-> finalUrl env s = Resolved u) /\
  (handleSave env s = Alerted <-> finalUrl env s = Rejected) /\
  (handleSave env s = Waiting <-> finalUrl env s = Pending) /\
  (forall pts, activeTool s = crop -> points s = Some pts ->
     handleSave env s = Alerted \/
     exists req, cropRequest pts = Some req /\
                 handleSave env s = Updated (WarpPng (currentImage s) req)) /\
  (forall img, activeTool s <> crop \/ points s = None ->
     brightness s <> 100%Z \/ contrast s <> 100%Z \/ rotation s <> 0%Z ->
     decode env (currentImage s) = Some img -> context2d env = true ->
     handleSave env s =
     Updated (CanvasPng (currentImage s)
                (adjustCanvas img (brightness s) (contrast s) (rotation s)))).
Proof.
  assert (Hno : activeTool s <> crop \/ points s = None ->
                (if is_crop (activeTool s) then points s else None) = None).
  { intros [H|H].
    - destruct (activeTool s); trivial. now elim H.
    - rewrite H. now destruct (is_crop (activeTool s)). }
  split.
  { intros pts Ht Hp. unfold finalUrl. now rewrite Ht, Hp. }
  split.
  { intros Hc Ha. unfold finalUrl. rewrite (Hno Hc).
    destruct (brightness s =? 100)%Z eqn:Eb; [|reflexivity].
    destruct (contrast s =? 100)%Z eqn:Ec; [|reflexivity].
    destruct (rotation s =? 0)%Z eqn:Er; [|reflexivity].
    apply Z.eqb_eq in Eb, Ec, Er. tauto. }
  split.
  { intros Hc Hb Hk Hr.
    assert (E : finalUrl env s = Resolved (currentImage s)).
    { unfold finalUrl. rewrite (Hno Hc), Hb, Hk, Hr. reflexivity. }
    split; [exact E|]. unfold handleSave. now rewrite E. }
  split.
  { intros u. unfold handleSave, finalUrl.
    destruct (if is_crop (activeTool s) then points s else None) as [pts|].
    - unfold applyPerspectiveCrop.
      destruct (fst (waitForCV (window_at env) 0%Z defaultRetries)); try discriminate.
      destruct (decode env (currentImage s)); try discriminate.
      destruct (cropRequest pts) as [req|]; try discriminate.
      destruct (warpThrows env (currentImage s) req); try discriminate.
      intros E. injection E as <-. right. left. now exists req.
    - destruct (negb (brightness s =? 100)%Z || negb (contrast s =? 100)%Z
                || negb (rotation s =? 0)%Z).
      + unfold applyImageAdjustments.
        destruct (decode env (currentImage s)); try discriminate.
        destruct (context2d env); try discriminate.
        intros E. injection E as <-. right. right. now eexists.
      + intros E. injection E as <-. now left. }
  split.
  { intros u. unfold handleSave. destruct (finalUrl env s); split; congruence. }
  split.
  { unfold handleSave. destruct (finalUrl env s); split; congruence. }
  split.
  { unfold handleSave. destruct (finalUrl env s); split; congruence. }
  split.
  { intros pts Ht Hp. unfold handleSave, finalUrl. rewrite Ht, Hp. simpl.
    destruct (applyPerspectiveCrop_cases env (currentImage s) pts)
      as [R|(req & Q1 & _ & Q2)].
    - rewrite R. now left.
    - rewrite Q2. right. now exists req. }
  { intros img Hc Ha Hd Hx. unfold handleSave.
    assert (E : finalUrl env s =
                applyImageAdjustments env (currentImage s)
                  (brightness s) (contrast s) (rotation s)).
    { unfold finalUrl. rewrite (Hno Hc).
      destruct (brightness s =? 100)%Z eqn:Eb; [|reflexivity].
      destruct (contrast s =? 100)%Z eqn:Ec; [|reflexivity].
      destruct (rotation s =? 0)%Z eqn:Er; [|reflexivity].
      apply Z.eqb_eq in Eb, Ec, Er. tauto. }
    rewrite E. unfold applyImageAdjustments. now rewrite Hd, Hx. }
Qed.

Lemma handleSave_one_transform_witness :
  (activeTool dragging = crop /\ points dragging = Some kite /\
   brightness dragging = 150%Z /\
   finalUrl studio dragging = applyPerspectiveCrop studio page kite /\
   exists req, cropRequest kite = Some req /\
               handleSave studio dragging = Updated (WarpPng page req)) /\
  ((activeTool adjusting <> crop \/ points adjusting = None) /\
   (brightness adjusting <> 100%Z \/ contrast adjusting <> 100%Z \/
    rotation adjusting <> 0%Z) /\
   finalUrl studio adjusting = applyImageAdjustments studio page 100 100 90 /\
   handleSave studio adjusting =
   Updated (CanvasPng page (adjustCanvas {| width := 1000; height := 800 |} 100 100 90))) /\
  ((activeTool idle <> crop \/ points idle = None) /\
   handleSave studio idle = Updated page).
Proof.
  split.
  { split; [reflexivity|]. split; [reflexivity|]. split; [reflexivity|].
    split;
      [exact (proj1 (handleSave_one_transform studio dragging) kite eq_refl eq_refl)|].
    destruct (proj1 (proj2 (proj2 (proj2 (proj2 (proj2 (proj2 (proj2
                (handleSave_one_transform studio dragging))))))))
                kite eq_refl eq_refl) as [A|R]; [discriminate A|exact R]. }
  split.
  { assert (H1 : activeTool adjusting <> crop \/ points adjusting = None)
      by (left; discriminate).
    assert (H2 : brightness adjusting <> 100%Z \/ contrast adjusting <> 100%Z \/
                 rotation adjusting <> 0%Z) by (right; right; discriminate).
    split; [exact H1|]. split; [exact H2|].
    split; [exact (proj1 (proj2 (handleSave_one_transform studio adjusting)) H1 H2)|].
    exact (proj2 (proj2 (proj2 (proj2 (proj2 (proj2 (proj2 (proj2
             (handleSave_one_transform studio adjusting))))))))
             {| width := 1000; height := 800 |} H1 H2 eq_refl eq_refl). }
  { assert (H1 : activeTool idle <> crop \/ points idle = None)
      by (left; discriminate).
    split; [exact H1|].
    exact (proj2 (proj1 (proj2 (proj2 (handleSave_one_transform studio idle)))
                    H1 eq_refl eq_refl eq_refl)). }
Defined.

(** ** Dragging a corner *)

Lemma clamp_spec (hi v : Q) :
  0 <= hi ->
  (0 <= clamp hi v /\ clamp hi v <= hi) /\
  (hi <= v -> clamp hi v == hi) /\
  (v <= 0 -> clamp hi v == 0) /\
  (0 <= v -> v <= hi -> clamp hi v == v).
Proof.
  intros Hhi. unfold clamp.
  destruct (Q.min_spec hi v) as [[H1 E1]|[H1 E1]];
    destruct (Q.max_spec 0 (Qmin hi v)) as [[H2 E2]|[H2 E2]];
    rewrite E2; rewrite ?E1 in *; repeat split; intros; lra.
Qed.

Lemma set_nth_same (A : Type) (v : A) (l : list A) :
  forall i, (i < List.length l)%nat -> nth_error (set_nth i v l) i = Some v.
Proof.
  induction l as [|h t IH]; intros [|i] H; simpl in *; try lia; trivial.
  apply IH. lia.
Qed.

Lemma set_nth_other (A : Type) (v : A) (l : list A) :
  forall i j, j <> i -> nth_error (set_nth i v l) j = nth_error l j.
Proof.
  induction l as [|h t IH]; intros [|i] [|j] H; simpl; trivial.
  - now elim H.
  - apply IH. congruence.
Qed.

Lemma set_nth_length (A : Type) (v : A) (l : list A) :
  forall i, List.length (set_nth i v l) = List.length l.
Proof.
  induction l as [|h t IH]; intros [|i]; simpl; trivial.
  now rewrite IH.
Qed.

(** C9.  During a corner drag, a pointer move sets the quadrilateral to the
    snapshot taken at the start of the drag with the dragged corner replaced:
    its new position is the snapshot position plus the pointer's displacement
    times naturalWidth / displayedWidth, each coordinate clamped into
    [0, naturalWidth] and [0, naturalHeight].  A displacement that carries a
    coordinate past a bound lands it on the bound, and the other corners are
    those of the snapshot. *)
Theorem handleWindowMouseMove_drag
    (e : MouseEvent) (s : State) (img : ImgElement)
    (current snapshot : list Point) (index : nat) (p : Point) :
  isPanning s = false ->
  isDragging s = true ->
  points s = Some current ->
  initialPointsRef s = Some snapshot ->
  dragInfo s = Some index ->
  imageRef s = Some img ->
  nth_error snapshot index = Some p ->
  0 < rectWidth img -> 0 <= naturalWidth img -> 0 <= naturalHeight img ->
  let scale := naturalWidth img / rectWidth img in
  let x := px p + (clientX e - px (dragStartPosRef s)) * scale in
  let y := py p + (clientY e - py (dragStartPosRef s)) * scale in
  exists moved q,
    points (handleWindowMouseMove e s) = Some moved /\
    nth_error moved index = Some q /\
    px q = Qmax 0 (Qmin (naturalWidth img) x) /\
    py q = Qmax 0 (Qmin (naturalHeight img) y) /\
    (0 <= px q /\ px q <= naturalWidth img) /\
    (0 <= py q /\ py q <= naturalHeight img) /\
    (naturalWidth img <= x -> px q == naturalWidth img) /\
    (x <= 0 -> px q == 0) /\
    (naturalHeight img <= y -> py q == naturalHeight img) /\
    (y <= 0 -> py q == 0) /\
    List.length moved = List.length snapshot /\
    (forall j, j <> index -> nth_error moved j = nth_error snapshot j).
Proof.
  intros Hpan Hdrag Hpts Hinit Hinfo Himg Hp Hrect Hw Hh scale x y.
  unfold handleWindowMouseMove.
  rewrite Hpan, Hdrag, Hpts, Hinit, Hinfo, Himg, Hp.
  fold scale. fold x. fold y.
  exists (set_nth index (mkPoint (clamp (naturalWidth img) x)
                                 (clamp (naturalHeight img) y)) snapshot).
  exists (mkPoint (clamp (naturalWidth img) x) (clamp (naturalHeight img) y)).
  destruct (clamp_spec x Hw) as (Bx & Ux & Lx & _).
  destruct (clamp_spec y Hh) as (By & Uy & Ly & _).
  simpl.
  split; [reflexivity|].
  split.
  { apply set_nth_same. apply nth_error_Some. congruence. }
  split; [reflexivity|]. split; [reflexivity|].
  split; [exact Bx|]. split; [exact By|].
  split; [exact Ux|]. split; [exact Lx|].
  split; [exact Uy|]. split; [exact Ly|].
  split; [apply set_nth_length|].
  intros j Hj. now apply set_nth_other.
Qed.

Lemma handleWindowMouseMove_drag_witness :
  0 < (500 : Q) /\
  nth_error kite 2 = Some (mkPoint 11 12) /\
  exists moved q,
    points (handleWindowMouseMove {| clientX := 1300; clientY := 100 |} dragging) =
      Some moved /\
    nth_error moved 2 = Some q /\
    px q == 1000 /\ py q == 0 /\
    nth_error moved 0 = Some (mkPoint 0 1) /\
    nth_error moved 1 = Some (mkPoint 10 0) /\
    nth_error moved 3 = Some (mkPoint 1 11).
Proof.
  split; [reflexivity|]. split; [reflexivity|].
  destruct (@handleWindowMouseMove_drag {| clientX := 1300; clientY := 100 |}
              dragging _ kite kite 2 (mkPoint 11 12)
              eq_refl eq_refl eq_refl eq_refl eq_refl eq_refl eq_refl
              eq_refl (Qle_bool_imp_le 0 1000 eq_refl) (Qle_bool_imp_le 0 800 eq_refl))
    as (moved & q & Hm & Hq & _ & _ & _ & _ & Hx & _ & _ & Hy & _ & Ho).
  exists moved, q.
  split; [exact Hm|]. split; [exact Hq|].
  split; [apply Hx; apply Qle_bool_imp_le; reflexivity|].
  split; [apply Hy; apply Qle_bool_imp_le; reflexivity|].
  split; [apply (Ho 0%nat); discriminate|].
  split; [apply (Ho 1%nat); discriminate|].
  apply (Ho 3%nat); discriminate.
Defined.

(** ** [applyImageAdjustments] *)



(** The layer that [applyImageAdjustments] draws. *)
Lemma adjustCanvas_layers (img : Image) (brightness contrast rotation : Z) :
  exists layer,
    c_layers (adjustCanvas img brightness contrast rotation) = [layer] /\
    l_filter layer = (brightness, contrast) /\
    l_w layer = Q2R (width img) /\ l_h layer = Q2R (height img) /\
    forall i j : R,
      place layer i j =
      (cos (rads rotation) * (i - Q2R (width img) / 2)
       - sin (rads rotation) * (j - Q2R (height img) / 2)
       + newWidth img rotation / 2,
       sin (rads rotation) * (i - Q2R (width img) / 2)
       + cos (rads rotation) * (j - Q2R (height img) / 2)
       + newHeight img rotation / 2)%R.
Proof.
  eexists. split; [reflexivity|]. split; [reflexivity|].
  split; [reflexivity|]. split; [reflexivity|].
  intros i j. unfold place, apply. simpl. f_equal; field.
Qed.




Lemma shows_single_layer (canvas : Canvas) (layer : Layer) (p : R * R) :
  c_layers canvas = [layer] -> c_fill canvas = None ->
  (~ covers layer p -> shows canvas p Transparent) /\
  (forall colour, ~ shows canvas p (Fill colour)).
Proof.
  intros Hl Hf. unfold shows. rewrite Hl, Hf. split.
  - intros N. right. split; [|reflexivity].
    intros E. inversion E as [? ? H|? ? H]; subst; [contradiction|inversion H].
  - intros colour [[_ H]|[_ H]]; discriminate.
Qed.

Lemma rads_45 : rads 45 = (PI / 4)%R.
Proof.
  unfold rads. change (Z.rem 45 360) with 45%Z. lra.
Qed.

(** The function outside the rotations the editor asks for: it has no
    background to paint.  Called with 45 degrees, which nothing in the
    program does, it would leave the corner (0, 0) of the canvas of the
    1000 x 800 image outside the image and transparent. *)
Lemma applyImageAdjustments_corner_not_white :
  exists canvas,
    applyImageAdjustments studio page 100 100 45 = Resolved (CanvasPng page canvas) /\
    (0 < c_width canvas)%R /\ (0 < c_height canvas)%R /\
    shows canvas (0, 0)%R Transparent /\
    ~ shows canvas (0, 0)%R (Fill "white").
Proof.
  set (img := {| width := 1000; height := 800 |}).
  exists (adjustCanvas img 100 100 45).
  split; [reflexivity|].
  assert (Hw : Q2R (width img) = 1000%R) by (unfold Q2R; simpl; lra).
  assert (Hh : Q2R (height img) = 800%R) by (unfold Q2R; simpl; lra).
  assert (Hk : (0 < 1 / sqrt 2)%R).
  { apply Rdiv_lt_0_compat; [lra|]. apply sqrt_lt_R0. lra. }
  assert (Hs : sin (rads 45) = (1 / sqrt 2)%R) by (rewrite rads_45; apply sin_PI4).
  assert (Hc : cos (rads 45) = (1 / sqrt 2)%R) by (rewrite rads_45; apply cos_PI4).
  assert (HW : newWidth img 45 = (1800 * (1 / sqrt 2))%R).
  { unfold newWidth. rewrite Hw, Hh, Hs, Hc, Rabs_pos_eq by lra. lra. }
  assert (HH : newHeight img 45 = (1800 * (1 / sqrt 2))%R).
  { unfold newHeight. rewrite Hw, Hh, Hs, Hc, Rabs_pos_eq by lra. lra. }
  destruct (adjustCanvas_layers img 100 100 45)
    as (layer & Hl & _ & Hlw & Hlh & Hplace).
  destruct (@shows_single_layer (adjustCanvas img 100 100 45) layer (0, 0)%R Hl eq_refl)
    as [Ht Hf].
  split; [change (0 < newWidth img 45)%R; rewrite HW; lra|].
  split; [change (0 < newHeight img 45)%R; rewrite HH; lra|].
  split; [|apply Hf].
  apply Ht. intros (i & j & Hi & Hj & E).
  rewrite Hplace, HW, HH, Hw, Hh, Hs, Hc in E.
  rewrite Hlw, Hw in Hi.
  injection E as E1 E2.
  assert (P : (0 < 1 / sqrt 2 * (2 * i + 800))%R)
    by (apply Rmult_lt_0_compat; lra).
  lra.
Qed.





(* ================================================================== *)
(** * Further properties *)

(** ** [waitForCV] *)

(** X1.  [waitForCV] tests the engine at the start and then every 100 ms,
    and returns at the first test that finds it loaded; it throws only after
    [retries] waits, all tests having failed.  So it never takes longer than
    100 ms times [retries]. *)
Theorem waitForCV_first_ready (win : Z -> Window) :
  forall (retries : nat) (now : Z),
  exists k : nat,
    (k <= retries)%nat /\
    snd (waitForCV win now retries) = (now + 100 * Z.of_nat k)%Z /\
    (forall j : nat, (j < k)%nat -> cvLoaded (win (now + 100 * Z.of_nat j)%Z) = false) /\
    fst (waitForCV win now retries) = cvLoaded (win (now + 100 * Z.of_nat k)%Z) /\
    (fst (waitForCV win now retries) = false -> k = retries).
Proof.
  assert (Z0 : forall now : Z, (now + 100 * Z.of_nat 0)%Z = now)
    by (intros; simpl; lia).
  assert (ZS : forall (now : Z) (k : nat),
             (now + 100 * Z.of_nat (S k))%Z = (now + 100 + 100 * Z.of_nat k)%Z)
    by (intros; lia).
  induction retries as [|r IH]; intros now.
  - exists 0%nat. rewrite Z0. cbn [waitForCV].
    destruct (cvLoaded (win now)) eqn:E; cbn [fst snd];
      repeat split; trivial; intros; lia.
  - cbn [waitForCV]. destruct (cvLoaded (win now)) eqn:E.
    + exists 0%nat. rewrite Z0, E. cbn [fst snd].
      repeat split; trivial; try discriminate; intros; lia.
    + destruct (IH (now + 100)%Z) as (k & Hk & Ht & Hbefore & Hok & Hfail).
      exists (S k). rewrite ZS.
      split; [lia|]. split; [exact Ht|]. split.
      { intros [|j] Hj.
        - now rewrite Z0.
        - rewrite ZS. apply Hbefore. lia. }
      split; [exact Hok|].
      intros H. f_equal. now apply Hfail.
Qed.

(** ** [sortPoints] on any four points *)

(** X2.  On any four points, ties included, [sortPoints] returns the same
    four points as [tl; tr; br; bl] with tl not right of tr, bl not right of
    br, and neither of tl, tr below either of br, bl; sorting the result
    again changes nothing. *)
Theorem sortPoints_four_points (l : list Point) :
  List.length l = 4%nat ->
  exists tl tr br bl,
    sortPoints l = [tl; tr; br; bl] /\
    Permutation [tl; tr; br; bl] l /\
    px tl <= px tr /\ px bl <= px br /\
    py tl <= py br /\ py tl <= py bl /\ py tr <= py br /\ py tr <= py bl /\
    sortPoints (sortPoints l) = sortPoints l.
Proof.
  intros Hl.
  destruct (sortPoints_four l Hl) as (s0 & s1 & s2 & s3 & Hs & Hr).
  assert (S : StronglySorted (fun p q => py p <= py q) [s0; s1; s2; s3])
    by (rewrite <- Hs; apply (sort_sorted py)).
  inversion S as [|? ? S1 F0]; subst.
  inversion S1 as [|? ? S2 F1]; subst.
  inversion S2 as [|? ? _ F2]; subst.
  inversion F0 as [|? ? l01 _]; subst.
  inversion F1 as [|? ? l12 _]; subst.
  inversion F2 as [|? ? l23 _]; subst.
  pose proof (sortPoints_perm l Hl) as P.
  pose proof (Permutation_length P) as Hlen. rewrite Hl in Hlen.
  destruct (sortPoints l) as [|tl [|tr [|br [|bl [|? ?]]]]] eqn:E; try discriminate.
  symmetry in Hr.
  destruct (@sortPoints_of_sorted s0 s1 s2 s3 l01 l12 l23 _ _ _ _ Hr)
    as (Hfix & x01 & x32 & y02 & y03 & y12 & y13).
  exists tl, tr, br, bl. repeat split; trivial.
Qed.

Lemma sortPoints_four_points_witness :
  List.length skew_permuted = 4%nat /\
  sortPoints (sortPoints skew_permuted) = sortPoints skew_permuted.
Proof.
  split; [reflexivity|].
  destruct (@sortPoints_four_points skew_permuted eq_refl)
    as (tl & tr & br & bl & _ & _ & _ & _ & _ & _ & _ & _ & H).
  exact H.
Defined.

(** ** Failures of [applyPerspectiveCrop] *)

Lemma sortPoints_length (l : list Point) :
  List.length (sortPoints l) = Nat.min (List.length l) 4.
Proof.
  unfold sortPoints. rewrite <- (sort_length by_y l).
  destruct (sort by_y l) as [|a [|b [|c [|d rest]]]];
    unfold slice, at_index; simpl; split_cmp; simpl; lia.
Qed.

Lemma cropRequest_none (l : list Point) :
  cropRequest l = None <-> (List.length l < 4)%nat.
Proof.
  unfold cropRequest. pose proof (sortPoints_length l) as H.
  destruct (sortPoints l) as [|s0 [|s1 [|s2 [|s3 [|? ?]]]]]; simpl in H;
    split; intros N; try reflexivity; try discriminate; try lia.
Qed.

(** X3.  [applyPerspectiveCrop] rejects in exactly four cases: the engine
    is not loaded by the end of the wait, the image does not decode, fewer
    than four points are given, or the engine throws on the request. *)
Theorem applyPerspectiveCrop_rejects (env : Env) (url : ImageUrl) (l : list Point) :
  applyPerspectiveCrop env url l = Rejected <->
  fst (waitForCV (window_at env) 0%Z defaultRetries) = false \/
  decode env url = None \/
  (List.length l < 4)%nat \/
  exists req, cropRequest l = Some req /\ warpThrows env url req = true.
Proof.
  unfold applyPerspectiveCrop.
  destruct (fst (waitForCV (window_at env) 0%Z defaultRetries)) eqn:W;
    [|split; [now left|reflexivity]].
  destruct (decode env url) as [img|] eqn:D;
    [|split; [right; now left|reflexivity]].
  destruct (cropRequest l) as [req|] eqn:C.
  - destruct (warpThrows env url req) eqn:T.
    + split; [|reflexivity]. intros _. right. right. right. now exists req.
    + split; [discriminate|].
      intros [H|[H|[H|(r & Hr & Ht)]]]; try discriminate.
      * apply cropRequest_none in H. congruence.
      * injection Hr as <-. congruence.
  - split; [|reflexivity]. intros _. right. right. left.
    now apply cropRequest_none.
Qed.

(** ** What the detector answers *)

Lemma candidate_shape (scale : Q) (c : Contour) :
  List.length (candidate scale c) = 4%nat /\ Forall integral (candidate scale c).
Proof.
  unfold candidate.
  destruct (List.length (approxPolyDP c) =? 4)%nat eqn:E.
  - apply Nat.eqb_eq in E. split.
    + unfold approxPoints. now rewrite length_map.
    + unfold approxPoints. apply Forall_forall. intros p Hp.
      apply in_map_iff in Hp. destruct Hp as (v & <- & _).
      unfold unscale, round. now eexists; eexists.
  - unfold rectPoints. destruct (minAreaRect c) as [[[v0 v1] v2] v3].
    split; [reflexivity|].
    repeat constructor; unfold unscale, round; now eexists; eexists.
Qed.

Lemma findContourPoints_candidate
    (contours : list Contour) (scale totalArea : Q) (pts : list Point) :
  findContourPoints contours scale totalArea = Some pts ->
  exists c, In c contours /\ pts = sortPoints (candidate scale c).
Proof.
  pose proof (@fold_visit_inv scale (totalArea * (1 # 100)) contours []
                {| bestPoints := None; maxArea := 0 |}) as H.
  simpl app in H.
  assert (H0 : search_inv scale (totalArea * (1 # 100)) []
                 {| bestPoints := None; maxArea := 0 |}).
  { split; simpl; [lra|]. split; [intros c []|reflexivity]. }
  specialize (H H0). destruct H as (_ & _ & Hbest).
  unfold findContourPoints.
  destruct (bestPoints (fold_left _ contours _)) as [best|]; [|discriminate].
  destruct Hbest as (c & Hin & _ & _ & _ & ->).
  intros E. injection E as <-. now exists c.
Qed.

Lemma sorted_candidate_shape (scale : Q) (c : Contour) :
  List.length (sortPoints (candidate scale c)) = 4%nat /\
  Forall integral (sortPoints (candidate scale c)) /\
  sortPoints (sortPoints (candidate scale c)) = sortPoints (candidate scale c).
Proof.
  destruct (candidate_shape scale c) as [Hl Hi].
  destruct (sortPoints_four_points_aux (candidate scale c) Hl) as [P Hfix].
  split; [now rewrite (Permutation_length P)|].
  split; [|exact Hfix].
  apply (Permutation_Forall (Permutation_sym P)). exact Hi.
Qed.

(** X4.  Whatever contours the engine reports, an answer of
    [findContourPoints] other than [null] is made of exactly four points
    with integer coordinates, in an order that [sortPoints] leaves as it
    is. *)
Theorem findContourPoints_shape
    (contours : list Contour) (scale totalArea : Q) (pts : list Point) :
  findContourPoints contours scale totalArea = Some pts ->
  List.length pts = 4%nat /\ Forall integral pts /\ sortPoints pts = pts.
Proof.
  intros H. apply findContourPoints_candidate in H.
  destruct H as (c & _ & ->). apply sorted_candidate_shape.
Qed.

Lemma findContourPoints_shape_witness :
  findContourPoints [quadContour; blobContour] 1 1000 =
    Some [mkPoint 0 0; mkPoint 30 0; mkPoint 30 30; mkPoint 0 30] /\
  sortPoints [mkPoint 0 0; mkPoint 30 0; mkPoint 30 30; mkPoint 0 30] =
    [mkPoint 0 0; mkPoint 30 0; mkPoint 30 30; mkPoint 0 30].
Proof.
  assert (E : findContourPoints [quadContour; blobContour] 1 1000 =
              Some [mkPoint 0 0; mkPoint 30 0; mkPoint 30 30; mkPoint 0 30])
    by reflexivity.
  split; [exact E|].
  exact (proj2 (proj2 (findContourPoints_shape _ _ _ E))).
Defined.

Lemma detectPipeline_unfold (env : Env) (img : Image) :
  detectPipeline env img =
  match edgeContours env img with
  | CvThrow => CvThrow
  | CvOk contours =>
      match findContourPoints contours (detectScale img)
              (resizedRows img * resizedCols img) with
      | Some pts => CvOk (Some pts)
      | None =>
          match threshContours env img with
          | CvThrow => CvThrow
          | CvOk contours2 =>
              CvOk (findContourPoints contours2 (detectScale img)
                      (resizedRows img * resizedCols img))
          end
      end
  end.
Proof. reflexivity. Qed.

(** X5.  In [detectDocumentCorners] the threshold pipeline is a fallback
    only: when the edge pipeline yields a quadrilateral, that is the answer,
    whatever the threshold pipeline would have found, or thrown.  Every
    quadrilateral the detector resolves to is made of four points with
    integer coordinates in an order that [sortPoints] leaves as it is. *)
Theorem detectDocumentCorners_stages (env : Env) (url : ImageUrl) :
  (forall img contours pts,
     fst (waitForCV (window_at env) 0%Z defaultRetries) = true ->
     decode env url = Some img ->
     edgeContours env img = CvOk contours ->
     findContourPoints contours (detectScale img)
       (resizedRows img * resizedCols img) = Some pts ->
     detectDocumentCorners env url = Resolved (Some pts)) /\
  (forall pts,
     detectDocumentCorners env url = Resolved (Some pts) ->
     List.length pts = 4%nat /\ Forall integral pts /\ sortPoints pts = pts).
Proof.
  split.
  - intros img contours pts W D E F. unfold detectDocumentCorners.
    now rewrite W, D, detectPipeline_unfold, E, F.
  - intros pts. unfold detectDocumentCorners.
    destruct (fst (waitForCV (window_at env) 0%Z defaultRetries)); [|discriminate].
    destruct (decode env url) as [img|]; [|discriminate].
    rewrite detectPipeline_unfold.
    destruct (edgeContours env img) as [cs|]; [|discriminate].
    destruct (findContourPoints cs _ _) as [p1|] eqn:F1.
    + intros E. injection E as <-.
      apply findContourPoints_candidate in F1.
      destruct F1 as (c & _ & ->). apply sorted_candidate_shape.
    + destruct (threshContours env img) as [cs2|]; [|discriminate].
      destruct (findContourPoints cs2 _ _) as [p2|] eqn:F2; [|discriminate].
      intros E. injection E as <-.
      apply findContourPoints_candidate in F2.
      destruct F2 as (c & _ & ->). apply sorted_candidate_shape.
Qed.

Lemma detectDocumentCorners_stages_witness :
  threshContours edgy {| width := 1000; height := 800 |} = CvThrow /\
  detectDocumentCorners edgy page =
    Resolved (Some [mkPoint 100 80; mkPoint 900 80; mkPoint 900 720; mkPoint 100 720]) /\
  sortPoints [mkPoint 100 80; mkPoint 900 80; mkPoint 900 720; mkPoint 100 720] =
    [mkPoint 100 80; mkPoint 900 80; mkPoint 900 720; mkPoint 100 720].
Proof.
  split; [reflexivity|].
  assert (D : detectDocumentCorners edgy page =
              Resolved (Some [mkPoint 100 80; mkPoint 900 80;
                              mkPoint 900 720; mkPoint 100 720])).
  { exact (proj1 (detectDocumentCorners_stages edgy page)
             {| width := 1000; height := 800 |} [rectangleContour]
             [mkPoint 100 80; mkPoint 900 80; mkPoint 900 720; mkPoint 100 720]
             eq_refl eq_refl eq_refl eq_refl). }
  split; [exact D|].
  exact (proj2 (proj2 (proj2 (detectDocumentCorners_stages edgy page) _ D))).
Defined.

Lemma detectDocumentCorners_cases (env : Env) (url : ImageUrl) :
  detectDocumentCorners env url = Resolved None \/
  exists pts,
    detectDocumentCorners env url = Resolved (Some pts) /\
    List.length pts = 4%nat /\ sortPoints pts = pts.
Proof.
  unfold detectDocumentCorners.
  destruct (fst (waitForCV (window_at env) 0%Z defaultRetries)); [|now left].
  destruct (decode env url) as [img|]; [|now left].
  rewrite detectPipeline_unfold.
  destruct (edgeContours env img) as [cs|]; [|now left].
  destruct (findContourPoints cs _ _) as [p1|] eqn:F1.
  - right. exists p1. split; [reflexivity|].
    apply findContourPoints_candidate in F1. destruct F1 as (c & _ & ->).
    destruct (sorted_candidate_shape (detectScale img) c) as (H1 & _ & H2). now split.
  - destruct (threshContours env img) as [cs2|]; [|now left].
    destruct (findContourPoints cs2 _ _) as [p2|] eqn:F2; [|now left].
    right. exists p2. split; [reflexivity|].
    apply findContourPoints_candidate in F2. destruct F2 as (c & _ & ->).
    destruct (sorted_candidate_shape (detectScale img) c) as (H1 & _ & H2). now split.
Qed.

Lemma cropRequest_of_sorted (pts : list Point) :
  List.length pts = 4%nat -> sortPoints pts = pts ->
  exists req, cropRequest pts = Some req /\ w_srcCoords req = pts.
Proof.
  intros Hl Hs.
  destruct (cropRequest_four pts Hl) as (tl & tr & br & bl & E & C).
  eexists. split; [exact C|]. simpl. congruence.
Qed.

(** X6.  [autoCropImage] always settles.  It resolves to the URL it was
    given exactly when detection finds nothing; otherwise it is the crop of
    the detected quadrilateral, whose corners go to the engine as detected,
    the sort in [applyPerspectiveCrop] leaving them in place. *)
Theorem autoCropImage_outcomes (env : Env) (url : ImageUrl) :
  autoCropImage env url <> Pending /\
  (autoCropImage env url = Resolved url <->
   detectDocumentCorners env url = Resolved None) /\
  (forall pts,
     detectDocumentCorners env url = Resolved (Some pts) ->
     autoCropImage env url = applyPerspectiveCrop env url pts /\
     exists req, cropRequest pts = Some req /\ w_srcCoords req = pts).
Proof.
  destruct (detectDocumentCorners_cases env url) as [D|(pts & D & Hl & Hs)].
  - unfold autoCropImage. rewrite D. simpl.
    split; [discriminate|]. split; [tauto|]. discriminate.
  - unfold autoCropImage. rewrite D. simpl.
    destruct (applyPerspectiveCrop_cases env url pts) as [E|(req & _ & _ & E)].
    + rewrite E. split; [discriminate|]. split; [split; discriminate|].
      intros p E'. injection E' as <-. split; [now rewrite E|].
      now apply cropRequest_of_sorted.
    + rewrite E. split; [discriminate|]. split.
      * split; [|discriminate]. intros N. injection N as N.
        now apply WarpPng_fresh in N.
      * intros p E'. injection E' as <-. split; [now rewrite E|].
        now apply cropRequest_of_sorted.
Qed.

Lemma autoCropImage_outcomes_witness :
  detectDocumentCorners edgy page =
    Resolved (Some [mkPoint 100 80; mkPoint 900 80; mkPoint 900 720; mkPoint 100 720]) /\
  autoCropImage edgy page =
    applyPerspectiveCrop edgy page
      [mkPoint 100 80; mkPoint 900 80; mkPoint 900 720; mkPoint 100 720].
Proof.
  assert (D : detectDocumentCorners edgy page =
              Resolved (Some [mkPoint 100 80; mkPoint 900 80;
                              mkPoint 900 720; mkPoint 100 720])) by reflexivity.
  split; [exact D|].
  exact (proj1 (proj2 (proj2 (autoCropImage_outcomes edgy page)) _ D)).
Defined.

(** ** The first largest contour *)

Lemma fold_visit_below (scale thr : Q) (contours : list Contour) :
  forall st,
    (forall c, In c contours -> thr <= contourArea c -> contourArea c <= maxArea st) ->
    fold_left (visit scale thr) contours st = st.
Proof.
  induction contours as [|c rest IH]; intros st H; simpl; [reflexivity|].
  assert (E : visit scale thr st c = st).
  { unfold visit.
    destruct (Qlt_le_dec (contourArea c) thr) as [|Hge]; [reflexivity|].
    assert (G : greater (contourArea c) (maxArea st) = false).
    { apply greater_false. apply H; [now left|exact Hge]. }
    now rewrite G, andb_false_r. }
  rewrite E. apply IH. intros c' Hin. apply H. now right.
Qed.

(** X7.  Among the contours of at least 1% of the image, the first one that
    is at least as large as every other is the one [findContourPoints]
    takes: a later contour of the same area does not replace it. *)
Theorem findContourPoints_first_largest
    (before after : list Contour) (c : Contour) (scale totalArea : Q) :
  totalArea * (1 # 100) <= contourArea c ->
  0 < contourArea c ->
  (forall c', In c' before -> totalArea * (1 # 100) <= contourArea c' ->
              contourArea c' < contourArea c) ->
  (forall c', In c' after -> totalArea * (1 # 100) <= contourArea c' ->
              contourArea c' <= contourArea c) ->
  findContourPoints (before ++ c :: after) scale totalArea =
  Some (sortPoints (candidate scale c)).
Proof.
  intros Hthr Hpos Hbefore Hafter.
  unfold findContourPoints. rewrite fold_left_app. simpl fold_left.
  pose proof (@fold_visit_inv scale (totalArea * (1 # 100)) before []
                {| bestPoints := None; maxArea := 0 |}) as H.
  simpl app in H.
  assert (H0 : search_inv scale (totalArea * (1 # 100)) []
                 {| bestPoints := None; maxArea := 0 |}).
  { split; simpl; [lra|]. split; [intros x []|reflexivity]. }
  specialize (H H0). clear H0.
  set (st1 := fold_left (visit scale (totalArea * (1 # 100))) before
                {| bestPoints := None; maxArea := 0 |}) in *.
  destruct H as (_ & _ & Hbest).
  assert (Hlt : maxArea st1 < contourArea c).
  { destruct (bestPoints st1) as [b|].
    - destruct Hbest as (c' & Hin & Ht & _ & -> & _). now apply Hbefore.
    - now rewrite Hbest. }
  assert (E : visit scale (totalArea * (1 # 100)) st1 c =
              {| bestPoints := Some (candidate scale c); maxArea := contourArea c |}).
  { unfold visit, candidate.
    destruct (Qlt_le_dec (contourArea c) (totalArea * (1 # 100))); [lra|].
    assert (G : greater (contourArea c) (maxArea st1) = true)
      by now apply greater_spec.
    rewrite G.
    now destruct (List.length (approxPolyDP c) =? 4)%nat. }
  rewrite E, fold_visit_below; [reflexivity|].
  exact Hafter.
Qed.

Lemma findContourPoints_first_largest_witness :
  1000 * (1 # 100) <= contourArea quadContour /\
  0 < contourArea quadContour /\
  contourArea quadContour2 <= contourArea quadContour /\
  findContourPoints [quadContour; quadContour2] 1 1000 =
    Some (sortPoints (candidate 1 quadContour)).
Proof.
  assert (A : 1000 * (1 # 100) <= contourArea quadContour) by discriminate.
  assert (B : 0 < contourArea quadContour) by reflexivity.
  assert (C : contourArea quadContour2 <= contourArea quadContour) by discriminate.
  split; [exact A|]. split; [exact B|]. split; [exact C|].
  apply (@findContourPoints_first_largest [] [quadContour2] quadContour 1 1000 A B).
  - intros c' [].
  - intros c' [<-|[]] _. exact C.
Defined.

(** ** The resized image of the detector *)

Lemma round_exact (x : Q) (z : Z) : x == inject_Z z -> round x == inject_Z z.
Proof.
  intros E. unfold round.
  assert (E' : x + (1 # 2) == inject_Z z + (1 # 2)) by (rewrite E; reflexivity).
  rewrite (Qfloor_comp _ _ E').
  assert (H : Qfloor (inject_Z z + (1 # 2)) = z).
  { unfold Qfloor, Qplus, inject_Z. simpl Qnum. simpl Qden.
    change (Z.pos (1 * 2)%positive) with 2%Z.
    rewrite Z.mul_1_l, Z.div_add_l by lia. change (1 / 2)%Z with 0%Z. lia. }
  now rewrite H.
Qed.

Lemma round_mono (x y : Q) : x <= y -> round x <= round y.
Proof.
  intros H. unfold round. rewrite <- Zle_Qle.
  apply Qfloor_resp_le. lra.
Qed.

Lemma scaled_side (a : Q) : 0 < a -> a * (800 / a) == inject_Z 800.
Proof. intros H. change (inject_Z 800) with 800. field. lra. Qed.

(** X8.  The detector does not only shrink: it scales every image so that
    its longer side becomes exactly 800 pixels, the other side at most 800,
    and an image smaller than 800 on both sides is enlarged. *)
Theorem detect_resizes_to_800 (img : Image) :
  0 < width img -> 0 < height img ->
  detectScale img * Qmax (height img) (width img) == 800 /\
  Qmax (resizedRows img) (resizedCols img) == 800 /\
  (Qmax (height img) (width img) < 800 -> 1 < detectScale img).
Proof.
  intros Hw Hh. unfold resizedRows, resizedCols, detectScale.
  set (r := height img) in *. set (c := width img) in *.
  set (m := Qmin (800 / r) (800 / c)).
  assert (Er : r * (800 / r) == 800) by now apply scaled_side.
  assert (Ec : c * (800 / c) == 800) by now apply scaled_side.
  assert (Mr : r * m <= 800).
  { rewrite <- Er. apply Qmult_le_l; [exact Hh|apply Q.le_min_l]. }
  assert (Mc : c * m <= 800).
  { rewrite <- Ec. apply Qmult_le_l; [exact Hw|apply Q.le_min_r]. }
  assert (Pr : 0 < 800 / r) by (apply Qlt_shift_div_l; lra).
  assert (Pc : 0 < 800 / c) by (apply Qlt_shift_div_l; lra).
  assert (Mx : r * m == 800 /\ c <= r \/ c * m == 800 /\ r <= c).
  { destruct (Q.min_spec (800 / r) (800 / c)) as [[Hlt Em]|[Hle Em]]; fold m in Em.
    - left. split; [now rewrite Em|].
      destruct (Qlt_le_dec r c) as [Hrc|]; [|assumption].
      exfalso.
      assert (H1 : r * (800 / r) < c * (800 / r)) by (apply Qmult_lt_r; assumption).
      assert (H2 : c * (800 / r) < c * (800 / c)) by (apply Qmult_lt_l; assumption).
      lra.
    - right. split; [now rewrite Em|].
      destruct (Qlt_le_dec c r) as [Hcr|]; [|assumption].
      exfalso.
      assert (H1 : c * (800 / c) < r * (800 / c)) by (apply Qmult_lt_r; assumption).
      assert (H2 : r * (800 / c) <= r * (800 / r)) by (apply Qmult_le_l; assumption).
      lra. }
  assert (Rr : round (r * m) <= 800)
    by (apply Qle_trans with (round 800); [now apply round_mono|discriminate]).
  assert (Rc : round (c * m) <= 800)
    by (apply Qle_trans with (round 800); [now apply round_mono|discriminate]).
  split.
  { destruct Mx as [[E L]|[E L]].
    - rewrite (Q.max_l r c L). rewrite Qmult_comm. exact E.
    - rewrite (Q.max_r r c L). rewrite Qmult_comm. exact E. }
  split.
  { destruct Mx as [[E L]|[E L]].
    - apply (@round_exact _ 800%Z) in E. change (inject_Z 800) with 800 in E.
      rewrite Q.max_l; [exact E|]. rewrite E. exact Rc.
    - apply (@round_exact _ 800%Z) in E. change (inject_Z 800) with 800 in E.
      rewrite Q.max_r; [exact E|]. rewrite E. exact Rr. }
  intros H.
  assert (Pm : 0 < m).
  { unfold m. destruct (Q.min_spec (800 / r) (800 / c)) as [[_ ->]|[_ ->]]; assumption. }
  destruct (Qlt_le_dec 1 m) as [|Hm]; [assumption|exfalso].
  destruct Mx as [[E L]|[E L]].
  - rewrite (Q.max_l r c L) in H.
    assert (H1 : r * m <= r * 1) by (apply Qmult_le_l; assumption). lra.
  - rewrite (Q.max_r r c L) in H.
    assert (H1 : c * m <= c * 1) by (apply Qmult_le_l; assumption). lra.
Qed.

Lemma detect_resizes_to_800_witness :
  0 < width {| width := 400; height := 300 |} /\
  0 < height {| width := 400; height := 300 |} /\
  Qmax (resizedRows {| width := 400; height := 300 |})
       (resizedCols {| width := 400; height := 300 |}) == 800 /\
  1 < detectScale {| width := 400; height := 300 |}.
Proof.
  split; [reflexivity|]. split; [reflexivity|].
  destruct (@detect_resizes_to_800 {| width := 400; height := 300 |} eq_refl eq_refl)
    as (_ & H & U).
  split; [exact H|]. apply U. reflexivity.
Defined.

(* ------------------------------------------------------------------ *)
(** ** The zoom buttons *)

Lemma zoomClick_range (c : ZoomClick) (z : Q) :
  (2 # 10) <= z -> z <= 5 -> (2 # 10) <= zoomClick c z /\ zoomClick c z <= 5.
Proof.
  intros L U. destruct c; simpl; unfold zoomOut, zoomIn.
  - destruct (Q.max_spec (2 # 10) (z - (2 # 10))) as [[A ->]|[A ->]]; lra.
  - destruct (Q.min_spec 5 (z + (2 # 10))) as [[A ->]|[A ->]]; lra.
Qed.

Lemma zoomClicks_range (clicks : list ZoomClick) :
  forall z, (2 # 10) <= z -> z <= 5 ->
            (2 # 10) <= zoomClicks clicks z /\ zoomClicks clicks z <= 5.
Proof.
  induction clicks as [|c t IH]; intros z L U; simpl.
  - split; assumption.
  - destruct (zoomClick_range c L U) as [L' U']. apply IH; assumption.
Qed.

(** X9.  From the zoom of 1 that the editor opens with, no sequence of clicks
    on the two zoom buttons takes the zoom out of [0.2, 5]; so the radius
    [25 / zoom] within which [handleMouseDown] picks a corner stays between
    5 and 125 screen pixels, and the division is never by zero. *)
Theorem zoom_stays_in_range (url : ImageUrl) (x : Session) (clicks : list ZoomClick) :
  let z := zoomClicks clicks (zoom (openEditor url x)) in
  ((2 # 10) <= z /\ z <= 5) /\ (5 <= 25 / z /\ 25 / z <= 125).
Proof.
  intro z.
  assert (R : (2 # 10) <= z /\ z <= 5).
  { apply zoomClicks_range; simpl; lra. }
  destruct R as [L U]. split; [split; assumption|].
  assert (P : 0 < z) by lra.
  split.
  - apply Qle_shift_div_l; [exact P|lra].
  - apply Qle_shift_div_r; [exact P|lra].
Qed.

(* ------------------------------------------------------------------ *)
(** ** Pressing the mouse button *)

Lemma pick_hit (rect : ImgRect) (scale radius : Q) (e : MouseEvent) (pts : list Point) :
  forall n i k,
    pick rect scale radius e pts i n = Hit k ->
    (i <= k < i + n)%nat /\
    (exists p, nth_error pts k = Some p /\ near rect scale radius e p) /\
    (forall j q, (i <= j < k)%nat -> nth_error pts j = Some q ->
                 ~ near rect scale radius e q).
Proof.
  induction n as [|n IH]; intros i k H; simpl in H; [discriminate|].
  destruct (nth_error pts i) as [p|] eqn:E; [|discriminate].
  destruct (Rlt_dec _ _) as [N|N].
  - inversion H; subst k. split; [lia|]. split.
    + exists p. split; [exact E|exact N].
    + intros j q B. lia.
  - destruct (IH _ _ H) as (B & P & F). split; [lia|]. split; [exact P|].
    intros j q Bj Ej. destruct (Nat.eq_dec j i) as [->|D].
    + rewrite E in Ej. inversion Ej; subst q. exact N.
    + apply (F j q); [lia|exact Ej].
Qed.

(** What a press that starts a drag has found. *)
Lemma handleMouseDown_started (rect : ImgRect) (e : MouseEvent) (x : Session) :
  isDragging (st x) = false ->
  isDragging (st (handleMouseDown rect e x)) = true ->
  exists img pts i p,
    imageRef (st x) = Some img /\ points (st x) = Some pts /\
    activeTool (st x) = crop /\ Editor.isProcessing (st x) = false /\
    isSpacePressed x = false /\
    (i < 4)%nat /\ nth_error pts i = Some p /\
    near rect (shownScale img) (25 / zoom x) e p /\
    (forall j q, (j < i)%nat -> nth_error pts j = Some q ->
                 ~ near rect (shownScale img) (25 / zoom x) e q) /\
    handleMouseDown rect e x = withState (startDragging i e pts) x.
Proof.
  intros D0 D1. unfold handleMouseDown in *.
  destruct (Editor.isProcessing (st x)) eqn:Pr; [congruence|].
  destruct (imageRef (st x)) as [img|] eqn:Im; [|congruence].
  destruct (points (st x)) as [pts|] eqn:Pt; [|congruence].
  destruct (isSpacePressed x) eqn:Sp; [simpl in D1; congruence|].
  destruct (activeTool (st x)) eqn:T;
    [simpl in D1; congruence| |simpl in D1; congruence].
  cbn [orb is_crop] in *. fold (shownScale img) in *.
  destruct (pick rect (shownScale img) (25 / zoom x) e pts 0 4) as [i| |] eqn:Pk;
    [|congruence|congruence].
  destruct (pick_hit _ _ _ _ _ _ _ Pk) as (B & (p & Ep & Np) & F).
  exists img, pts, i, p.
  split; [reflexivity|]. split; [reflexivity|]. split; [reflexivity|].
  split; [reflexivity|]. split; [reflexivity|]. split; [lia|].
  split; [exact Ep|]. split; [exact Np|]. split; [|reflexivity].
  intros j q Lj Ej. apply (F j q); [lia|exact Ej].
Qed.


Ltac decide_near :=
  match goal with
  | |- context [Rlt_dec (hypot ?a ?b) ?c] =>
      let N := fresh "N" in
      destruct (Rlt_dec (hypot a b) c) as [N|N];
      [ try (exfalso; revert N;
             first [ rewrite (@hypot_of_square a b 500%R)
                       by (try lra; unfold Q2R; simpl; lra)
                   | rewrite (@hypot_of_square a b 300%R)
                       by (try lra; unfold Q2R; simpl; lra) ];
             unfold Q2R; simpl; lra)
      | try (exfalso; apply N;
             rewrite (@hypot_of_square a b 0%R)
               by (try lra; unfold Q2R; simpl; lra);
             unfold Q2R; simpl; lra) ]
  end.

(** A press on the third corner of [frame]. *)
Lemma press_on_frame :
  handleMouseDown shown {| clientX := 550; clientY := 400 |} cropping =
  withState (startDragging 2 {| clientX := 550; clientY := 400 |} frame) cropping.
Proof.
  unfold handleMouseDown. cbn -[Rlt_dec hypot Q2R].
  do 3 decide_near. reflexivity.
Qed.


(* ------------------------------------------------------------------ *)
(** ** A drag from the press on *)

(** One pointer move of a drag in terms of the snapshot. *)
Lemma move_while_dragging (e : MouseEvent) (s : State)
    (img : ImgElement) (ini l : list Point) (i : nat) (p : Point) :
  isPanning s = false -> isDragging s = true ->
  points s = Some l -> initialPointsRef s = Some ini ->
  dragInfo s = Some i -> imageRef s = Some img ->
  nth_error ini i = Some p ->
  handleWindowMouseMove e s =
  setPoints
    (set_nth i
       (mkPoint
          (clamp (naturalWidth img)
             (px p + (clientX e - px (dragStartPosRef s)) * shownScale img))
          (clamp (naturalHeight img)
             (py p + (clientY e - py (dragStartPosRef s)) * shownScale img)))
       ini) s.
Proof.
  intros Pa Dr Pt In Di Im Ep. unfold handleWindowMouseMove.
  rewrite Pa, Dr, Pt, In, Di, Im, Ep. reflexivity.
Qed.

(** During a drag the moves do not add up: only the last one counts. *)
Lemma moves_of_drag (s : State) (img : ImgElement) (ini : list Point) (i : nat) (p : Point) :
  isPanning s = false -> isDragging s = true ->
  initialPointsRef s = Some ini ->
  dragInfo s = Some i -> imageRef s = Some img ->
  nth_error ini i = Some p ->
  forall es l, exists l', moves es (setPoints l s) = setPoints l' s.
Proof.
  intros Pa Dr In Di Im Ep. induction es as [|e t IH]; intro l.
  - exists l. reflexivity.
  - unfold moves. simpl fold_left.
    rewrite (@move_while_dragging e (setPoints l s) img ini l i p)
      by (assumption || reflexivity).
    apply IH.
Qed.

Lemma setPoints_same (s : State) (l : list Point) :
  points s = Some l -> setPoints l s = s.
Proof. destruct s; simpl; intros ->; reflexivity. Qed.

(** X11.  Once a press has taken a corner of an image shown with a positive
    width (and no pan is under way), every later pointer move puts that
    corner at its position at the press plus the pointer displacement since
    the press, in image pixels, clamped to the image; the other corners
    stay.  The moves do not accumulate: after any sequence of moves the
    state is what the last move alone gives.  While the clamp does not bite,
    the corner follows the pointer on the screen exactly. *)
Theorem drag_follows_pointer
    (rect : ImgRect) (e0 e1 : MouseEvent) (x : Session) (es : list MouseEvent)
    (img : ImgElement) :
  isDragging (st x) = false -> isPanning (st x) = false ->
  imageRef (st x) = Some img -> 0 < rectWidth img ->
  isDragging (st (handleMouseDown rect e0 x)) = true ->
  let s0 := st (handleMouseDown rect e0 x) in
  exists pts i p q,
    points (st x) = Some pts /\
    dragInfo s0 = Some i /\ nth_error pts i = Some p /\
    moves (es ++ [e1]) s0 = handleWindowMouseMove e1 s0 /\
    points (handleWindowMouseMove e1 s0) = Some (set_nth i q pts) /\
    q = mkPoint
          (clamp (naturalWidth img)
             (px p + (clientX e1 - clientX e0) * shownScale img))
          (clamp (naturalHeight img)
             (py p + (clientY e1 - clientY e0) * shownScale img)) /\
    (0 < naturalWidth img ->
     0 <= px p + (clientX e1 - clientX e0) * shownScale img <= naturalWidth img ->
     0 <= py p + (clientY e1 - clientY e0) * shownScale img <= naturalHeight img ->
     px (toScreen rect (shownScale img) q) ==
       px (toScreen rect (shownScale img) p) + (clientX e1 - clientX e0) /\
     py (toScreen rect (shownScale img) q) ==
       py (toScreen rect (shownScale img) p) + (clientY e1 - clientY e0)).
Proof.
  intros D0 P0 Im0 Rw D1 s0.
  destruct (handleMouseDown_started rect e0 x D0 D1)
    as (img' & pts & i & p & Im & Pt & T & Pr & Sp & Li & Ep & Np & F & E).
  assert (img' = img) by congruence. subst img'.
  assert (S0 : s0 = startDragging i e0 pts (st x)) by (unfold s0; rewrite E; reflexivity).
  clearbody s0. clear E D1 Np F.
  assert (M : forall e, handleWindowMouseMove e s0 =
                setPoints
                  (set_nth i
                     (mkPoint
                        (clamp (naturalWidth img)
                           (px p + (clientX e - clientX e0) * shownScale img))
                        (clamp (naturalHeight img)
                           (py p + (clientY e - clientY e0) * shownScale img)))
                     pts) s0).
  { intro e.
    rewrite (@move_while_dragging e s0 img pts pts i p);
      try rewrite S0; simpl; first [assumption|reflexivity]. }
  exists pts, i, p. eexists.
  split; [exact Pt|].
  split; [rewrite S0; reflexivity|]. split; [exact Ep|].
  split; [|split; [rewrite M; reflexivity|split; [reflexivity|]]].
  - unfold moves. rewrite fold_left_app. simpl fold_left.
    fold (moves es s0).
    assert (S1 : setPoints pts s0 = s0)
      by (apply setPoints_same; rewrite S0; simpl; assumption).
    assert (L : exists l', moves es (setPoints pts s0) = setPoints l' s0).
    { apply (@moves_of_drag s0 img pts i p);
        try rewrite S0; simpl; first [assumption|reflexivity]. }
    destruct L as [l' L'].
    rewrite S1 in L'. rewrite L'.
    rewrite M.
    rewrite (@move_while_dragging e1 (setPoints l' s0) img pts l' i p);
      try rewrite S0; simpl; first [assumption|reflexivity].
  - intros Nw [Bx1 Bx2] [By1 By2].
    assert (Sc : 0 < shownScale img)
      by (unfold shownScale; apply Qlt_shift_div_l; [exact Rw|lra]).
    assert (Nh : 0 <= naturalHeight img) by lra.
    assert (Nw' : 0 <= naturalWidth img) by lra.
    destruct (clamp_spec (px p + (clientX e1 - clientX e0) * shownScale img) Nw')
      as (_ & _ & _ & Cx).
    destruct (clamp_spec (py p + (clientY e1 - clientY e0) * shownScale img) Nh)
      as (_ & _ & _ & Cy).
    unfold toScreen; simpl. rewrite (Cx Bx1 Bx2), (Cy By1 By2).
    split; field; lra.
Qed.

Lemma drag_follows_pointer_witness :
  let img := {| rectWidth := 500; naturalWidth := 1000; naturalHeight := 800 |} in
  isDragging (st cropping) = false /\ isPanning (st cropping) = false /\
  imageRef (st cropping) = Some img /\ 0 < rectWidth img /\
  isDragging (st (handleMouseDown shown {| clientX := 550; clientY := 400 |} cropping))
    = true /\
  let e0 := {| clientX := 550; clientY := 400 |} in
  let e1 := {| clientX := 560; clientY := 390 |} in
  let s0 := st (handleMouseDown shown e0 cropping) in
  exists pts i p q,
    points (st cropping) = Some pts /\
    dragInfo s0 = Some i /\ nth_error pts i = Some p /\
    moves ([{| clientX := 700; clientY := 100 |}] ++ [e1]) s0 =
      handleWindowMouseMove e1 s0 /\
    points (handleWindowMouseMove e1 s0) = Some (set_nth i q pts) /\
    q = mkPoint
          (clamp (naturalWidth img)
             (px p + (clientX e1 - clientX e0) * shownScale img))
          (clamp (naturalHeight img)
             (py p + (clientY e1 - clientY e0) * shownScale img)) /\
    (0 < naturalWidth img ->
     0 <= px p + (clientX e1 - clientX e0) * shownScale img <= naturalWidth img ->
     0 <= py p + (clientY e1 - clientY e0) * shownScale img <= naturalHeight img ->
     px (toScreen shown (shownScale img) q) ==
       px (toScreen shown (shownScale img) p) + (clientX e1 - clientX e0) /\
     py (toScreen shown (shownScale img) q) ==
       py (toScreen shown (shownScale img) p) + (clientY e1 - clientY e0)).
Proof.
  intro img.
  assert (H : isDragging
                (st (handleMouseDown shown {| clientX := 550; clientY := 400 |} cropping))
              = true) by (rewrite press_on_frame; reflexivity).
  split; [reflexivity|]. split; [reflexivity|]. split; [reflexivity|].
  split; [reflexivity|]. split; [exact H|].
  exact (@drag_follows_pointer shown {| clientX := 550; clientY := 400 |}
           {| clientX := 560; clientY := 390 |} cropping
           [{| clientX := 700; clientY := 100 |}] img eq_refl eq_refl eq_refl eq_refl H).
Defined.

(* ------------------------------------------------------------------ *)
(** ** Panning and the release of the button *)

Lemma setScroll_same (s : State) (c : Container) :
  containerRef s = Some c -> setScroll c s = s.
Proof. destruct s; simpl; intros ->; reflexivity. Qed.

Lemma move_while_panning (e : MouseEvent) (s : State) (c : Container) :
  isPanning s = true -> containerRef s = Some c ->
  handleWindowMouseMove e s =
  setScroll {| scrollLeft := scrollLeft (scrollStartRef s) - (clientX e - px (panStartRef s));
               scrollTop := scrollTop (scrollStartRef s) - (clientY e - py (panStartRef s)) |}
            s.
Proof.
  intros Pa Co. unfold handleWindowMouseMove. rewrite Pa, Co. reflexivity.
Qed.

Lemma moves_of_pan (s : State) :
  isPanning s = true ->
  forall es c, exists c', moves es (setScroll c s) = setScroll c' s.
Proof.
  intros Pa. induction es as [|e t IH]; intro c.
  - exists c. reflexivity.
  - unfold moves. simpl fold_left.
    rewrite (@move_while_panning e (setScroll c s) c) by (assumption || reflexivity).
    apply IH.
Qed.

(** X12.  With no tool active, a press anywhere on the image (on a corner
    too) starts a pan and never a drag; from then on each pointer move sets
    the scroll position of the container to the one at the press minus the
    pointer displacement since the press, whatever moves came between, and
    the corner points are left alone. *)
Theorem pan_scrolls_against_pointer
    (rect : ImgRect) (e0 e1 : MouseEvent) (x : Session) (es : list MouseEvent)
    (img : ImgElement) (pts : list Point) (c : Container) :
  Editor.isProcessing (st x) = false ->
  imageRef (st x) = Some img -> points (st x) = Some pts ->
  activeTool (st x) = none -> containerRef (st x) = Some c ->
  let s0 := st (handleMouseDown rect e0 x) in
  let s1 := moves (es ++ [e1]) s0 in
  isPanning s0 = true /\ isDragging s0 = isDragging (st x) /\
  containerRef s1 =
    Some {| scrollLeft := scrollLeft c - (clientX e1 - clientX e0);
            scrollTop := scrollTop c - (clientY e1 - clientY e0) |} /\
  points s1 = Some pts.
Proof.
  intros Pr Im Pt T Co s0 s1.
  assert (S0 : s0 = startPanning e0 (st x)).
  { unfold s0, handleMouseDown. rewrite Pr, Im, Pt, T.
    rewrite orb_true_r. reflexivity. }
  assert (Pa : isPanning s0 = true) by (rewrite S0; reflexivity).
  assert (C0 : containerRef s0 = Some c) by (rewrite S0; simpl; exact Co).
  split; [exact Pa|]. split; [rewrite S0; reflexivity|].
  assert (L : exists c', moves es (setScroll c s0) = setScroll c' s0)
    by (apply moves_of_pan; exact Pa).
  destruct L as [c' L]. rewrite (setScroll_same _ C0) in L.
  unfold s1, moves. rewrite fold_left_app. simpl fold_left. fold (moves es s0).
  rewrite L.
  rewrite (@move_while_panning e1 (setScroll c' s0) c') by (assumption || reflexivity).
  rewrite S0. simpl. rewrite Co. split; [reflexivity|exact Pt].
Qed.

Lemma pan_scrolls_against_pointer_witness :
  let e0 := {| clientX := 550; clientY := 400 |} in
  let e1 := {| clientX := 500; clientY := 420 |} in
  let s0 := st (handleMouseDown shown e0 browsing) in
  let s1 := moves ([{| clientX := 0; clientY := 0 |}] ++ [e1]) s0 in
  isPanning s0 = true /\ isDragging s0 = isDragging (st browsing) /\
  containerRef s1 =
    Some {| scrollLeft := 40 - (500 - 550); scrollTop := 30 - (420 - 400) |} /\
  points s1 = Some frame.
Proof.
  exact (@pan_scrolls_against_pointer shown {| clientX := 550; clientY := 400 |}
           {| clientX := 500; clientY := 420 |} browsing
           [{| clientX := 0; clientY := 0 |}]
           {| rectWidth := 500; naturalWidth := 1000; naturalHeight := 800 |}
           frame {| scrollLeft := 40; scrollTop := 30 |}
           eq_refl eq_refl eq_refl eq_refl eq_refl).
Defined.

(** X13.  After the button is released no pointer move changes anything:
    neither the points nor the scroll position, until the next press. *)
Theorem mouse_up_ends_session (s : State) (es : list MouseEvent) :
  moves es (handleMouseUp s) = handleMouseUp s /\
  points (handleMouseUp s) = points s /\
  containerRef (handleMouseUp s) = containerRef s.
Proof.
  split; [|split; reflexivity].
  induction es as [|e t IH]; [reflexivity|].
  unfold moves. simpl fold_left.
  replace (handleWindowMouseMove e (handleMouseUp s)) with (handleMouseUp s);
    [exact IH|].
  unfold handleWindowMouseMove. reflexivity.
Qed.

(* ------------------------------------------------------------------ *)
(** ** From opening the editor to the save *)

Lemma defaultPoints_length (w h : Q) : List.length (defaultPoints w h) = 4%nat.
Proof. reflexivity. Qed.

(** The first load of an image: detection runs and four points are set. *)
Lemma handleImageLoad_fresh (env : Env) (s : State) (img : ImgElement) :
  points s = None -> imageRef s = Some img ->
  exists pts,
    handleImageLoad env s =
      setIsProcessing false (setPoints pts (setIsProcessing true s)) /\
    List.length pts = 4%nat /\
    (detectDocumentCorners env (currentImage s) = Resolved (Some pts) \/
     detectDocumentCorners env (currentImage s) = Resolved None /\
     pts = defaultPoints (naturalWidth img) (naturalHeight img)).
Proof.
  intros Pt Im. unfold handleImageLoad, handlePerformAutoDetection.
  rewrite Pt, Im.
  destruct (detectDocumentCorners_cases env (currentImage s)) as [N|(pts & D & L & _)].
  - rewrite N. eexists. split; [reflexivity|]. split; [reflexivity|].
    right. split; reflexivity.
  - rewrite D. exists pts. split; [reflexivity|]. split; [exact L|].
    left. reflexivity.
Qed.

(** X14.  When the editor has opened on an item and its image has loaded,
    nothing is being processed any more and there are four points: the
    detected ones, or the default inset quadrilateral when detection found
    nothing.  The crop tool being the active one, a save at that moment
    never hands the item's own URL back: it crops (whatever the points are)
    or shows the alert. *)
Theorem open_load_save (env : Env) (url : ImageUrl) (x : Session) (img : ImgElement) :
  imageRef (st x) = Some img ->
  let s := handleImageLoad env (st (openEditor url x)) in
  Editor.isProcessing s = false /\
  (exists pts,
     points s = Some pts /\ List.length pts = 4%nat /\
     (detectDocumentCorners env url = Resolved (Some pts) \/
      detectDocumentCorners env url = Resolved None /\
      pts = defaultPoints (naturalWidth img) (naturalHeight img)) /\
     (handleSave env s = Alerted \/
      exists req, cropRequest pts = Some req /\
                  handleSave env s = Updated (WarpPng url req))) /\
  handleSave env s <> Updated url.
Proof.
  intros Im s.
  assert (S : exists pts,
             s = setIsProcessing false
                   (setPoints pts (setIsProcessing true (st (openEditor url x)))) /\
             List.length pts = 4%nat /\
             (detectDocumentCorners env url = Resolved (Some pts) \/
              detectDocumentCorners env url = Resolved None /\
              pts = defaultPoints (naturalWidth img) (naturalHeight img))).
  { destruct (@handleImageLoad_fresh env (st (openEditor url x)) img eq_refl Im)
      as (pts & E & L & D).
    exists pts. split; [exact E|]. split; [exact L|exact D]. }
  destruct S as (pts & E & L & D).
  assert (Sv : handleSave env s =
               match applyPerspectiveCrop env url pts with
               | Resolved u => Updated u
               | Rejected => Alerted
               | Pending => Waiting
               end).
  { rewrite E. reflexivity. }
  assert (K : handleSave env s = Alerted \/
              exists req, cropRequest pts = Some req /\
                          handleSave env s = Updated (WarpPng url req)).
  { rewrite Sv.
    destruct (applyPerspectiveCrop_cases env url pts) as [R|(req & Q1 & _ & Q2)].
    - rewrite R. left. reflexivity.
    - rewrite Q2. right. exists req. split; [exact Q1|reflexivity]. }
  split; [rewrite E; reflexivity|]. split.
  - exists pts. split; [rewrite E; reflexivity|]. split; [exact L|].
    split; [exact D|exact K].
  - destruct K as [K|(req & _ & K)]; rewrite K; [discriminate|].
    intro H. inversion H as [H']. exact (WarpPng_fresh H').
Qed.

Lemma open_load_save_witness :
  imageRef (st cropping) =
    Some {| rectWidth := 500; naturalWidth := 1000; naturalHeight := 800 |} /\
  let s := handleImageLoad studio (st (openEditor page cropping)) in
  Editor.isProcessing s = false /\
  (exists pts,
     points s = Some pts /\ List.length pts = 4%nat /\
     (detectDocumentCorners studio page = Resolved (Some pts) \/
      detectDocumentCorners studio page = Resolved None /\
      pts = defaultPoints 1000 800) /\
     (handleSave studio s = Alerted \/
      exists req, cropRequest pts = Some req /\
                  handleSave studio s = Updated (WarpPng page req))) /\
  handleSave studio s <> Updated page.
Proof.
  split; [reflexivity|].
  exact (@open_load_save studio page cropping
           {| rectWidth := 500; naturalWidth := 1000; naturalHeight := 800 |} eq_refl).
Defined.

(* ------------------------------------------------------------------ *)
(** ** Quarter turns *)

Lemma turns_rotation (ts : list Turn) :
  forall s, exists k : Z, rotation (turns ts s) = (rotation s + 90 * k)%Z.
Proof.
  induction ts as [|t r IH]; intro s.
  - exists 0%Z. unfold turns. cbn [fold_left]. lia.
  - unfold turns. simpl fold_left. destruct (IH (turn t s)) as [k E].
    unfold turns in E. rewrite E.
    destruct t; unfold turn, rotateLeft, rotateRight, setRotation; cbn [rotation];
      [exists (k - 1)%Z|exists (k + 1)%Z]; lia.
Qed.

(** Cosine and sine of a whole number of quarter turns, as
    [applyImageAdjustments] computes the angle. *)
Lemma quarter_turn_trig (k : Z) :
  (Rabs (cos (rads (90 * k))) = if Z.even k then 1 else 0)%R /\
  (Rabs (sin (rads (90 * k))) = if Z.even k then 0 else 1)%R.
Proof.
  unfold rads.
  change 360%Z with (90 * 4)%Z. rewrite Z.mul_rem_distr_l by lia.
  pose proof (Z.rem_bound_abs k 4 ltac:(lia)) as B.
  assert (P : Z.even k = Z.even (Z.rem k 4)).
  { rewrite (Z.quot_rem' k 4) at 1.
    rewrite Z.even_add, Z.even_mul. simpl. destruct (Z.even (Z.rem k 4)); reflexivity. }
  rewrite P. clear P. set (r := Z.rem k 4) in *.
  assert (C : (r = -3 \/ r = -2 \/ r = -1 \/ r = 0 \/ r = 1 \/ r = 2 \/ r = 3)%Z) by lia.
  clearbody r.
  destruct C as [C|[C|[C|[C|[C|[C|C]]]]]]; subst r; simpl Z.even; cbv iota.
  - replace (IZR (90 * -3) * PI / 180)%R with (- (3 * (PI / 2)))%R by (simpl; lra).
    rewrite cos_neg, sin_neg, cos_3PI2, sin_3PI2.
    split; unfold Rabs; destruct (Rcase_abs _); lra.
  - replace (IZR (90 * -2) * PI / 180)%R with (- PI)%R by (simpl; lra).
    rewrite cos_neg, sin_neg, cos_PI, sin_PI.
    split; unfold Rabs; destruct (Rcase_abs _); lra.
  - replace (IZR (90 * -1) * PI / 180)%R with (- (PI / 2))%R by (simpl; lra).
    rewrite cos_neg, sin_neg, cos_PI2, sin_PI2.
    split; unfold Rabs; destruct (Rcase_abs _); lra.
  - replace (IZR (90 * 0) * PI / 180)%R with 0%R by (simpl; lra).
    rewrite cos_0, sin_0.
    split; unfold Rabs; destruct (Rcase_abs _); lra.
  - replace (IZR (90 * 1) * PI / 180)%R with (PI / 2)%R by (simpl; lra).
    rewrite cos_PI2, sin_PI2.
    split; unfold Rabs; destruct (Rcase_abs _); lra.
  - replace (IZR (90 * 2) * PI / 180)%R with PI by (simpl; lra).
    rewrite cos_PI, sin_PI.
    split; unfold Rabs; destruct (Rcase_abs _); lra.
  - replace (IZR (90 * 3) * PI / 180)%R with (3 * (PI / 2))%R by (simpl; lra).
    rewrite cos_3PI2, sin_3PI2.
    split; unfold Rabs; destruct (Rcase_abs _); lra.
Qed.

(** X15.  The rotation is 0 when the editor opens and the two rotation
    buttons are the only way to change it, so it is always a whole number
    [k] of quarter turns (of either sign, never reduced modulo 360); the
    canvas [applyImageAdjustments] then makes has exactly the size of the
    image for even [k], and the size with width and height exchanged for
    odd [k]. *)
Theorem rotation_quarter_turns
    (url : ImageUrl) (x : Session) (ts : list Turn) (img : Image) (b c : Z) :
  let s := turns ts (st (openEditor url x)) in
  exists k : Z,
    rotation s = (90 * k)%Z /\
    c_width (adjustCanvas img b c (rotation s)) =
      (if Z.even k then Q2R (width img) else Q2R (height img)) /\
    c_height (adjustCanvas img b c (rotation s)) =
      (if Z.even k then Q2R (height img) else Q2R (width img)).
Proof.
  intro s. destruct (turns_rotation ts (st (openEditor url x))) as [k E].
  exists k. fold s in E.
  change (rotation (st (openEditor url x))) with 0%Z in E. rewrite Z.add_0_l in E.
  split; [exact E|].
  rewrite E. change (c_width (adjustCanvas img b c (90 * k))) with (newWidth img (90 * k)).
  change (c_height (adjustCanvas img b c (90 * k))) with (newHeight img (90 * k)).
  unfold newWidth, newHeight.
  destruct (quarter_turn_trig k) as [C S]. rewrite C, S.
  destruct (Z.even k); split; lra.
Qed.

(* ------------------------------------------------------------------ *)
(** ** The rotate button of an item *)

Lemma rads_90 : rads 90 = (90 * PI / 180)%R.
Proof. unfold rads. change (Z.rem 90 360) with 90%Z. reflexivity. Qed.

Lemma quarter_values :
  cos (90 * PI / 180) = 0%R /\ sin (90 * PI / 180) = 1%R.
Proof.
  replace (90 * PI / 180)%R with (PI / 2)%R by lra.
  split; [apply cos_PI2|apply sin_PI2].
Qed.

(** X16.  The canvas [handleRotateItem] draws is the one
    [applyImageAdjustments] makes for a rotation of 90 with the filter left
    at 100 %: its size is the image's with width and height exchanged, the
    pixel (i, j) of the image lands on (height - j, i), and the image covers
    the canvas exactly, nothing cut off and no corner left empty. *)
Theorem handleRotateItem_canvas (img : Image) :
  App.rotateCanvas img = adjustCanvas img 100 100 90 /\
  c_width (App.rotateCanvas img) = Q2R (height img) /\
  c_height (App.rotateCanvas img) = Q2R (width img) /\
  exists layer,
    c_layers (App.rotateCanvas img) = [layer] /\
    (forall i j : R, place layer i j = (Q2R (height img) - j, i)%R) /\
    (forall p : R * R,
       covers layer p <->
       (0 <= fst p <= c_width (App.rotateCanvas img))%R /\
       (0 <= snd p <= c_height (App.rotateCanvas img))%R).
Proof.
  destruct quarter_values as [C S].
  assert (W : newWidth img 90 = Q2R (height img)).
  { unfold newWidth. rewrite rads_90, C, S, Rabs_R0, Rabs_R1. lra. }
  assert (H : newHeight img 90 = Q2R (width img)).
  { unfold newHeight. rewrite rads_90, C, S, Rabs_R0, Rabs_R1. lra. }
  split.
  { unfold adjustCanvas. rewrite W, H, rads_90. reflexivity. }
  split; [reflexivity|]. split; [reflexivity|].
  assert (L : exists layer,
             c_layers (App.rotateCanvas img) = [layer] /\
             l_w layer = Q2R (width img) /\ l_h layer = Q2R (height img) /\
             forall i j : R, place layer i j = (Q2R (height img) - j, i)%R).
  { eexists. split; [reflexivity|]. split; [reflexivity|]. split; [reflexivity|].
    intros i j. unfold place, apply. simpl. rewrite C, S. f_equal; field. }
  destruct L as (layer & L1 & Lw & Lh & P).
  exists layer. split; [exact L1|]. split; [exact P|].
  change (c_width (App.rotateCanvas img)) with (Q2R (height img)).
  change (c_height (App.rotateCanvas img)) with (Q2R (width img)).
  intros [u v]. unfold covers. rewrite Lw, Lh. cbn [fst snd]. split.
  - intros (i & j & Bi & Bj & E). rewrite (P i j) in E. inversion E; subst u v.
    split; lra.
  - intros [Bu Bv]. exists v, (Q2R (height img) - u)%R.
    split; [lra|]. split; [lra|]. rewrite P. f_equal; lra.
Qed.

(* ------------------------------------------------------------------ *)
(** ** App.tsx: deleting a document *)

Import App.

(** Members of a list without repeated keys are told apart by their key. *)
Lemma NoDup_map_inj (A B : Type) (f : A -> B) (l : list A) :
  NoDup (map f l) -> forall a b, In a l -> In b l -> f a = f b -> a = b.
Proof.
  induction l as [|h t IH]; intros N a b Ia Ib E; [destruct Ia|].
  simpl in N. inversion N as [|? ? Nh Nt]; subst.
  destruct Ia as [->|Ia], Ib as [->|Ib].
  - reflexivity.
  - exfalso. apply Nh. rewrite E. apply in_map. exact Ib.
  - exfalso. apply Nh. rewrite <- E. apply in_map. exact Ia.
  - apply IH; assumption.
Qed.

Lemma filter_drops_at_most_one (A : Type) (p : A -> bool) (l : list A) :
  (forall a b, In a l -> In b l -> p a = false -> p b = false -> a = b) ->
  NoDup l ->
  (List.length l <= S (List.length (filter p l)))%nat.
Proof.
  induction l as [|h t IH]; intros U N; simpl; [lia|].
  inversion N as [|? ? Nh Nt]; subst.
  destruct (p h) eqn:Ph; simpl.
  - assert (List.length t <= S (List.length (filter p t)))%nat; [|lia].
    apply IH; [|exact Nt]. intros a b Ia Ib. apply U; right; assumption.
  - assert (F : filter p t = t); [|rewrite F; lia].
    apply forallb_filter_id. apply forallb_forall. intros a Ia.
    destruct (p a) eqn:Pa; [reflexivity|].
    exfalso. apply Nh. rewrite (U h a); [exact Ia|left; reflexivity|right; exact Ia| |];
      assumption.
Qed.

(** X17.  While the documents have distinct ids, [handleDeleteDocument]
    never empties the list: it removes at most the one document with the
    given id, keeps every other document, adds none, and leaves a single
    remaining document in place even when its id is the one given. *)
Theorem handleDeleteDocument_keeps_one (docId : string) (s : AppState) :
  NoDup (map doc_id (documents s)) -> documents s <> [] ->
  let docs' := documents (handleDeleteDocument docId s) in
  docs' <> [] /\
  (List.length (documents s) <= S (List.length docs'))%nat /\
  (forall d, In d docs' -> In d (documents s)) /\
  (forall d, In d (documents s) -> doc_id d <> docId -> In d docs') /\
  ((2 <= List.length (documents s))%nat -> forall d, In d docs' -> doc_id d <> docId).
Proof.
  intros N E docs'. unfold docs', handleDeleteDocument.
  destruct (List.length (documents s) <=? 1)%nat eqn:G.
  - apply Nat.leb_le in G. split; [exact E|]. split; [lia|].
    split; [tauto|]. split; [tauto|]. intros; lia.
  - apply Nat.leb_gt in G. cbn [documents setDocuments].
    assert (L : (List.length (documents s) <=
                 S (List.length (filter (fun d => negb (String.eqb (doc_id d) docId))
                                        (documents s))))%nat).
    { apply filter_drops_at_most_one.
      - intros a b Ia Ib Pa Pb.
        apply negb_false_iff, String.eqb_eq in Pa.
        apply negb_false_iff, String.eqb_eq in Pb.
        apply (NoDup_map_inj doc_id _ N); congruence.
      - apply (NoDup_map_inv doc_id). exact N. }
    split.
    { intro Z. rewrite Z in L. simpl in L. lia. }
    split; [exact L|]. split.
    { intros d H. apply filter_In in H. tauto. }
    split.
    { intros d I D. apply filter_In. split; [exact I|].
      apply negb_true_iff, String.eqb_neq. exact D. }
    intros _ d H. apply filter_In in H. destruct H as [_ H].
    apply negb_true_iff, String.eqb_neq in H. exact H.
Qed.

Lemma desk_ids : NoDup (map doc_id (documents desk)).
Proof.
  repeat constructor; simpl; intuition discriminate.
Qed.

Lemma handleDeleteDocument_keeps_one_witness :
  NoDup (map doc_id (documents desk)) /\ documents desk <> [] /\
  let docs' := documents (handleDeleteDocument "2" desk) in
  docs' <> [] /\
  (List.length (documents desk) <= S (List.length docs'))%nat /\
  (forall d, In d docs' -> In d (documents desk)) /\
  (forall d, In d (documents desk) -> doc_id d <> "2"%string -> In d docs') /\
  ((2 <= List.length (documents desk))%nat ->
   forall d, In d docs' -> doc_id d <> "2"%string).
Proof.
  split; [exact desk_ids|]. split; [discriminate|].
  exact (@handleDeleteDocument_keeps_one "2" desk desk_ids ltac:(discriminate)).
Defined.

(* ------------------------------------------------------------------ *)
(** ** App.tsx: moving an item *)

Lemma findIndex_Some (A : Type) (p : A -> bool) (l : list A) :
  forall i, findIndex p l = Some i ->
            exists a, nth_error l i = Some a /\ p a = true.
Proof.
  induction l as [|h t IH]; intros i H; simpl in H; [discriminate|].
  destruct (p h) eqn:Ph.
  - inversion H; subst i. exists h. split; [reflexivity|exact Ph].
  - destruct (findIndex p t) as [n|]; [|discriminate].
    inversion H; subst i. simpl. apply IH. reflexivity.
Qed.

Lemma removeAt_perm (A : Type) (l : list A) :
  forall i a, nth_error l i = Some a -> Permutation l (a :: removeAt i l).
Proof.
  induction l as [|h t IH]; intros [|i] a H; simpl in H; try discriminate.
  - inversion H; subst. simpl. apply Permutation_refl.
  - simpl. apply Permutation_trans with (h :: a :: removeAt i t).
    + constructor. apply IH. exact H.
    + apply perm_swap.
Qed.

Lemma insertAt_perm (A : Type) (k : nat) (x : A) (l : list A) :
  Permutation (insertAt k x l) (x :: l).
Proof.
  unfold insertAt. apply Permutation_sym.
  rewrite <- (firstn_skipn k l) at 1. apply Permutation_middle.
Qed.

Lemma set_nth_flat (l : list DocumentGroup) (d' : DocumentGroup) :
  forall i d, nth_error l i = Some d ->
    Permutation (flat_map items (set_nth i d' l) ++ items d)
                (flat_map items l ++ items d').
Proof.
  induction l as [|h t IH]; intros [|i] d H; simpl in H; try discriminate.
  - inversion H; subst. simpl.
    rewrite <- !app_assoc.
    apply Permutation_trans with ((flat_map items t ++ items d) ++ items d').
    + apply Permutation_app_comm.
    + rewrite (app_assoc (items d)). apply Permutation_app_tail.
      apply Permutation_app_comm.
  - simpl. rewrite <- !app_assoc. apply Permutation_app_head.
    apply IH. exact H.
Qed.

Lemma set_nth_map (A B : Type) (f : A -> B) (l : list A) (v : A) :
  forall i a, nth_error l i = Some a -> f v = f a ->
              map f (set_nth i v l) = map f l.
Proof.
  induction l as [|h t IH]; intros [|i] a H E; simpl in H; try discriminate.
  - inversion H; subst. simpl. rewrite E. reflexivity.
  - simpl. f_equal. apply (IH i a); assumption.
Qed.

(** The shape of a move that takes place. *)
Lemma moveItem_cases (sourceDocId itemId targetDocId : string) (targetIndex : option Z)
    (prevDocs : list DocumentGroup) :
  moveItem sourceDocId itemId targetDocId targetIndex prevDocs = prevDocs \/
  exists si ti sd ii m td,
    findIndex (fun d => String.eqb (doc_id d) sourceDocId) prevDocs = Some si /\
    findIndex (fun d => String.eqb (doc_id d) targetDocId) prevDocs = Some ti /\
    nth_error prevDocs si = Some sd /\
    findIndex (fun i => String.eqb (id i) itemId) (items sd) = Some ii /\
    nth_error (items sd) ii = Some m /\
    nth_error (set_nth si (setItems (removeAt ii (items sd)) sd) prevDocs) ti = Some td /\
    moveItem sourceDocId itemId targetDocId targetIndex prevDocs =
      set_nth ti
        (setItems (insertAt (targetPlace targetIndex (List.length (items td))) m (items td))
                  td)
        (set_nth si (setItems (removeAt ii (items sd)) sd) prevDocs).
Proof.
  unfold moveItem.
  destruct (findIndex (fun d => String.eqb (doc_id d) sourceDocId) prevDocs)
    as [si|] eqn:Fs; [|left; reflexivity].
  destruct (findIndex (fun d => String.eqb (doc_id d) targetDocId) prevDocs)
    as [ti|] eqn:Ft; [|left; reflexivity].
  destruct (nth_error prevDocs si) as [sd|] eqn:Ns; [|left; reflexivity].
  destruct (findIndex (fun i => String.eqb (id i) itemId) (items sd))
    as [ii|] eqn:Fi; [|left; reflexivity].
  destruct (nth_error (items sd) ii) as [m|] eqn:Nm; [|left; reflexivity].
  destruct (nth_error (set_nth si (setItems (removeAt ii (items sd)) sd) prevDocs) ti)
    as [td|] eqn:Nt; [|left; reflexivity].
  right. exists si, ti, sd, ii, m, td.
  repeat (split; [first [reflexivity|assumption]|]).
  destruct (String.eqb sourceDocId targetDocId) eqn:E; [|reflexivity].
  apply String.eqb_eq in E. subst targetDocId.
  assert (ti = si) by congruence. subst ti.
  rewrite set_nth_same in Nt.
  - inversion Nt; subst td. reflexivity.
  - apply nth_error_Some. congruence.
Qed.

(** The items and the documents across a move. *)
Lemma moveItem_conserved (sourceDocId itemId targetDocId : string)
    (targetIndex : option Z) (s : AppState) :
  let docs' := documents (handleMoveItem sourceDocId itemId targetDocId targetIndex s) in
  Permutation (flat_map items docs') (flat_map items (documents s)) /\
  map doc_id docs' = map doc_id (documents s) /\
  map title docs' = map title (documents s) /\
  map doc_selected docs' = map doc_selected (documents s).
Proof.
  intro docs'. unfold docs', handleMoveItem. cbn [documents setDocuments].
  destruct (moveItem_cases sourceDocId itemId targetDocId targetIndex (documents s))
    as [E|(si & ti & sd & ii & m & td & Fs & Ft & Ns & Fi & Nm & Nt & E)];
    rewrite E; clear E.
  - split; [apply Permutation_refl|]. repeat split; reflexivity.
  - split.
    + pose proof (@set_nth_flat _ (setItems (removeAt ii (items sd)) sd) _ _ Ns) as P1.
      pose proof (@set_nth_flat _
                    (setItems (insertAt (targetPlace targetIndex (List.length (items td)))
                                        m (items td)) td) _ _ Nt) as P2.
      cbn [items setItems] in P1, P2.
      set (mid := set_nth si (setItems (removeAt ii (items sd)) sd) (documents s)) in *.
      set (fin := set_nth ti _ mid) in *.
      apply (Permutation_app_inv_r (items td ++ items sd)).
      apply Permutation_trans
        with ((flat_map items mid ++ items sd) ++ m :: items td).
      * rewrite app_assoc.
        apply Permutation_trans
          with ((flat_map items mid ++
                 insertAt (targetPlace targetIndex (List.length (items td))) m (items td))
                ++ items sd).
        { apply Permutation_app_tail. exact P2. }
        rewrite <- !app_assoc. apply Permutation_app_head.
        apply Permutation_trans with ((m :: items td) ++ items sd).
        { apply Permutation_app_tail. apply insertAt_perm. }
        apply Permutation_app_comm.
      * apply Permutation_trans
          with ((flat_map items (documents s) ++ removeAt ii (items sd)) ++ m :: items td).
        { apply Permutation_app_tail. exact P1. }
        rewrite <- !app_assoc. apply Permutation_app_head.
        apply Permutation_trans with ((m :: removeAt ii (items sd)) ++ items td).
        { simpl. apply Permutation_sym. apply Permutation_middle. }
        apply Permutation_trans with (items sd ++ items td).
        { apply Permutation_app_tail. apply Permutation_sym.
          apply removeAt_perm. exact Nm. }
        apply Permutation_app_comm.
    + repeat split.
      * erewrite set_nth_map; [|exact Nt|reflexivity].
        eapply set_nth_map; [exact Ns|reflexivity].
      * erewrite set_nth_map; [|exact Nt|reflexivity].
        eapply set_nth_map; [exact Ns|reflexivity].
      * erewrite set_nth_map; [|exact Nt|reflexivity].
        eapply set_nth_map; [exact Ns|reflexivity].
Qed.

(** X18.  [handleMoveItem] neither loses nor duplicates an item: whatever
    the ids and the index it is given, the items of all documents together
    are the same after the move as before (each as often as before), and the
    documents keep their number, order, ids, titles and selection. *)
Theorem moveItem_conserves (sourceDocId itemId targetDocId : string)
    (targetIndex : option Z) (s : AppState) :
  let docs' := documents (handleMoveItem sourceDocId itemId targetDocId targetIndex s) in
  Permutation (flat_map items docs') (flat_map items (documents s)) /\
  map doc_id docs' = map doc_id (documents s) /\
  map title docs' = map title (documents s) /\
  map doc_selected docs' = map doc_selected (documents s).
Proof. exact (@moveItem_conserved sourceDocId itemId targetDocId targetIndex s). Qed.


Lemma targetPlace_le (targetIndex : option Z) (len : nat) :
  (targetPlace targetIndex len <= len)%nat.
Proof.
  unfold targetPlace. destruct targetIndex as [t|]; [|lia].
  destruct (Z.of_nat len <=? t)%Z eqn:A; [lia|].
  apply Z.leb_gt in A.
  destruct (t <? 0)%Z eqn:B; [apply Z.ltb_lt in B|apply Z.ltb_ge in B]; lia.
Qed.

Lemma insertAt_nth (A : Type) (x : A) (l : list A) :
  forall k, (k <= List.length l)%nat ->
            nth_error (insertAt k x l) k = Some x /\ removeAt k (insertAt k x l) = l.
Proof.
  unfold insertAt. induction l as [|h t IH]; intros [|k] L; simpl in *;
    try (split; reflexivity); try lia.
  destruct (IH k ltac:(lia)) as [N R]. split; [exact N|]. rewrite R. reflexivity.
Qed.

(** X19.  Where a move puts the item: in the first document with the target
    id, at the index asked for (counted in the target's items without the
    moved one), or at the end when no index is given or the index is not
    below their number; the other items of the target keep their order, the
    source loses exactly the first item with the given id, and every other
    document is untouched. *)
Theorem moveItem_places (sourceDocId itemId targetDocId : string)
    (targetIndex : option Z) (docs : list DocumentGroup)
    (si ti ii : nat) (sd td : DocumentGroup) :
  findIndex (fun d => String.eqb (doc_id d) sourceDocId) docs = Some si ->
  findIndex (fun d => String.eqb (doc_id d) targetDocId) docs = Some ti ->
  nth_error docs si = Some sd -> nth_error docs ti = Some td ->
  findIndex (fun i => String.eqb (id i) itemId) (items sd) = Some ii ->
  let docs' := moveItem sourceDocId itemId targetDocId targetIndex docs in
  let base := if (si =? ti)%nat then removeAt ii (items sd) else items td in
  let k := targetPlace targetIndex (List.length base) in
  exists m td',
    nth_error (items sd) ii = Some m /\ id m = itemId /\
    nth_error docs' ti = Some td' /\ doc_id td' = targetDocId /\
    nth_error (items td') k = Some m /\ removeAt k (items td') = base /\
    (k <= List.length base)%nat /\
    (targetIndex = None -> k = List.length base) /\
    (forall t, targetIndex = Some t -> (0 <= t < Z.of_nat (List.length base))%Z ->
               k = Z.to_nat t) /\
    (forall t, targetIndex = Some t -> (Z.of_nat (List.length base) <= t)%Z ->
               k = List.length base) /\
    (si <> ti -> exists sd', nth_error docs' si = Some sd' /\
                             items sd' = removeAt ii (items sd)) /\
    (forall j, j <> si -> j <> ti -> nth_error docs' j = nth_error docs j).
Proof.
  intros Fs Ft Ns Nt Fi docs' base k.
  destruct (findIndex_Some _ _ Fi) as (m & Nm & Pm).
  destruct (findIndex_Some _ _ Ft) as (td0 & Nt0 & Pt).
  rewrite Nt in Nt0. inversion Nt0; subst td0. clear Nt0.
  apply String.eqb_eq in Pm, Pt.
  assert (Ls : (si < List.length docs)%nat) by (apply nth_error_Some; congruence).
  assert (Lt : (ti < List.length docs)%nat) by (apply nth_error_Some; congruence).
  set (mid := set_nth si (setItems (removeAt ii (items sd)) sd) docs).
  assert (Nmid : exists tdm, nth_error mid ti = Some tdm /\ items tdm = base /\
                             doc_id tdm = targetDocId).
  { unfold base. destruct (Nat.eqb_spec si ti) as [E|E].
    - subst ti. exists (setItems (removeAt ii (items sd)) sd).
      split; [apply set_nth_same; exact Ls|]. split; [reflexivity|].
      simpl. congruence.
    - exists td. split; [|split; [reflexivity|exact Pt]].
      unfold mid. rewrite set_nth_other by congruence. exact Nt. }
  destruct Nmid as (tdm & Ntm & Bm & Im).
  assert (E : docs' =
              set_nth ti (setItems (insertAt k m base) tdm) mid).
  { unfold docs', moveItem. rewrite Fs, Ft, Ns, Fi, Nm. fold mid. rewrite Ntm.
    unfold k. rewrite <- Bm.
    destruct (String.eqb sourceDocId targetDocId) eqn:Q; [|reflexivity].
    apply String.eqb_eq in Q. rewrite <- Q in Ft.
    assert (ti = si) by congruence. subst ti.
    unfold mid in Ntm. rewrite set_nth_same in Ntm by exact Ls.
    inversion Ntm; subst tdm. reflexivity. }
  pose proof (targetPlace_le targetIndex (List.length base)) as Kl. fold k in Kl.
  destruct (insertAt_nth m base Kl) as [In1 In2].
  exists m, (setItems (insertAt k m base) tdm).
  split; [exact Nm|]. split; [exact Pm|].
  split.
  { rewrite E. apply set_nth_same. unfold mid. rewrite set_nth_length. exact Lt. }
  split; [exact Im|]. split; [exact In1|]. split; [exact In2|]. split; [exact Kl|].
  split.
  { intros ->. reflexivity. }
  split.
  { intros t -> [B1 B2]. unfold k, targetPlace.
    destruct (Z.of_nat (List.length base) <=? t)%Z eqn:A; [apply Z.leb_le in A; lia|].
    destruct (t <? 0)%Z eqn:B; [apply Z.ltb_lt in B; lia|reflexivity]. }
  split.
  { intros t -> B. unfold k, targetPlace.
    destruct (Z.of_nat (List.length base) <=? t)%Z eqn:A; [reflexivity|].
    apply Z.leb_gt in A. lia. }
  split.
  { intros D. exists (setItems (removeAt ii (items sd)) sd). split; [|reflexivity].
    rewrite E. rewrite set_nth_other by congruence.
    unfold mid. apply set_nth_same. exact Ls. }
  intros j Ds Dt. rewrite E. rewrite set_nth_other by congruence.
  unfold mid. apply set_nth_other. exact Ds.
Qed.

Lemma moveItem_places_witness :
  let docs := documents desk in
  findIndex (fun d => String.eqb (doc_id d) "1") docs = Some 0%nat /\
  findIndex (fun d => String.eqb (doc_id d) "2") docs = Some 1%nat /\
  nth_error docs 0 = Some folder1 /\ nth_error docs 1 = Some folder2 /\
  findIndex (fun i => String.eqb (id i) "a2") (items folder1) = Some 1%nat /\
  let docs' := moveItem "1" "a2" "2" (Some 0%Z) docs in
  let k := targetPlace (Some 0%Z) (List.length (items folder2)) in
  exists m td',
    nth_error (items folder1) 1 = Some m /\ id m = "a2"%string /\
    nth_error docs' 1 = Some td' /\ doc_id td' = "2"%string /\
    nth_error (items td') k = Some m /\ removeAt k (items td') = items folder2 /\
    (k <= List.length (items folder2))%nat /\
    (Some 0%Z = None -> k = List.length (items folder2)) /\
    (forall t, Some 0%Z = Some t -> (0 <= t < Z.of_nat (List.length (items folder2)))%Z ->
               k = Z.to_nat t) /\
    (forall t, Some 0%Z = Some t -> (Z.of_nat (List.length (items folder2)) <= t)%Z ->
               k = List.length (items folder2)) /\
    (0%nat <> 1%nat -> exists sd', nth_error docs' 0 = Some sd' /\
                                  items sd' = removeAt 1 (items folder1)) /\
    (forall j, j <> 0%nat -> j <> 1%nat -> nth_error docs' j = nth_error docs j).
Proof.
  intro docs.
  split; [reflexivity|]. split; [reflexivity|]. split; [reflexivity|].
  split; [reflexivity|]. split; [reflexivity|].
  exact (@moveItem_places "1" "a2" "2" (Some 0%Z) docs 0 1 1 folder1 folder2
           eq_refl eq_refl eq_refl eq_refl eq_refl).
Defined.

(* ------------------------------------------------------------------ *)
(** ** App.tsx: the batch crop *)

Lemma autoCropImage_settles (env : Env) (u : ImageUrl) :
  autoCropImage env u <> Pending.
Proof.
  unfold autoCropImage.
  destruct (detectDocumentCorners_cases env u) as [N|(pts & D & _)].
  - rewrite N. simpl. discriminate.
  - rewrite D. simpl.
    destruct (applyPerspectiveCrop_cases env u pts) as [R|(req & _ & _ & R)];
      rewrite R; discriminate.
Qed.

(** The loop of the batch always gets to its end; it is a fold of the
    tasks, and counts the tasks whose crop gave another URL. *)
Lemma runTasks_fold (env : Env) (tasks : list Task) :
  forall docs n,
    runTasks env tasks docs n =
    (fold_left (taskOnDocs env) tasks docs,
     (n + List.length (filter (fun t => cropped env (t_url t)) tasks))%nat,
     true).
Proof.
  induction tasks as [|t r IH]; intros docs n; simpl.
  - rewrite Nat.add_0_r. reflexivity.
  - unfold taskOnDocs at 2, taskUpdate, cropped at 1.
    pose proof (autoCropImage_settles env (t_url t)) as S.
    destruct (autoCropImage env (t_url t)) as [newUrl| |]; [| |congruence].
    + rewrite IH. destruct (url_eq_dec newUrl (t_url t)); simpl.
      * reflexivity.
      * f_equal. f_equal. lia.
    + rewrite IH. reflexivity.
Qed.

Lemma setItems_same (d : DocumentGroup) : setItems (items d) d = d.
Proof. destruct d; reflexivity. Qed.

Lemma fold_taskOnDocs (env : Env) (tasks : list Task) :
  forall docs,
    fold_left (taskOnDocs env) tasks docs =
    map (fun d => fold_left (taskOnDoc env) tasks d) docs.
Proof.
  induction tasks as [|t r IH]; intro docs; simpl.
  - symmetry. apply map_id.
  - rewrite IH. unfold taskOnDocs, onItemsOf. rewrite map_map. reflexivity.
Qed.

Lemma fold_taskOnDoc (env : Env) (tasks : list Task) :
  forall d,
    fold_left (taskOnDoc env) tasks d =
    setItems (map (fun i => fold_left (taskOnItem env (doc_id d)) tasks i) (items d)) d.
Proof.
  induction tasks as [|t r IH]; intro d; simpl.
  - rewrite map_id. symmetry. apply setItems_same.
  - destruct (String.eqb (doc_id d) (t_docId t)) eqn:Q.
    + assert (T : taskOnDoc env d t =
                  setItems (map (onItem (t_itemId t) (taskUpdate env t)) (items d)) d)
        by (unfold taskOnDoc; rewrite Q; reflexivity).
      rewrite T, IH. cbn [items doc_id setItems]. rewrite map_map.
      apply (f_equal (fun l => setItems l d)). apply map_ext. intro i. f_equal.
      unfold taskOnItem. rewrite Q. reflexivity.
    + assert (T : taskOnDoc env d t = d)
        by (unfold taskOnDoc; rewrite Q; reflexivity).
      rewrite T, IH. f_equal. apply map_ext. intro i. f_equal.
      unfold taskOnItem. rewrite Q. reflexivity.
Qed.

(** A task concerns the item [i] of the document with id [docId]. *)
Lemma taskOnItem_miss (env : Env) (docId : string) (i : ImageItem) (t : Task) :
  String.eqb docId (t_docId t) && String.eqb (id i) (t_itemId t) = false ->
  taskOnItem env docId i t = i.
Proof.
  unfold taskOnItem, onItem.
  destruct (String.eqb docId (t_docId t)); [|reflexivity].
  simpl. intros ->. reflexivity.
Qed.

Lemma taskOnItem_hit (env : Env) (docId : string) (i : ImageItem) (t : Task) :
  String.eqb docId (t_docId t) && String.eqb (id i) (t_itemId t) = true ->
  taskOnItem env docId i t = taskUpdate env t i.
Proof.
  unfold taskOnItem, onItem. intro H. apply andb_true_iff in H.
  destruct H as [-> ->]. reflexivity.
Qed.

Lemma taskUpdate_id (env : Env) (t : Task) (i : ImageItem) :
  id (taskUpdate env t i) = id i.
Proof. unfold taskUpdate. destruct (autoCropImage env (t_url t)); reflexivity. Qed.

Lemma taskUpdate_twice (env : Env) (t : Task) (i : ImageItem) :
  taskUpdate env t (taskUpdate env t i) = taskUpdate env t i.
Proof. unfold taskUpdate. destruct (autoCropImage env (t_url t)); reflexivity. Qed.

Lemma fold_tasks_miss (env : Env) (docId : string) (tasks : list Task) :
  forall i,
    (forall t, In t tasks ->
       String.eqb docId (t_docId t) && String.eqb (id i) (t_itemId t) = false) ->
    fold_left (taskOnItem env docId) tasks i = i.
Proof.
  induction tasks as [|t r IH]; intros i H; simpl; [reflexivity|].
  rewrite taskOnItem_miss by (apply H; left; reflexivity).
  apply IH. intros t' I. apply H. right. exact I.
Qed.

Lemma fold_tasks_done (env : Env) (docId : string) (t0 : Task) (tasks : list Task) :
  forall i,
    (forall t, In t tasks ->
       String.eqb docId (t_docId t) && String.eqb (id i) (t_itemId t) = true -> t = t0) ->
    fold_left (taskOnItem env docId) tasks (taskUpdate env t0 i) = taskUpdate env t0 i.
Proof.
  induction tasks as [|t r IH]; intros i H; simpl; [reflexivity|].
  destruct (String.eqb docId (t_docId t) && String.eqb (id i) (t_itemId t)) eqn:M.
  - rewrite (H t (or_introl eq_refl) M).
    rewrite taskOnItem_hit.
    + rewrite taskUpdate_twice. apply IH. intros t' I. apply H. right. exact I.
    + rewrite taskUpdate_id. rewrite <- (H t (or_introl eq_refl) M). exact M.
  - rewrite taskOnItem_miss by (rewrite taskUpdate_id; exact M).
    apply IH. intros t' I. apply H. right. exact I.
Qed.

Lemma fold_tasks_hit (env : Env) (docId : string) (t0 : Task) (tasks : list Task) :
  forall i,
    (forall t, In t tasks ->
       String.eqb docId (t_docId t) && String.eqb (id i) (t_itemId t) = true -> t = t0) ->
    In t0 tasks ->
    String.eqb docId (t_docId t0) && String.eqb (id i) (t_itemId t0) = true ->
    fold_left (taskOnItem env docId) tasks i = taskUpdate env t0 i.
Proof.
  induction tasks as [|t r IH]; intros i H I0 M0; [destruct I0|]. simpl.
  destruct (String.eqb docId (t_docId t) && String.eqb (id i) (t_itemId t)) eqn:M.
  - rewrite (H t (or_introl eq_refl) M). rewrite taskOnItem_hit by exact M0.
    apply fold_tasks_done. intros t' I. apply H. right. exact I.
  - rewrite taskOnItem_miss by exact M.
    apply IH; [intros t' I; apply H; right; exact I| |exact M0].
    destruct I0 as [E|I0]; [|exact I0]. subst t. congruence.
Qed.

Lemma in_tasksOf (ds : list DocumentGroup) (t : Task) :
  In t (tasksOf ds) <->
  exists d i, In d ds /\ In i (items d) /\ is_image (type i) = true /\ t = taskOf d i.
Proof.
  unfold tasksOf. rewrite in_flat_map. split.
  - intros (d & Id & It). apply in_map_iff in It. destruct It as (i & E & Ii).
    apply filter_In in Ii. destruct Ii as [Ii Im].
    exists d, i. repeat split; try assumption. symmetry. exact E.
  - intros (d & i & Id & Ii & Im & E). exists d. split; [exact Id|].
    apply in_map_iff. exists i. split; [symmetry; exact E|].
    apply filter_In. split; assumption.
Qed.


(** What the marking and the tasks together do to one item of one
    document. *)
Lemma batch_on_item (env : Env) (docs : list DocumentGroup)
    (d : DocumentGroup) (i0 : ImageItem) :
  distinctIds docs -> In d docs -> In i0 (items d) ->
  fold_left (taskOnItem env (doc_id d)) (tasksOf (filter doc_selected docs))
    (if doc_selected d
     then if is_image (type i0)
          then setUrl (url i0) (Some true) (Some (url i0)) i0
          else i0
     else i0)
  = if doc_selected d then batchItem env i0 else i0.
Proof.
  intros [Nd Ni] Id Ii.
  assert (U : forall t mi,
             id mi = id i0 ->
             In t (tasksOf (filter doc_selected docs)) ->
             String.eqb (doc_id d) (t_docId t) && String.eqb (id mi) (t_itemId t) = true ->
             doc_selected d = true /\ is_image (type i0) = true /\ t = taskOf d i0).
  { intros t mi Em It M. apply in_tasksOf in It.
    destruct It as (d' & i' & Id' & Ii' & Im' & ->).
    apply filter_In in Id'. destruct Id' as [Id' Sd'].
    apply andb_true_iff in M. destruct M as [M1 M2].
    apply String.eqb_eq in M1, M2. simpl in M1, M2.
    assert (d' = d) by (apply (NoDup_map_inj doc_id _ Nd); congruence). subst d'.
    assert (i' = i0) by (apply (NoDup_map_inj id _ (Ni d Id)); congruence). subst i'.
    repeat split; assumption. }
  destruct (doc_selected d) eqn:Sd.
  - destruct (is_image (type i0)) eqn:Im.
    + rewrite (@fold_tasks_hit env (doc_id d) (taskOf d i0)).
      * unfold taskUpdate, batchItem, cropOutcome. rewrite Im. simpl.
        destruct (autoCropImage env (url i0)); reflexivity.
      * intros t It M. apply (U t _ eq_refl It M).
      * apply in_tasksOf. exists d, i0. repeat split; try assumption.
        apply filter_In. split; assumption.
      * simpl. rewrite !String.eqb_refl. reflexivity.
    + unfold batchItem. rewrite Im. apply fold_tasks_miss. intros t It.
      destruct (String.eqb (doc_id d) (t_docId t) && String.eqb (id i0) (t_itemId t))
        eqn:M; [|reflexivity].
      destruct (U t i0 eq_refl It M) as (_ & C & _). congruence.
  - apply fold_tasks_miss. intros t It.
    destruct (String.eqb (doc_id d) (t_docId t) && String.eqb (id i0) (t_itemId t))
      eqn:M; [|reflexivity].
    destruct (U t i0 eq_refl It M) as (C & _). congruence.
Qed.

(** The documents after the batch. *)
Lemma batch_documents (env : Env) (s : AppState) :
  distinctIds (documents s) ->
  (exists d, In d (documents s) /\ doc_selected d = true) ->
  documents (handleBatchAutoCrop env s) = batchDocs env (documents s).
Proof.
  intros D (d0 & I0 & S0). unfold handleBatchAutoCrop.
  destruct (filter doc_selected (documents s)) as [|f r] eqn:F.
  { exfalso. assert (In d0 (filter doc_selected (documents s)))
      by (apply filter_In; split; assumption).
    rewrite F in H. destruct H. }
  rewrite <- F. rewrite runTasks_fold. cbn [documents].
  rewrite fold_taskOnDocs. unfold markProcessing, batchDocs. rewrite map_map.
  apply map_ext_in. intros d Id. rewrite fold_taskOnDoc.
  destruct (doc_selected d) eqn:Sd.
  - cbn [items doc_id setItems]. rewrite map_map.
    apply (f_equal (fun l => setItems l d)). apply map_ext_in. intros i Ii.
    pose proof (@batch_on_item env _ d i D Id Ii) as B. rewrite Sd in B. exact B.
  - transitivity (setItems (items d) d); [|apply setItems_same].
    apply (f_equal (fun l => setItems l d)).
    transitivity (map (fun i => i) (items d)); [|apply map_id].
    apply map_ext_in. intros i Ii.
    pose proof (@batch_on_item env _ d i D Id Ii) as B. rewrite Sd in B. exact B.
Qed.

(** X20.  [handleBatchAutoCrop], when the documents have distinct ids and so
    have the items of each, changes exactly the image items of the selected
    documents: each gets the crop of its own URL (or keeps its URL when the
    crop finds nothing or is rejected), its former URL as [backupUrl] and
    [processing: false]; PDF items and the documents that are not selected
    stay as they were. *)
Theorem handleBatchAutoCrop_documents (env : Env) (s : AppState) :
  distinctIds (documents s) ->
  (exists d, In d (documents s) /\ doc_selected d = true) ->
  documents (handleBatchAutoCrop env s) = batchDocs env (documents s).
Proof. exact (@batch_documents env s). Qed.


Lemma desk_distinct : distinctIds (documents desk).
Proof.
  split; [exact desk_ids|].
  intros d [<-|[<-|[]]]; repeat constructor; simpl; intuition discriminate.
Qed.

Lemma handleBatchAutoCrop_documents_witness :
  distinctIds (documents desk) /\
  (exists d, In d (documents desk) /\ doc_selected d = true) /\
  documents (handleBatchAutoCrop edgy desk) = batchDocs edgy (documents desk).
Proof.
  split; [exact desk_distinct|].
  assert (E : exists d, In d (documents desk) /\ doc_selected d = true)
    by (exists folder1; split; [left; reflexivity|reflexivity]).
  split; [exact E|].
  exact (@handleBatchAutoCrop_documents edgy desk desk_distinct E).
Defined.

Lemma count_positive (A : Type) (p : A -> bool) (l : list A) :
  (0 <? List.length (filter p l))%nat = existsb p l.
Proof.
  induction l as [|h t IH]; [reflexivity|]. simpl.
  destruct (p h); [reflexivity|exact IH].
Qed.

Lemma cropped_iff (env : Env) (u : ImageUrl) :
  cropped env u = true <->
  exists pts req,
    detectDocumentCorners env u = Resolved (Some pts) /\
    autoCropImage env u = Resolved (WarpPng u req).
Proof.
  unfold cropped, autoCropImage. split.
  - destruct (detectDocumentCorners_cases env u) as [N|(pts & D & _)].
    + rewrite N. simpl. destruct (url_eq_dec u u); [discriminate|congruence].
    + rewrite D. simpl.
      destruct (applyPerspectiveCrop_cases env u pts) as [R|(req & _ & _ & R)];
        rewrite R; [discriminate|].
      intros _. exists pts, req. split; reflexivity.
  - intros (pts & req & D & R). rewrite R.
    destruct (url_eq_dec (WarpPng u req) u) as [E|_]; [|reflexivity].
    exfalso. exact (WarpPng_fresh E).
Qed.

(** X21.  Whatever the crops come to, a batch over at least one selected
    document ends: [isProcessing] is false again, the documents as they were
    before (as JSON copies them) are kept for the undo, and the toast
    reports success exactly when the crop of at least one image gave a new
    URL, which happens just when corners were detected on it and the warp
    went through.  A rejected crop is not reported: it counts like an image
    on which nothing was found. *)
Theorem handleBatchAutoCrop_report (env : Env) (s : AppState) :
  (exists d, In d (documents s) /\ doc_selected d = true) ->
  let s' := handleBatchAutoCrop env s in
  App.isProcessing s' = false /\
  batchHistory s' = Some (jsonCopy (documents s)) /\
  (exists msg,
     toast s' =
     Some {| message := msg;
             success := existsb (fun t => cropped env (t_url t))
                                (tasksOf (filter doc_selected (documents s))) |}) /\
  (forall u, cropped env u = true <->
             exists pts req,
               detectDocumentCorners env u = Resolved (Some pts) /\
               autoCropImage env u = Resolved (WarpPng u req)).
Proof.
  intros (d0 & I0 & S0) s'. unfold s', handleBatchAutoCrop.
  destruct (filter doc_selected (documents s)) as [|f r] eqn:F.
  { exfalso. assert (In d0 (filter doc_selected (documents s)))
      by (apply filter_In; split; assumption).
    rewrite F in H. destruct H. }
  rewrite <- F. rewrite runTasks_fold.
  cbn [App.isProcessing batchHistory toast negb].
  split; [reflexivity|]. split; [reflexivity|]. split; [|apply cropped_iff].
  rewrite Nat.add_0_l, count_positive.
  destruct (existsb _ _); eexists; reflexivity.
Qed.

Lemma handleBatchAutoCrop_report_witness :
  (exists d, In d (documents desk) /\ doc_selected d = true) /\
  let s' := handleBatchAutoCrop edgy desk in
  App.isProcessing s' = false /\
  batchHistory s' = Some (jsonCopy (documents desk)) /\
  (exists msg,
     toast s' =
     Some {| message := msg;
             success := existsb (fun t => cropped edgy (t_url t))
                                (tasksOf (filter doc_selected (documents desk))) |}) /\
  (forall u, cropped edgy u = true <->
             exists pts req,
               detectDocumentCorners edgy u = Resolved (Some pts) /\
               autoCropImage edgy u = Resolved (WarpPng u req)).
Proof.
  assert (E : exists d, In d (documents desk) /\ doc_selected d = true)
    by (exists folder1; split; [left; reflexivity|reflexivity]).
  split; [exact E|].
  exact (@handleBatchAutoCrop_report edgy desk E).
Defined.

(* ------------------------------------------------------------------ *)
(** ** App.tsx: undoing the batch *)

Lemma jsonItem_fixed (i : ImageItem) :
  jsonItem i = i <-> forall n, originalFile i <> Some (File n).
Proof.
  destruct i as [a b c [[n|]|] e f g h k]; unfold jsonItem; simpl; split.
  - intro H. inversion H.
  - intro H. exfalso. apply (H n). reflexivity.
  - intros _ n. discriminate.
  - reflexivity.
  - intros _ n. discriminate.
  - reflexivity.
Qed.

Lemma map_fixed (A : Type) (f : A -> A) (l : list A) :
  map f l = l <-> forall a, In a l -> f a = a.
Proof.
  induction l as [|h t IH]; simpl; split.
  - intros _ a [].
  - reflexivity.
  - intros H a I. inversion H as [[H1 H2]].
    destruct I as [<-|I]; [exact H1|].
    apply (proj1 IH H2). exact I.
  - intro H. f_equal; [apply H; left; reflexivity|].
    apply IH. intros a I. apply H. right. exact I.
Qed.

Lemma jsonCopy_fixed (docs : list DocumentGroup) :
  jsonCopy docs = docs <->
  forall d i, In d docs -> In i (items d) -> forall n, originalFile i <> Some (File n).
Proof.
  unfold jsonCopy. rewrite map_fixed. split.
  - intros H d i Id Ii. apply jsonItem_fixed.
    assert (M : map jsonItem (items d) = items d).
    { pose proof (H d Id) as E. apply (f_equal items) in E. exact E. }
    exact (proj1 (map_fixed jsonItem (items d)) M i Ii).
  - intros H d Id. transitivity (setItems (items d) d); [|apply setItems_same].
    apply (f_equal (fun l => setItems l d)). apply map_fixed.
    intros i Ii. apply jsonItem_fixed. apply (H d i Id Ii).
Qed.

Lemma batch_history (env : Env) (s : AppState) :
  (exists d, In d (documents s) /\ doc_selected d = true) ->
  batchHistory (handleBatchAutoCrop env s) = Some (jsonCopy (documents s)).
Proof.
  intros (d0 & I0 & S0). unfold handleBatchAutoCrop.
  destruct (filter doc_selected (documents s)) as [|f r] eqn:F.
  { exfalso. assert (In d0 (filter doc_selected (documents s)))
      by (apply filter_In; split; assumption).
    rewrite F in H. destruct H. }
  rewrite <- F. rewrite runTasks_fold. reflexivity.
Qed.

(** X22.  An undo right after a batch puts back the documents as JSON
    copied them before the batch, whatever the batch did, and can be done
    once only.  What comes back is what was there exactly when no item held
    a [File] in [originalFile]: of every item that did, the URL, name and
    flags are restored, but [originalFile] is an empty object from then
    on. *)
Theorem undo_after_batch (env : Env) (s : AppState) :
  (exists d, In d (documents s) /\ doc_selected d = true) ->
  let s' := handleUndoBatch (handleBatchAutoCrop env s) in
  documents s' = jsonCopy (documents s) /\
  batchHistory s' = None /\
  handleUndoBatch s' = s' /\
  (documents s' = documents s <->
   forall d i, In d (documents s) -> In i (items d) ->
               forall n, originalFile i <> Some (File n)) /\
  (forall d, In d (documents s) ->
     exists d', In d' (documents s') /\
       doc_id d' = doc_id d /\ title d' = title d /\ doc_selected d' = doc_selected d /\
       map url (items d') = map url (items d) /\
       map id (items d') = map id (items d) /\
       map backupUrl (items d') = map backupUrl (items d)).
Proof.
  intros E s'. pose proof (@batch_history env s E) as H.
  assert (D : documents s' = jsonCopy (documents s)).
  { unfold s', handleUndoBatch. rewrite H. reflexivity. }
  assert (B : batchHistory s' = None).
  { unfold s', handleUndoBatch. rewrite H. reflexivity. }
  split; [exact D|]. split; [exact B|]. split.
  { unfold handleUndoBatch at 1. rewrite B. reflexivity. }
  split.
  { rewrite D. apply jsonCopy_fixed. }
  intros d Id. exists (setItems (map jsonItem (items d)) d). split.
  { rewrite D. unfold jsonCopy.
    apply (in_map (fun d => setItems (map jsonItem (items d)) d)). exact Id. }
  cbn [doc_id title doc_selected items setItems].
  rewrite !map_map. repeat split; reflexivity.
Qed.

Lemma undo_after_batch_witness :
  (exists d, In d (documents desk) /\ doc_selected d = true) /\
  let s' := handleUndoBatch (handleBatchAutoCrop edgy desk) in
  documents s' = jsonCopy (documents desk) /\
  batchHistory s' = None /\
  handleUndoBatch s' = s' /\
  (documents s' = documents desk <->
   forall d i, In d (documents desk) -> In i (items d) ->
               forall n, originalFile i <> Some (File n)) /\
  (forall d, In d (documents desk) ->
     exists d', In d' (documents s') /\
       doc_id d' = doc_id d /\ title d' = title d /\ doc_selected d' = doc_selected d /\
       map url (items d') = map url (items d) /\
       map id (items d') = map id (items d) /\
       map backupUrl (items d') = map backupUrl (items d)).
Proof.
  assert (E : exists d, In d (documents desk) /\ doc_selected d = true)
    by (exists folder1; split; [left; reflexivity|reflexivity]).
  split; [exact E|].
  exact (@undo_after_batch edgy desk E).
Defined.

(* ------------------------------------------------------------------ *)
(** ** pdfService.ts (part_001): the source of a PDF item *)

Lemma pdfBytes_of_copy (i : ImageItem) :
  forall n, pdfBytes (jsonItem i) <> Some (FromFile n).
Proof.
  intro n. unfold pdfBytes, jsonItem. simpl.
  destruct (originalFile i); discriminate.
Qed.

(** X23.  A file added with [handleAddItem] is kept in [originalFile], and
    [generatePDF] reads a PDF item from it.  After a batch crop has been
    undone no item is read from its file any more: the item of every added
    file is still there, but reading it throws (its [originalFile] is an
    empty object, which is truthy and has no [arrayBuffer]), so the [catch]
    of [generatePDF] leaves that PDF out instead of falling back on the
    URL. *)
Theorem pdf_lost_after_undo
    (env : Env) (s : AppState) (docId : string) (files : list Upload) (f : Upload) :
  (exists d, In d (documents s) /\ doc_selected d = true) ->
  (exists d, In d (documents s) /\ doc_id d = docId) ->
  In f files ->
  let s1 := handleAddItem docId files s in
  let s2 := handleUndoBatch (handleBatchAutoCrop env s1) in
  (exists d, In d (documents s1) /\ doc_id d = docId /\ In (newItem f) (items d) /\
             pdfBytes (newItem f) = Some (FromFile (u_name f))) /\
  (exists d, In d (documents s2) /\ doc_id d = docId /\
             In (jsonItem (newItem f)) (items d) /\
             url (jsonItem (newItem f)) = u_url f /\
             pdfBytes (jsonItem (newItem f)) = None) /\
  (forall d i, In d (documents s2) -> In i (items d) ->
               forall n, pdfBytes i <> Some (FromFile n)).
Proof.
  intros (d0 & I0 & S0) (d1 & I1 & E1) If s1 s2.
  set (add := fun doc => if String.eqb (doc_id doc) docId
                         then setItems (items doc ++ map newItem files) doc
                         else doc).
  assert (D1 : documents s1 = map add (documents s)) by reflexivity.
  assert (Sel : exists d, In d (documents s1) /\ doc_selected d = true).
  { exists (add d0). split; [rewrite D1; apply in_map; exact I0|].
    unfold add. destruct (String.eqb (doc_id d0) docId); exact S0. }
  assert (A1 : In (add d1) (documents s1)) by (rewrite D1; apply in_map; exact I1).
  assert (A2 : add d1 = setItems (items d1 ++ map newItem files) d1).
  { unfold add. rewrite E1, String.eqb_refl. reflexivity. }
  assert (A3 : In (newItem f) (items (add d1))).
  { rewrite A2. simpl. apply in_or_app. right. apply in_map. exact If. }
  assert (D2 : documents s2 = jsonCopy (documents s1)).
  { unfold s2, handleUndoBatch. rewrite (@batch_history env s1 Sel). reflexivity. }
  split.
  { exists (add d1). split; [exact A1|]. split; [rewrite A2; exact E1|].
    split; [exact A3|reflexivity]. }
  split.
  { exists (setItems (map jsonItem (items (add d1))) (add d1)). split.
    - rewrite D2. unfold jsonCopy.
      apply (in_map (fun d => setItems (map jsonItem (items d)) d)). exact A1.
    - split; [rewrite A2; exact E1|]. split; [|split; reflexivity].
      simpl. apply in_map. exact A3. }
  intros d i Id Ii n. rewrite D2 in Id. unfold jsonCopy in Id.
  apply in_map_iff in Id. destruct Id as (d' & <- & Id').
  simpl in Ii. apply in_map_iff in Ii. destruct Ii as (i' & <- & Ii').
  apply pdfBytes_of_copy.
Qed.

Lemma pdf_lost_after_undo_witness :
  let f := {| u_id := "c1"; u_url := Source "blob:letter"; u_name := "letter.pdf";
              u_pdf := true |} in
  (exists d, In d (documents desk) /\ doc_selected d = true) /\
  (exists d, In d (documents desk) /\ doc_id d = "2"%string) /\
  In f [f] /\
  let s1 := handleAddItem "2" [f] desk in
  let s2 := handleUndoBatch (handleBatchAutoCrop studio s1) in
  (exists d, In d (documents s1) /\ doc_id d = "2"%string /\ In (newItem f) (items d) /\
             pdfBytes (newItem f) = Some (FromFile (u_name f))) /\
  (exists d, In d (documents s2) /\ doc_id d = "2"%string /\
             In (jsonItem (newItem f)) (items d) /\
             url (jsonItem (newItem f)) = u_url f /\
             pdfBytes (jsonItem (newItem f)) = None) /\
  (forall d i, In d (documents s2) -> In i (items d) ->
               forall n, pdfBytes i <> Some (FromFile n)).
Proof.
  intro f.
  assert (E : exists d, In d (documents desk) /\ doc_selected d = true)
    by (exists folder1; split; [left; reflexivity|reflexivity]).
  assert (T : exists d, In d (documents desk) /\ doc_id d = "2"%string)
    by (exists folder2; split; [right; left; reflexivity|reflexivity]).
  split; [exact E|]. split; [exact T|]. split; [left; reflexivity|].
  exact (@pdf_lost_after_undo studio desk "2" [f] f E T (or_introl eq_refl)).
Defined.

(* ------------------------------------------------------------------ *)
(** ** pdfService.ts (part_001): an image on its page *)

(** X24.  The first version of [generatePDF] draws an image of positive
    size on the A4 page so that it keeps its proportions, lies within the
    margins of 20 points on all four sides, is centred, and touches the
    margins in at least one direction: it is scaled up as well as down. *)
Theorem placeOnPage_fits (w h : Q) :
  0 < w -> 0 < h ->
  let p := placeOnPage w h in
  (0 < p_width p /\ 0 < p_height p) /\
  p_width p * h == p_height p * w /\
  (margin <= p_x p /\ p_x p + p_width p <= pageWidth - margin) /\
  (margin <= p_y p /\ p_y p + p_height p <= pageHeight - margin) /\
  (p_x p + p_width p / 2 == pageWidth / 2 /\ p_y p + p_height p / 2 == pageHeight / 2) /\
  (p_width p == pageWidth - margin * 2 \/ p_height p == pageHeight - margin * 2).
Proof.
  intros W H p. unfold p, placeOnPage. cbn [p_x p_y p_width p_height].
  set (aw := pageWidth - margin * 2). set (ah := pageHeight - margin * 2).
  assert (Aw : 0 < aw) by reflexivity. assert (Ah : 0 < ah) by reflexivity.
  set (m := Qmin (aw / w) (ah / h)).
  assert (Ew : w * (aw / w) == aw) by (field; lra).
  assert (Eh : h * (ah / h) == ah) by (field; lra).
  assert (Pw : 0 < aw / w) by (apply Qlt_shift_div_l; lra).
  assert (Ph : 0 < ah / h) by (apply Qlt_shift_div_l; lra).
  assert (M : 0 < m /\ m <= aw / w /\ m <= ah / h /\ (m == aw / w \/ m == ah / h)).
  { unfold m. destruct (Q.min_spec (aw / w) (ah / h)) as [[A B]|[A B]]; rewrite B.
    - split; [exact Pw|]. split; [lra|]. split; [lra|]. left. reflexivity.
    - split; [exact Ph|]. split; [exact A|]. split; [lra|]. right. reflexivity. }
  destruct M as (M0 & M1 & M2 & M3). clearbody m.
  assert (Fw : w * m <= aw).
  { rewrite <- Ew. apply Qmult_le_l; [exact W|exact M1]. }
  assert (Fh : h * m <= ah).
  { rewrite <- Eh. apply Qmult_le_l; [exact H|exact M2]. }
  assert (Gw : 0 < w * m) by (apply Qmult_lt_0_compat; assumption).
  assert (Gh : 0 < h * m) by (apply Qmult_lt_0_compat; assumption).
  assert (Pg : pageWidth == aw + margin * 2) by (unfold aw; ring).
  assert (Qg : pageHeight == ah + margin * 2) by (unfold ah; ring).
  assert (Mg : margin == 20) by reflexivity.
  split; [split; assumption|]. split; [ring|].
  assert (Last : w * m == aw \/ h * m == ah).
  { destruct M3 as [M3|M3]; [left|right]; rewrite M3; assumption. }
  set (fw := w * m) in *. set (fh := h * m) in *.
  set (x := (pageWidth - fw) / 2). set (y := (pageHeight - fh) / 2).
  assert (Ex : x * 2 == pageWidth - fw) by (unfold x; field).
  assert (Ey : y * 2 == pageHeight - fh) by (unfold y; field).
  assert (Hw : (fw / 2) * 2 == fw) by field.
  assert (Hh : (fh / 2) * 2 == fh) by field.
  assert (Hp : (pageWidth / 2) * 2 == pageWidth) by field.
  assert (Hq : (pageHeight / 2) * 2 == pageHeight) by field.
  clearbody x y.
  split; [split; lra|]. split; [split; lra|].
  split; [|exact Last].
  set (a := fw / 2) in *. set (b := fh / 2) in *.
  set (c := pageWidth / 2) in *. set (d := pageHeight / 2) in *.
  clearbody a b c d. split; lra.
Qed.

Lemma placeOnPage_fits_witness :
  0 < 1000 /\ 0 < 800 /\
  let p := placeOnPage 1000 800 in
  (0 < p_width p /\ 0 < p_height p) /\
  p_width p * 800 == p_height p * 1000 /\
  (margin <= p_x p /\ p_x p + p_width p <= pageWidth - margin) /\
  (margin <= p_y p /\ p_y p + p_height p <= pageHeight - margin) /\
  (p_x p + p_width p / 2 == pageWidth / 2 /\ p_y p + p_height p / 2 == pageHeight / 2) /\
  (p_width p == pageWidth - margin * 2 \/ p_height p == pageHeight - margin * 2).
Proof.
  split; [reflexivity|]. split; [reflexivity|].
  exact (@placeOnPage_fits 1000 800 eq_refl eq_refl).
Defined.

(* ------------------------------------------------------------------ *)
(** ** App.tsx: restoring one item *)

(** X25.  [handleRestoreItem] takes back the batch crop of one image: with
    distinct ids, after a batch the restore of an image of a selected
    document (whose URL was not the empty string) gives it the URL it had
    before the batch and no backup any more, and leaves every other item as
    the batch left it; a second restore of the same item changes nothing. *)
Theorem restore_after_batch (env : Env) (s : AppState) (d : DocumentGroup) (i : ImageItem) :
  distinctIds (documents s) ->
  In d (documents s) -> doc_selected d = true ->
  In i (items d) -> is_image (type i) = true -> url i <> Source "" ->
  let s1 := handleRestoreItem (doc_id d) (id i) (handleBatchAutoCrop env s) in
  documents s1 =
    map (fun doc =>
           if String.eqb (doc_id doc) (doc_id d)
           then setItems
                  (map (fun j => if String.eqb (id j) (id i)
                                 then setUrl (url i) (Some false) None i
                                 else batchItem env j) (items doc)) doc
           else if doc_selected doc
                then setItems (map (batchItem env) (items doc)) doc
                else doc)
        (documents s) /\
  handleRestoreItem (doc_id d) (id i) s1 = s1.
Proof.
  intros D Id Sd Ii Im Nu s1.
  assert (E : exists d, In d (documents s) /\ doc_selected d = true)
    by (exists d; split; assumption).
  pose proof (@batch_documents env s D E) as B.
  destruct D as [Nd Ni].
  assert (T : truthy (Some (url i)) = true).
  { destruct (url i) as [n| |]; try reflexivity.
    destruct n; [congruence|reflexivity]. }
  assert (R : documents s1 =
    map (fun doc =>
           if String.eqb (doc_id doc) (doc_id d)
           then setItems
                  (map (fun j => if String.eqb (id j) (id i)
                                 then setUrl (url i) (Some false) None i
                                 else batchItem env j) (items doc)) doc
           else if doc_selected doc
                then setItems (map (batchItem env) (items doc)) doc
                else doc)
        (documents s)).
  { unfold s1, handleRestoreItem. cbn [documents setDocuments]. rewrite B.
    unfold onItemsOf, batchDocs. rewrite map_map. apply map_ext_in.
    intros doc Idoc.
    assert (Q : doc_id (if doc_selected doc
                        then setItems (map (batchItem env) (items doc)) doc
                        else doc) = doc_id doc)
      by (destruct (doc_selected doc); reflexivity).
    rewrite Q. destruct (String.eqb (doc_id doc) (doc_id d)) eqn:M; [|reflexivity].
    apply String.eqb_eq in M.
    assert (doc = d) by (apply (NoDup_map_inj doc_id _ Nd); assumption). subst doc.
    rewrite Sd. cbn [items setItems]. rewrite map_map.
    apply (f_equal (fun l => setItems l d)). apply map_ext_in. intros j Ij.
    assert (Ej : id (batchItem env j) = id j)
      by (unfold batchItem; destruct (is_image (type j)); reflexivity).
    rewrite Ej. destruct (String.eqb (id j) (id i)) eqn:Mj; [|reflexivity].
    apply String.eqb_eq in Mj.
    assert (j = i) by (apply (NoDup_map_inj id _ (Ni d Id)); assumption). subst j.
    unfold batchItem. rewrite Im. cbn [negb orb backupUrl setUrl processing].
    rewrite T. reflexivity. }
  split; [exact R|].
  unfold handleRestoreItem at 1.
  assert (F : onItemsOf (doc_id d)
                (fun item =>
                   if negb (String.eqb (id item) (id i)) || negb (truthy (backupUrl item))
                   then item
                   else match backupUrl item with
                        | Some b => setUrl b (processing item) None item
                        | None => item
                        end) (documents s1) = documents s1).
  { unfold onItemsOf. apply map_fixed. intros doc Idoc.
    destruct (String.eqb (doc_id doc) (doc_id d)) eqn:M; [|reflexivity].
    transitivity (setItems (items doc) doc); [|apply setItems_same].
    apply (f_equal (fun l => setItems l doc)). apply map_fixed. intros j Ij.
    destruct (String.eqb (id j) (id i)) eqn:Mj; [|reflexivity].
    cbn [negb orb].
    rewrite R in Idoc. apply in_map_iff in Idoc. destruct Idoc as (doc0 & Ed & I0).
    assert (M0 : String.eqb (doc_id doc0) (doc_id d) = true).
    { assert (Qd : doc_id doc = doc_id doc0).
      { rewrite <- Ed. destruct (String.eqb (doc_id doc0) (doc_id d));
          [reflexivity|destruct (doc_selected doc0); reflexivity]. }
      rewrite Qd in M. exact M. }
    rewrite M0 in Ed. subst doc. cbn [items setItems] in Ij.
    apply in_map_iff in Ij. destruct Ij as (j0 & Ej & Ij0).
    destruct (String.eqb (id j0) (id i)) eqn:M1.
    - subst j. reflexivity.
    - exfalso. subst j.
      assert (id (batchItem env j0) = id j0)
        by (unfold batchItem; destruct (is_image (type j0)); reflexivity).
      rewrite H in Mj. congruence. }
  destruct s1 as [docs bh ed pr la to]. unfold setDocuments. cbn in *.
  rewrite F. reflexivity.
Qed.

Lemma restore_after_batch_witness :
  distinctIds (documents desk) /\
  In folder1 (documents desk) /\ doc_selected folder1 = true /\
  In scan (items folder1) /\ is_image (type scan) = true /\ url scan <> Source "" /\
  let s1 := handleRestoreItem (doc_id folder1) (id scan) (handleBatchAutoCrop edgy desk) in
  documents s1 =
    map (fun doc =>
           if String.eqb (doc_id doc) (doc_id folder1)
           then setItems
                  (map (fun j => if String.eqb (id j) (id scan)
                                 then setUrl (url scan) (Some false) None scan
                                 else batchItem edgy j) (items doc)) doc
           else if doc_selected doc
                then setItems (map (batchItem edgy) (items doc)) doc
                else doc)
        (documents desk) /\
  handleRestoreItem (doc_id folder1) (id scan) s1 = s1.
Proof.
  assert (N : url scan <> Source "") by discriminate.
  split; [exact desk_distinct|]. split; [left; reflexivity|]. split; [reflexivity|].
  split; [left; reflexivity|]. split; [reflexivity|]. split; [exact N|].
  exact (@restore_after_batch edgy desk folder1 scan desk_distinct
           (or_introl eq_refl) eq_refl (or_introl eq_refl) eq_refl N).
Defined.

(* ------------------------------------------------------------------ *)
(** ** App.tsx: where the items come from *)

Lemma sameOrigin_refl (j : ImageItem) : sameOrigin j j.
Proof. repeat split. Qed.

Lemma sameOrigin_trans (a b c : ImageItem) :
  sameOrigin a b -> sameOrigin b c -> sameOrigin a c.
Proof. unfold sameOrigin. intuition congruence. Qed.

Lemma sameOrigin_setUrl (u : ImageUrl) (p : option bool) (b : option ImageUrl)
    (i : ImageItem) : sameOrigin (setUrl u p b i) i.
Proof. repeat split. Qed.

Lemma sameOrigin_json (i : ImageItem) : sameOrigin (jsonItem i) i.
Proof. repeat split. Qed.

Lemma uploaded_sameOrigin (U : list Upload) (j' j : ImageItem) :
  sameOrigin j' j -> uploaded U j -> uploaded U j'.
Proof.
  intros (A & B & C & D) (f & If & (E & F & G & H)). exists f. split; [exact If|].
  unfold itemOf. repeat split; congruence.
Qed.

Lemma in_pool (s : AppState) (j : ImageItem) :
  In j (pool s) <->
  (exists d, In d (documents s) /\ In j (items d)) \/
  (exists h d, batchHistory s = Some h /\ In d h /\ In j (items d)) \/
  (exists docId, editingItem s = Some (docId, j)).
Proof.
  unfold pool. rewrite !in_app_iff, in_flat_map. split.
  - intros [H|[H|H]].
    + left. exact H.
    + right. left. destruct (batchHistory s) as [h|]; [|destruct H].
      apply in_flat_map in H. destruct H as (d & A & B). exists h, d. auto.
    + right. right. destruct (editingItem s) as [[docId it]|]; [|destruct H].
      destruct H as [<-|[]]. exists docId. reflexivity.
  - intros [H|[(h & d & A & B & C)|(docId & A)]].
    + left. exact H.
    + right. left. rewrite A. apply in_flat_map. exists d. auto.
    + right. right. rewrite A. left. reflexivity.
Qed.

(** A handler that only rewrites the documents, each item of the result
    being of the origin of an item held before. *)
Lemma pool_of_documents (s s' : AppState) :
  batchHistory s' = batchHistory s -> editingItem s' = editingItem s ->
  (forall d' j', In d' (documents s') -> In j' (items d') ->
                 exists j, In j (pool s) /\ sameOrigin j' j) ->
  forall j', In j' (pool s') -> exists j, In j (pool s) /\ sameOrigin j' j.
Proof.
  intros B E H j' I. apply in_pool in I.
  destruct I as [(d & A & C)|[(h & d & A & C & D)|(docId & A)]].
  - apply (H d j' A C).
  - exists j'. split; [|apply sameOrigin_refl]. apply in_pool. right. left.
    exists h, d. rewrite <- B. auto.
  - exists j'. split; [|apply sameOrigin_refl]. apply in_pool. right. right.
    exists docId. rewrite <- E. exact A.
Qed.

Lemma in_documents_pool (s : AppState) (d : DocumentGroup) (j : ImageItem) :
  In d (documents s) -> In j (items d) -> In j (pool s).
Proof. intros A B. apply in_pool. left. exists d. auto. Qed.

(** The items after [onItemsOf]. *)
Lemma in_onItemsOf (docId : string) (f : ImageItem -> ImageItem)
    (docs : list DocumentGroup) (d' : DocumentGroup) (j' : ImageItem) :
  In d' (onItemsOf docId f docs) -> In j' (items d') ->
  exists d j, In d docs /\ In j (items d) /\ (j' = j \/ j' = f j).
Proof.
  unfold onItemsOf. intros A B. apply in_map_iff in A. destruct A as (d & E & A).
  destruct (String.eqb (doc_id d) docId); subst d'.
  - simpl in B. apply in_map_iff in B. destruct B as (j & E & B).
    exists d, j. auto.
  - exists d, j'. auto.
Qed.

Lemma onItemsOf_origin (s : AppState) (docId : string) (f : ImageItem -> ImageItem)
    (d' : DocumentGroup) (j' : ImageItem) :
  (forall d j, In d (documents s) -> In j (items d) ->
               exists k, In k (pool s) /\ sameOrigin (f j) k) ->
  In d' (onItemsOf docId f (documents s)) -> In j' (items d') ->
  exists j, In j (pool s) /\ sameOrigin j' j.
Proof.
  intros F A B. destruct (in_onItemsOf _ _ _ _ _ A B) as (d & j & Id & Ij & [->| ->]).
  - exists j. split; [apply (in_documents_pool s d j Id Ij)|apply sameOrigin_refl].
  - apply (F d j Id Ij).
Qed.

Lemma onItem_origin (itemId : string) (f : ImageItem -> ImageItem) (j : ImageItem) :
  (forall i, sameOrigin (f i) i) -> sameOrigin (onItem itemId f j) j.
Proof.
  intro F. unfold onItem. destruct (String.eqb (id j) itemId);
    [apply F|apply sameOrigin_refl].
Qed.

Lemma find_In (A : Type) (p : A -> bool) (l : list A) (a : A) :
  find p l = Some a -> In a l /\ p a = true.
Proof.
  induction l as [|h t IH]; simpl; [discriminate|].
  destruct (p h) eqn:P.
  - intro E. inversion E; subst. auto.
  - intro E. destruct (IH E). auto.
Qed.

(** The documents in the course of the tasks of a batch. *)
Lemma fold_tasks_origin (env : Env) (tasks : list Task) :
  forall (docs : list DocumentGroup) (d' : DocumentGroup) (j' : ImageItem),
    In d' (fold_left (taskOnDocs env) tasks docs) -> In j' (items d') ->
    exists d j, In d docs /\ In j (items d) /\ sameOrigin j' j.
Proof.
  induction tasks as [|t r IH]; intros docs d' j' A B; simpl in A.
  - exists d', j'. split; [exact A|]. split; [exact B|apply sameOrigin_refl].
  - destruct (IH _ _ _ A B) as (d1 & j1 & A1 & B1 & S1).
    unfold taskOnDocs in A1.
    destruct (in_onItemsOf _ _ _ _ _ A1 B1) as (d & j & Id & Ij & [->|E]).
    + exists d, j. auto.
    + exists d, j. split; [exact Id|]. split; [exact Ij|].
      apply (sameOrigin_trans S1). rewrite E. apply onItem_origin.
      intro i. unfold taskUpdate.
      destruct (autoCropImage env (t_url t)); apply sameOrigin_setUrl.
Qed.

Lemma in_markProcessing (docs : list DocumentGroup) (d' : DocumentGroup) (j' : ImageItem) :
  In d' (markProcessing docs) -> In j' (items d') ->
  exists d j, In d docs /\ In j (items d) /\ sameOrigin j' j.
Proof.
  unfold markProcessing. intros A B. apply in_map_iff in A.
  destruct A as (d & E & A). destruct (doc_selected d); subst d'.
  - simpl in B. apply in_map_iff in B. destruct B as (j & E & B).
    exists d, j. split; [exact A|]. split; [exact B|]. subst j'.
    destruct (is_image (type j)); [apply sameOrigin_setUrl|apply sameOrigin_refl].
  - exists d, j'. split; [exact A|]. split; [exact B|apply sameOrigin_refl].
Qed.

Lemma in_jsonCopy (docs : list DocumentGroup) (d' : DocumentGroup) (j' : ImageItem) :
  In d' (jsonCopy docs) -> In j' (items d') ->
  exists d j, In d docs /\ In j (items d) /\ sameOrigin j' j.
Proof.
  unfold jsonCopy. intros A B. apply in_map_iff in A. destruct A as (d & <- & A).
  simpl in B. apply in_map_iff in B. destruct B as (j & <- & B).
  exists d, j. split; [exact A|]. split; [exact B|apply sameOrigin_json].
Qed.


(** Every item held after an action stems from an item held before it or
    is the new item of a file given to it. *)
Lemma act_pool (env : Env) (a : Action) (s : AppState) :
  inOrder a s ->
  forall j', In j' (pool (act env a s)) ->
    (exists j, In j (pool s) /\ sameOrigin j' j) \/
    (exists f, In f (uploadsOf [a]) /\ j' = newItem f).
Proof.
  intros O j' I.
  destruct a; simpl act in I; simpl uploadsOf.
  - (* AddDocument *)
    left. revert j' I. apply pool_of_documents; try reflexivity.
    intros d' j' A B. unfold handleAddDocument in A. cbn [documents setDocuments] in A.
    apply in_app_iff in A. destruct A as [A|[<-|[]]]; [|destruct B].
    exists j'. split; [apply (in_documents_pool s d' j' A B)|apply sameOrigin_refl].
  - (* DeleteDocument *)
    left. revert j' I. apply pool_of_documents.
    + unfold handleDeleteDocument. destruct (_ <=? _)%nat; reflexivity.
    + unfold handleDeleteDocument. destruct (_ <=? _)%nat; reflexivity.
    + intros d' j' A B. exists j'. split; [|apply sameOrigin_refl].
      apply (in_documents_pool s d' j'); [|exact B].
      unfold handleDeleteDocument in A. destruct (_ <=? _)%nat; [exact A|].
      cbn [documents setDocuments] in A. apply filter_In in A. tauto.
  - (* RenameDocument *)
    left. revert j' I. apply pool_of_documents; try reflexivity.
    intros d' j' A B. unfold handleRenameDocument in A.
    cbn [documents setDocuments] in A. apply in_map_iff in A.
    destruct A as (d & E & A). exists j'. split; [|apply sameOrigin_refl].
    apply (in_documents_pool s d j' A).
    destruct (String.eqb docId (doc_id d)); subst d'; exact B.
  - (* ToggleColumnSelection *)
    left. revert j' I. apply pool_of_documents; try reflexivity.
    intros d' j' A B. unfold handleToggleColumnSelection in A.
    cbn [documents setDocuments] in A. apply in_map_iff in A.
    destruct A as (d & E & A). exists j'. split; [|apply sameOrigin_refl].
    apply (in_documents_pool s d j' A).
    destruct (String.eqb docId (doc_id d)); subst d'; exact B.
  - (* ToggleSelectAll *)
    left. revert j' I. apply pool_of_documents; try reflexivity.
    intros d' j' A B. unfold handleToggleSelectAll in A.
    cbn [documents setDocuments] in A. apply in_map_iff in A.
    destruct A as (d & <- & A). exists j'. split; [|apply sameOrigin_refl].
    apply (in_documents_pool s d j' A B).
  - (* ClearAll *)
    left. apply in_pool in I. cbn in I.
    destruct I as [(d & [<-|[]] & B)|[(h & d & A & _)|(docId & A)]];
      [destruct B|discriminate|].
    exists j'. split; [|apply sameOrigin_refl]. apply in_pool. right. right.
    exists docId. exact A.
  - (* AddItem *)
    apply in_pool in I.
    destruct I as [(d' & A & B)|[(h & d & A & B & C)|(docId' & A)]].
    + unfold handleAddItem in A. cbn [documents setDocuments] in A.
      apply in_map_iff in A. destruct A as (d & E & A).
      destruct (String.eqb (doc_id d) docId); subst d'.
      * simpl in B. apply in_app_iff in B. destruct B as [B|B].
        -- left. exists j'. split; [|apply sameOrigin_refl].
           apply (in_documents_pool s d j' A B).
        -- right. apply in_map_iff in B. destruct B as (f & <- & B).
           exists f. split; [|reflexivity]. rewrite app_nil_r. exact B.
      * left. exists j'. split; [|apply sameOrigin_refl].
        apply (in_documents_pool s d j' A B).
    + left. exists j'. split; [|apply sameOrigin_refl]. apply in_pool.
      right. left. exists h, d. auto.
    + left. exists j'. split; [|apply sameOrigin_refl]. apply in_pool.
      right. right. exists docId'. exact A.
  - (* RemoveItem *)
    left. revert j' I. apply pool_of_documents; try reflexivity.
    intros d' j' A B. unfold handleRemoveItem in A.
    cbn [documents setDocuments] in A. apply in_map_iff in A.
    destruct A as (d & E & A). exists j'. split; [|apply sameOrigin_refl].
    apply (in_documents_pool s d j' A).
    destruct (String.eqb (doc_id d) docId); subst d'; [|exact B].
    simpl in B. apply filter_In in B. tauto.
  - (* EditItem *)
    left. apply in_pool in I. cbn in I.
    destruct I as [(d & A & B)|[(h & d & A & B & C)|(docId' & A)]].
    + exists j'. split; [|apply sameOrigin_refl]. apply (in_documents_pool s d j' A B).
    + exists j'. split; [|apply sameOrigin_refl]. apply in_pool.
      right. left. exists h, d. auto.
    + inversion A; subst. destruct O as (d & A1 & _ & A2).
      exists j'. split; [|apply sameOrigin_refl]. apply (in_documents_pool s d j' A1 A2).
  - (* CloseEditor *)
    left. apply in_pool in I. cbn in I.
    destruct I as [(d & A & B)|[(h & d & A & B & C)|(docId' & A)]]; [| |discriminate].
    + exists j'. split; [|apply sameOrigin_refl]. apply (in_documents_pool s d j' A B).
    + exists j'. split; [|apply sameOrigin_refl]. apply in_pool.
      right. left. exists h, d. auto.
  - (* SaveEditor *)
    left. unfold saveEditor in I.
    destruct (editingItem s) as [[docId item]|] eqn:Ed;
      [|exists j'; split; [exact I|apply sameOrigin_refl]].
    destruct (is_image (type item));
      [|exists j'; split; [exact I|apply sameOrigin_refl]].
    assert (It : In item (pool s)) by (apply in_pool; right; right; exists docId; exact Ed).
    apply in_pool in I. unfold handleUpdateItem in I. rewrite Ed in I. cbn in I.
    destruct I as [(d' & A & B)|[(h & d & A & B & C)|(docId' & A)]]; [| |discriminate].
    + eapply onItemsOf_origin; [|exact A|exact B].
      intros d j Id Ij. unfold onItem.
      destruct (String.eqb _ _).
      * exists item. split; [exact It|apply sameOrigin_setUrl].
      * exists j. split; [apply (in_documents_pool s d j Id Ij)|apply sameOrigin_refl].
    + exists j'. split; [|apply sameOrigin_refl]. apply in_pool.
      right. left. exists h, d. auto.
  - (* ResetToOriginal *)
    left. revert j' I. apply pool_of_documents; try reflexivity.
    intros d' j' A B. unfold handleResetToOriginal in A. cbn [documents] in A.
    eapply onItemsOf_origin; [|exact A|exact B].
    intros d j Id Ij. exists j. split; [apply (in_documents_pool s d j Id Ij)|].
    apply onItem_origin. intro i. apply sameOrigin_setUrl.
  - (* RestoreItem *)
    left. revert j' I. apply pool_of_documents; try reflexivity.
    intros d' j' A B. unfold handleRestoreItem in A. cbn [documents setDocuments] in A.
    eapply onItemsOf_origin; [|exact A|exact B].
    intros d j Id Ij. exists j. split; [apply (in_documents_pool s d j Id Ij)|].
    destruct (_ || _); [apply sameOrigin_refl|].
    destruct (backupUrl j); [apply sameOrigin_setUrl|apply sameOrigin_refl].
  - (* RotateItem *)
    left. unfold handleRotateItem in I.
    destruct (find (fun d => String.eqb (doc_id d) docId) (documents s)) as [doc|] eqn:Fd;
      [|exists j'; split; [exact I|apply sameOrigin_refl]].
    destruct (find (fun i => String.eqb (id i) itemId) (items doc)) as [item|] eqn:Fi;
      [|exists j'; split; [exact I|apply sameOrigin_refl]].
    destruct (negb (is_image (type item)));
      [exists j'; split; [exact I|apply sameOrigin_refl]|].
    destruct (decode env (url item)) as [img|];
      [|exists j'; split; [exact I|apply sameOrigin_refl]].
    destruct (context2d env);
      [|exists j'; split; [exact I|apply sameOrigin_refl]].
    destruct (find_In _ _ Fd) as [Id _]. destruct (find_In _ _ Fi) as [Ii _].
    revert j' I. apply pool_of_documents; try reflexivity.
    intros d' j' A B. cbn [documents setDocuments] in A.
    eapply onItemsOf_origin; [|exact A|exact B].
    intros d j Id' Ij. unfold onItem. destruct (String.eqb (id j) itemId).
    + exists item. split; [apply (in_documents_pool s doc item Id Ii)|].
      apply sameOrigin_setUrl.
    + exists j. split; [apply (in_documents_pool s d j Id' Ij)|apply sameOrigin_refl].
  - (* MoveItem *)
    left. revert j' I. apply pool_of_documents; try reflexivity.
    intros d' j' A B.
    destruct (@moveItem_conserved sourceDocId itemId targetDocId targetIndex s) as [P _].
    assert (In j' (flat_map items (documents s))).
    { apply (Permutation_in _ P). apply in_flat_map. exists d'. auto. }
    exists j'. split; [|apply sameOrigin_refl]. apply in_pool. left.
    apply in_flat_map. exact H.
  - (* BatchAutoCrop *)
    left. unfold handleBatchAutoCrop in I.
    destruct (filter doc_selected (documents s)) as [|f r] eqn:F;
      [exists j'; split; [exact I|apply sameOrigin_refl]|].
    rewrite <- F in I. rewrite runTasks_fold in I.
    apply in_pool in I. cbn [documents batchHistory editingItem] in I.
    destruct I as [(d' & A & B)|[(h & d & A & B & C)|(docId' & A)]].
    + destruct (fold_tasks_origin _ _ _ _ _ A B) as (d1 & j1 & A1 & B1 & S1).
      destruct (in_markProcessing _ _ _ A1 B1) as (d & j & A2 & B2 & S2).
      exists j. split; [apply (in_documents_pool s d j A2 B2)|].
      apply (sameOrigin_trans S1 S2).
    + inversion A; subst h.
      destruct (in_jsonCopy _ _ _ B C) as (d0 & j & A2 & B2 & S2).
      exists j. split; [apply (in_documents_pool s d0 j A2 B2)|exact S2].
    + exists j'. split; [|apply sameOrigin_refl]. apply in_pool.
      right. right. exists docId'. exact A.
  - (* UndoBatch *)
    left. unfold handleUndoBatch in I.
    destruct (batchHistory s) as [saved|] eqn:Bh;
      [|exists j'; split; [exact I|apply sameOrigin_refl]].
    apply in_pool in I. cbn [documents batchHistory editingItem] in I.
    destruct I as [(d' & A & B)|[(h & d & A & B & C)|(docId' & A)]]; [|discriminate|].
    + exists j'. split; [|apply sameOrigin_refl]. apply in_pool.
      right. left. exists saved, d'. auto.
    + exists j'. split; [|apply sameOrigin_refl]. apply in_pool.
      right. right. exists docId'. exact A.
  - (* SavePdf *)
    left. unfold handleSave in I.
    destruct (filter doc_selected (documents s)) as [|sel0 sel];
      [exists j'; split; [exact I|apply sameOrigin_refl]|].
    destruct generated as [[]| |];
      [|exists j'; split; [exact I|apply sameOrigin_refl]
       |exists j'; split; [exact I|apply sameOrigin_refl]].
    apply in_pool in I. cbn in I.
    destruct I as [(d & [<-|[]] & B)|[(h & d & A & _)|(docId & A)]];
      [destruct B|discriminate|].
    exists j'. split; [|apply sameOrigin_refl]. apply in_pool. right. right.
    exists docId. exact A.
  - (* UpdateApp *)
    apply in_pool in I. cbn in I.
    destruct I as [(d & [<-|[]] & B)|[(h & d & A & _)|(docId & A)]];
      [destruct B|discriminate|discriminate].
  - (* SetLanguage *)
    left. exists j'. split; [exact I|apply sameOrigin_refl].
  - (* CloseToast *)
    left. exists j'. split; [exact I|apply sameOrigin_refl].
Qed.


Lemma uploadsOf_cons (a : Action) (rest : list Action) :
  uploadsOf (a :: rest) = uploadsOf [a] ++ uploadsOf rest.
Proof. unfold uploadsOf. simpl. rewrite app_nil_r. reflexivity. Qed.

Lemma uploaded_more (U V : list Upload) (j : ImageItem) :
  uploaded U j -> uploaded (U ++ V) j.
Proof.
  intros (f & I & H). exists f. split; [apply in_or_app; left; exact I|exact H].
Qed.

Lemma run_pool (env : Env) (actions : list Action) :
  forall (s : AppState) (U : list Upload),
    allInOrder env actions s ->
    (forall j, In j (pool s) -> uploaded U j) ->
    forall j, In j (pool (run env actions s)) -> uploaded (U ++ uploadsOf actions) j.
Proof.
  induction actions as [|a rest IH]; intros s U O H j I.
  - apply uploaded_more. apply H. exact I.
  - destruct O as [Oa Or]. rewrite uploadsOf_cons, app_assoc.
    apply (IH (act env a s) (U ++ uploadsOf [a]) Or); [|exact I].
    intros k Ik. destruct (act_pool env a s Oa k Ik) as [(k0 & I0 & S0)|(f & If & ->)].
    + apply uploaded_more. apply (uploaded_sameOrigin S0). apply H. exact I0.
    + exists f. split; [apply in_or_app; right; exact If|].
      repeat split.
Qed.

(** X26.  From the state [App] starts in, whatever the user does (uploads,
    moves, crops in batch, undoes, rotates, saves from the image editor,
    restores, resets, deletes, ...), every item held in the documents, in
    the history of the batch or in the editor is the item of an uploaded
    file: its id, name and type are those made at the upload and its
    [originalUrl] is the object URL made then.  So [handleResetToOriginal]
    always gives the items with the id it is given the URL of an upload
    with that id, and no backup. *)
Theorem originalUrl_of_upload (env : Env) (actions : list Action) :
  allInOrder env actions initial ->
  let s := run env actions initial in
  (forall j, In j (pool s) -> uploaded (uploadsOf actions) j) /\
  (forall docId itemId d j,
     In d (documents (handleResetToOriginal docId itemId s)) -> doc_id d = docId ->
     In j (items d) -> id j = itemId ->
     backupUrl j = None /\
     exists f, In f (uploadsOf actions) /\ u_id f = itemId /\
               url j = u_url f /\ originalUrl j = u_url f /\ name j = u_name f).
Proof.
  intros O s.
  assert (P : forall j, In j (pool s) -> uploaded (uploadsOf actions) j).
  { intros j I. apply (@run_pool env actions initial [] O); [|exact I].
    intros k [] . }
  split; [exact P|].
  intros docId itemId d j A Ed B Ej.
  unfold handleResetToOriginal in A. cbn [documents] in A.
  unfold onItemsOf in A. apply in_map_iff in A. destruct A as (d0 & E & A).
  assert (Q : String.eqb (doc_id d0) docId = true).
  { apply String.eqb_eq. rewrite <- Ed, <- E.
    destruct (String.eqb (doc_id d0) docId); reflexivity. }
  rewrite Q in E. subst d. simpl in B. apply in_map_iff in B.
  destruct B as (j0 & E & B). unfold onItem in E.
  destruct (String.eqb (id j0) itemId) eqn:M.
  - subst j. simpl. split; [reflexivity|].
    destruct (P j0 (in_documents_pool s d0 j0 A B)) as (f & If & (F1 & F2 & F3 & F4)).
    exists f. split; [exact If|]. apply String.eqb_eq in M.
    repeat split; congruence.
  - exfalso. subst j0. apply String.eqb_neq in M. contradiction.
Qed.

Lemma originalUrl_of_upload_witness :
  allInOrder edgy session initial /\
  let s := run edgy session initial in
  (forall j, In j (pool s) -> uploaded (uploadsOf session) j) /\
  (forall docId itemId d j,
     In d (documents (handleResetToOriginal docId itemId s)) -> doc_id d = docId ->
     In j (items d) -> id j = itemId ->
     backupUrl j = None /\
     exists f, In f (uploadsOf session) /\ u_id f = itemId /\
               url j = u_url f /\ originalUrl j = u_url f /\ name j = u_name f).
Proof.
  assert (O : allInOrder edgy session initial).
  { unfold session. cbn [allInOrder inOrder]. tauto. }
  split; [exact O|].
  exact (@originalUrl_of_upload edgy session O).
Defined.

(* ------------------------------------------------------------------ *)
(** ** App.tsx: what an undo takes back *)

Lemma act_keepsHistory (env : Env) (a : Action) (s : AppState) :
  keepsHistory a = true -> batchHistory (act env a s) = batchHistory s.
Proof.
  destruct a; simpl; intro K; try discriminate; try reflexivity.
  - unfold handleDeleteDocument. destruct (_ <=? _)%nat; reflexivity.
  - unfold saveEditor. destruct (editingItem s) as [[docId item]|] eqn:E; [|reflexivity].
    destruct (is_image (type item)); [|reflexivity].
    unfold handleUpdateItem. rewrite E. reflexivity.
  - unfold handleRotateItem.
    destruct (find _ (documents s)) as [doc|]; [|reflexivity].
    destruct (find _ (items doc)) as [item|]; [|reflexivity].
    destruct (negb _); [reflexivity|].
    destruct (decode env (url item)); [|reflexivity].
    destruct (context2d env); reflexivity.
  - unfold handleSave. destruct (filter doc_selected (documents s)); [reflexivity|].
    destruct generated; [discriminate|reflexivity|reflexivity].
Qed.

Lemma occur_keepsHistory (env : Env) (e : Event) (s : AppState) :
  quiet e = true -> batchHistory (occur env e s) = batchHistory s.
Proof.
  destruct e as [a|u]; simpl.
  - apply act_keepsHistory.
  - intros _. unfold handleUpdateItem.
    destruct (editingItem s) as [[docId item]|]; reflexivity.
Qed.

Lemma happen_keepsHistory (env : Env) (events : list Event) :
  forall s, forallb quiet events = true ->
            batchHistory (happen env events s) = batchHistory s.
Proof.
  induction events as [|e rest IH]; intros s K; [reflexivity|].
  simpl in K. apply andb_true_iff in K. destruct K as [Ke Kr].
  unfold happen. simpl fold_left. fold (happen env rest (occur env e s)).
  rewrite (IH _ Kr). apply occur_keepsHistory. exact Ke.
Qed.

(** The batch leaves the selection of the documents as it was. *)
Lemma batch_selection (env : Env) (s : AppState) :
  map doc_selected (documents (handleBatchAutoCrop env s)) =
  map doc_selected (documents s).
Proof.
  unfold handleBatchAutoCrop.
  destruct (filter doc_selected (documents s)) as [|f r] eqn:F; [reflexivity|].
  rewrite <- F. rewrite runTasks_fold. cbn [documents].
  rewrite fold_taskOnDocs. unfold markProcessing. rewrite !map_map.
  apply map_ext. intro d. rewrite fold_taskOnDoc.
  destruct (doc_selected d) eqn:Sd; simpl; rewrite ?Sd; reflexivity.
Qed.

Lemma filter_nonempty (A : Type) (f : A -> bool) (l : list A) :
  filter f l <> [] <-> existsb f l = true.
Proof.
  induction l as [|h t IH]; simpl.
  - split; [congruence|discriminate].
  - destruct (f h); simpl; [split; [reflexivity|discriminate]|exact IH].
Qed.

Lemma existsb_map (A B : Type) (g : A -> B) (f : B -> bool) (l : list A) :
  existsb f (map g l) = existsb (fun a => f (g a)) l.
Proof. induction l as [|h t IH]; simpl; [reflexivity|now rewrite IH]. Qed.

(** X27.  Of what calls a handler of [App] (the user's actions, the image
    editor, and the PDF editor through [handleUpdateItem]), only a batch,
    an undo, the clearing of everything, a save that has generated its PDF
    (it ends in the clearing) and the reload of the page touch the history
    of the batch.  So after a batch the undo stays available through
    anything else, and when it comes it puts back the documents of before
    the batch: uploads, moves, deletions and edits made since the batch are
    gone with the crops.  A save that generates its PDF right after the
    batch, on the other hand, clears the history, and an undo after it does
    nothing. *)
Theorem undo_takes_back_everything
    (env : Env) (s : AppState) (events : list Event) (now : string) (t : Translations) :
  (exists d, In d (documents s) /\ doc_selected d = true) ->
  forallb quiet events = true ->
  let s1 := happen env events (handleBatchAutoCrop env s) in
  let s2 := handleSave (Resolved tt) now t (handleBatchAutoCrop env s) in
  batchHistory s1 = Some (jsonCopy (documents s)) /\
  documents (handleUndoBatch s1) = jsonCopy (documents s) /\
  batchHistory (handleUndoBatch s1) = None /\
  batchHistory s2 = None /\ handleUndoBatch s2 = s2 /\
  documents s2 = [emptyDocument now "PDF 1"].
Proof.
  intros E K s1 s2.
  assert (H : batchHistory s1 = Some (jsonCopy (documents s))).
  { unfold s1. rewrite (happen_keepsHistory env events _ K).
    apply batch_history. exact E. }
  split; [exact H|]. unfold handleUndoBatch at 1 2. rewrite H.
  split; [reflexivity|]. split; [reflexivity|].
  assert (N : filter doc_selected (documents (handleBatchAutoCrop env s)) <> []).
  { apply filter_nonempty.
    assert (X : existsb (fun b : bool => b)
                  (map doc_selected (documents (handleBatchAutoCrop env s))) = true).
    { rewrite batch_selection. rewrite existsb_map.
      apply existsb_exists. destruct E as (d & I & S). exists d. auto. }
    rewrite existsb_map in X. exact X. }
  assert (S2 : s2 = handleClearAll now
                   (setToast (Some {| message := docSaved t; success := true |})
                             (handleBatchAutoCrop env s))).
  { unfold s2, handleSave.
    destruct (filter doc_selected (documents (handleBatchAutoCrop env s)));
      [congruence|reflexivity]. }
  rewrite S2. split; [reflexivity|]. split; reflexivity.
Qed.

Lemma undo_takes_back_everything_witness :
  (exists d, In d (documents desk) /\ doc_selected d = true) /\
  forallb quiet afterwards = true /\
  let t := {| docSaved := "saved"; docSaveError := "not saved" |} in
  let s1 := happen edgy afterwards (handleBatchAutoCrop edgy desk) in
  let s2 := handleSave (Resolved tt) "1700000000000" t (handleBatchAutoCrop edgy desk) in
  batchHistory s1 = Some (jsonCopy (documents desk)) /\
  documents (handleUndoBatch s1) = jsonCopy (documents desk) /\
  batchHistory (handleUndoBatch s1) = None /\
  batchHistory s2 = None /\ handleUndoBatch s2 = s2 /\
  documents s2 = [emptyDocument "1700000000000" "PDF 1"].
Proof.
  assert (E : exists d, In d (documents desk) /\ doc_selected d = true)
    by (exists folder1; split; [left; reflexivity|reflexivity]).
  split; [exact E|]. split; [reflexivity|].
  exact (@undo_takes_back_everything edgy desk afterwards "1700000000000"
           {| docSaved := "saved"; docSaveError := "not saved" |}
           E eq_refl).
Defined.

(* ------------------------------------------------------------------ *)
(** ** The two copies of [applyPerspectiveCrop] *)

Lemma part002_same_request (p0 p1 p2 p3 : Point) :
  sortPoints [p0; p1; p2; p3] = [p0; p1; p2; p3] ->
  Part002.cropRequest [p0; p1; p2; p3] = cropRequest [p0; p1; p2; p3].
Proof.
  intro S. unfold cropRequest. rewrite S. unfold Part002.cropRequest, targetW, targetH.
  assert (W : Rmax (hypot (px p1 - px p0) (py p1 - py p0))
                   (hypot (px p2 - px p3) (py p2 - py p3)) =
              Rmax (hypot (px p2 - px p3) (py p2 - py p3))
                   (hypot (px p1 - px p0) (py p1 - py p0))) by apply Rmax_comm.
  assert (H : Rmax (hypot (px p3 - px p0) (py p3 - py p0))
                   (hypot (px p2 - px p1) (py p2 - py p1)) =
              Rmax (hypot (px p1 - px p2) (py p1 - py p2))
                   (hypot (px p0 - px p3) (py p0 - py p3))).
  { rewrite Rmax_comm. f_equal; apply hypot_opp. }
  cbv zeta. rewrite W, H. reflexivity.
Qed.

(** X28.  The copy of the service in part_002, whose [applyPerspectiveCrop]
    reads the points in the order given, asks the engine for the same warp
    as the current one whenever the four points are already in the order of
    [sortPoints].  The two copies differ only on points that are out of
    order. *)
Theorem part002_agrees_on_sorted (pts : list Point) :
  List.length pts = 4%nat -> sortPoints pts = pts ->
  Part002.cropRequest pts = cropRequest pts.
Proof.
  intros L S.
  destruct pts as [|p0 [|p1 [|p2 [|p3 [|? ?]]]]]; try discriminate.
  apply part002_same_request. exact S.
Qed.

Lemma part002_agrees_on_sorted_witness :
  List.length frame = 4%nat /\ sortPoints frame = frame /\
  Part002.cropRequest frame = cropRequest frame.
Proof.
  split; [reflexivity|]. split; [reflexivity|].
  exact (@part002_agrees_on_sorted frame eq_refl eq_refl).
Defined.

(* ------------------------------------------------------------------ *)
(** ** The default quadrilateral *)

Lemma defaultPoints_sorted (w h : Q) :
  0 <= w -> 0 <= h -> sortPoints (defaultPoints w h) = defaultPoints w h.
Proof.
  intros W H.
  unfold defaultPoints, sortPoints, slice, at_index, by_y, by_x, by_x_desc; simpl.
  repeat (progress (split_cmp; simpl)); try reflexivity; exfalso; lra.
Qed.

(** X29.  The quadrilateral the editor sets when detection finds nothing is
    in the order of [sortPoints] for every image size, so both copies of
    [applyPerspectiveCrop] take its corners as they are; the crop asked for
    is the middle of the image, 80 % of its width by 80 % of its height. *)
Theorem defaultPoints_crop (w h : Q) :
  0 <= w -> 0 <= h ->
  sortPoints (defaultPoints w h) = defaultPoints w h /\
  Part002.cropRequest (defaultPoints w h) = cropRequest (defaultPoints w h) /\
  exists req,
    cropRequest (defaultPoints w h) = Some req /\
    w_srcCoords req = defaultPoints w h /\
    w_size req = (Q2R (w * (8 # 10)), Q2R (h * (8 # 10))).
Proof.
  intros W H. pose proof (defaultPoints_sorted W H) as S.
  split; [exact S|]. split; [apply part002_same_request; exact S|].
  unfold cropRequest. rewrite S. unfold defaultPoints at 1.
  eexists. split; [reflexivity|]. split; [reflexivity|].
  cbn [w_size]. unfold targetW, targetH. cbn [px py].
  assert (Pw : (0 <= Q2R (w * (8 # 10)))%R).
  { rewrite <- RMicromega.Q2R_0. apply Qle_Rle. lra. }
  assert (Ph : (0 <= Q2R (h * (8 # 10)))%R).
  { rewrite <- RMicromega.Q2R_0. apply Qle_Rle. lra. }
  rewrite (@hypot_of_square (w * (9 # 10) - w * (1 # 10))
             (h * (9 # 10) - h * (9 # 10)) (Q2R (w * (8 # 10))));
    [|exact Pw|rewrite <- Q2R_mult; apply Qeq_eqR; ring].
  rewrite (@hypot_of_square (w * (9 # 10) - w * (1 # 10))
             (h * (1 # 10) - h * (1 # 10)) (Q2R (w * (8 # 10))));
    [|exact Pw|rewrite <- Q2R_mult; apply Qeq_eqR; ring].
  rewrite (@hypot_of_square (w * (9 # 10) - w * (9 # 10))
             (h * (1 # 10) - h * (9 # 10)) (Q2R (h * (8 # 10))));
    [|exact Ph|rewrite <- Q2R_mult; apply Qeq_eqR; ring].
  rewrite (@hypot_of_square (w * (1 # 10) - w * (1 # 10))
             (h * (1 # 10) - h * (9 # 10)) (Q2R (h * (8 # 10))));
    [|exact Ph|rewrite <- Q2R_mult; apply Qeq_eqR; ring].
  rewrite !Rmax_same. reflexivity.
Qed.

Lemma defaultPoints_crop_witness :
  0 <= 1000 /\ 0 <= 800 /\
  sortPoints (defaultPoints 1000 800) = defaultPoints 1000 800 /\
  Part002.cropRequest (defaultPoints 1000 800) = cropRequest (defaultPoints 1000 800) /\
  exists req,
    cropRequest (defaultPoints 1000 800) = Some req /\
    w_srcCoords req = defaultPoints 1000 800 /\
    w_size req = (Q2R (1000 * (8 # 10)), Q2R (800 * (8 # 10))).
Proof.
  split; [discriminate|]. split; [discriminate|].
  exact (@defaultPoints_crop 1000 800 ltac:(discriminate) ltac:(discriminate)).
Defined.
